(** * NoteVault: a shallow embedding of the credential, cipher, storage and
      access-state code, and the properties of its specification.

    The development follows the repository file by file:
    - [Py]: the Python values and builtins the code relies on (text, bytes,
      exceptions, UTF-8);
    - [Base64]: [base64.urlsafe_b64encode] / [urlsafe_b64decode];
    - [Crypto], [Fernet]: the primitives of the [cryptography] package
      (scrypt, AES-128, HMAC-SHA256) as an interface, and the Fernet token
      format built from them;
    - [Password]: src/NoteVault/password.py;
    - [Db]: src/NoteVault/database.py;
    - [Config]: src/NoteVault/config.py;
    - [Main]: src/NoteVault/main.py (the [AppState] enumeration and one
      call of [App.frame_commands] as a step function). *)

From stdpp Require Import gmap strings list.
From Stdlib Require Import ZArith NArith Lia.
From Stdlib.Strings Require Import Byte.

Local Open Scope N_scope.

(** ** Python values and builtins *)

Module Py.

(** The exceptions that can leave the modelled code. *)
Inductive exn : Set :=
| UnicodeEncodeError
| UnicodeDecodeError
| OverflowError
| AttributeError
| TypeError
| ValueError
| InvalidKey          (* cryptography.exceptions.InvalidKey *)
| InvalidToken        (* cryptography.fernet.InvalidToken *)
| IntegrityError      (* sqlite3.IntegrityError *)
| OperationalError    (* sqlite3.OperationalError *)
| DatabaseError.      (* sqlite3.DatabaseError *)

#[global] Instance exn_eq_dec : EqDecision exn.
Proof. solve_decision. Defined.

(** A call returns, raises, or ends the process ([sys.exit]). *)
Inductive outcome (A : Type) : Type :=
| Ok (a : A)
| Raise (e : exn)
| Exit (code : Z).
Arguments Ok {A} a.
Arguments Raise {A} e.
Arguments Exit {A} code.

Definition bind {A B} (m : outcome A) (k : A -> outcome B) : outcome B :=
  match m with
  | Ok a => k a
  | Raise e => Raise e
  | Exit c => Exit c
  end.

(** [try: m except e: h] for one exception class. *)
Definition try_except {A} (m : outcome A) (e : exn) (h : outcome A) : outcome A :=
  match m with
  | Raise e' => if decide (e' = e) then h else Raise e'
  | other => other
  end.

(** A [str] is its sequence of code points; [bytes] a sequence of octets. *)
Definition str : Type := list N.
Definition bytes : Type := list byte.

(** The octet with value [n mod 256]. *)
Definition byte_of_N (n : N) : byte :=
  match Byte.of_N (n mod 256) with
  | Some b => b
  | None => x00
  end.

(** An ASCII literal as a [str] and as [bytes]. *)
Definition of_string (s : string) : str :=
  map Ascii.N_of_ascii (String.list_ascii_of_string s).
Definition bytes_of_string (s : string) : bytes :=
  map Ascii.byte_of_ascii (String.list_ascii_of_string s).

(** Unicode scalar values: code points that are not surrogates. Text that
    the user interface hands over is made of these. *)
Definition is_scalar (c : N) : bool :=
  (c <? 0xD800) || ((0xDFFF <? c) && (c <? 0x110000)).
Definition unicode_text (s : str) : Prop := Forall (fun c => is_scalar c = true) s.

(** [str.encode("utf-8")] for one code point: [None] where Python raises
    UnicodeEncodeError (a surrogate). *)
Definition utf8_encode_char (c : N) : option bytes :=
  if c <? 0x80 then Some [byte_of_N c]
  else if c <? 0x800 then
    Some [byte_of_N (0xC0 + c / 64); byte_of_N (0x80 + c mod 64)]
  else if c <? 0x10000 then
    if (0xD800 <=? c) && (c <=? 0xDFFF) then None
    else Some [byte_of_N (0xE0 + c / 4096);
               byte_of_N (0x80 + (c / 64) mod 64);
               byte_of_N (0x80 + c mod 64)]
  else if c <? 0x110000 then
    Some [byte_of_N (0xF0 + c / 262144);
          byte_of_N (0x80 + (c / 4096) mod 64);
          byte_of_N (0x80 + (c / 64) mod 64);
          byte_of_N (0x80 + c mod 64)]
  else None.

Fixpoint utf8_encode (s : str) : option bytes :=
  match s with
  | [] => Some []
  | c :: s' =>
    match utf8_encode_char c, utf8_encode s' with
    | Some bs, Some rest => Some (bs ++ rest)
    | _, _ => None
    end
  end.

Definition str_encode (s : str) : outcome bytes :=
  match utf8_encode s with
  | Some bs => Ok bs
  | None => Raise UnicodeEncodeError
  end.

(** A continuation octet within [lo, hi]. *)
Definition in_range (lo hi : N) (b : byte) : bool :=
  (lo <=? Byte.to_N b) && (Byte.to_N b <=? hi).
Definition cont (b : byte) : N := Byte.to_N b - 0x80.

(** [bytes.decode("utf-8")], strict: overlong forms, surrogates, values
    above U+10FFFF and truncated sequences are errors. *)
Fixpoint utf8_decode (bs : bytes) : option str :=
  match bs with
  | [] => Some []
  | b0 :: t0 =>
    let n0 := Byte.to_N b0 in
    if n0 <? 0x80 then cons n0 <$> utf8_decode t0
    else if n0 <? 0xC2 then None
    else if n0 <? 0xE0 then
      match t0 with
      | b1 :: t1 =>
        if in_range 0x80 0xBF b1
        then cons ((n0 - 0xC0) * 64 + cont b1) <$> utf8_decode t1
        else None
      | _ => None
      end
    else if n0 <? 0xF0 then
      match t0 with
      | b1 :: b2 :: t2 =>
        if in_range (if n0 =? 0xE0 then 0xA0 else 0x80)
                    (if n0 =? 0xED then 0x9F else 0xBF) b1
           && in_range 0x80 0xBF b2
        then cons ((n0 - 0xE0) * 4096 + cont b1 * 64 + cont b2) <$> utf8_decode t2
        else None
      | _ => None
      end
    else if n0 <? 0xF5 then
      match t0 with
      | b1 :: b2 :: b3 :: t3 =>
        if in_range (if n0 =? 0xF0 then 0x90 else 0x80)
                    (if n0 =? 0xF4 then 0x8F else 0xBF) b1
           && in_range 0x80 0xBF b2 && in_range 0x80 0xBF b3
        then cons ((n0 - 0xF0) * 262144 + cont b1 * 4096 + cont b2 * 64 + cont b3)
               <$> utf8_decode t3
        else None
      | _ => None
      end
    else None
  end.

Definition bytes_decode (bs : bytes) : outcome str :=
  match utf8_decode bs with
  | Some s => Ok s
  | None => Raise UnicodeDecodeError
  end.

(** [bytes.decode("ascii")] is used on base64 output only; it agrees with
    the UTF-8 decoder on octets below 0x80 and raises otherwise. *)
Definition ascii_decode (bs : bytes) : outcome str :=
  if forallb (fun b => Byte.to_N b <? 0x80) bs
  then Ok (map Byte.to_N bs)
  else Raise UnicodeDecodeError.

(** [int.to_bytes(length, "big")] for a non-negative integer. *)
Fixpoint be_bytes (len : nat) (n : N) : bytes :=
  match len with
  | O => []
  | S k => be_bytes k (n / 256) ++ [byte_of_N n]
  end.
Definition int_to_bytes (len : nat) (n : N) : outcome bytes :=
  if n <? 256 ^ N.of_nat len then Ok (be_bytes len n) else Raise OverflowError.

(** Slices [b[:-k]] and [b[-k:]]. *)
Definition drop_last (k : nat) (b : bytes) : bytes := firstn (length b - k)%nat b.
Definition take_last (k : nat) (b : bytes) : bytes := skipn (length b - k)%nat b.

End Py.

Export Py.

(** [outcome] is a monad; stdpp's [x ← m; k] and [m;; k] sequence calls. *)
#[global] Instance outcome_ret : MRet Py.outcome := @Py.Ok.
#[global] Instance outcome_bind : MBind Py.outcome := fun A B k m => Py.bind m k.

#[global] Instance byte_eq_dec : EqDecision byte := Byte.byte_eq_dec.

(** ** base64 (the standard library's [base64] over [binascii]) *)

Module Base64.

Definition PAD : byte := x3d.   (* '=' *)

(** [table_b2a_base64]: the standard alphabet. *)
Definition table_b2a_base64 : bytes :=
  bytes_of_string "ABCDEFGHIJKLMNOPQRSTUVWXYZabcdefghijklmnopqrstuvwxyz0123456789+/".
Definition b2a (v : N) : byte := nth (N.to_nat v) table_b2a_base64 x00.

(** [binascii.b2a_base64(s, newline=False)]: three octets give four
    characters, and a last group of one or two octets is padded. *)
Fixpoint b2a_base64 (bs : bytes) : bytes :=
  match bs with
  | [] => []
  | [b0] =>
    let n0 := Byte.to_N b0 in
    [b2a (n0 / 4); b2a ((n0 mod 4) * 16); PAD; PAD]
  | [b0; b1] =>
    let n0 := Byte.to_N b0 in
    let n1 := Byte.to_N b1 in
    [b2a (n0 / 4); b2a ((n0 mod 4) * 16 + n1 / 16); b2a ((n1 mod 16) * 4); PAD]
  | b0 :: b1 :: b2 :: rest =>
    let n0 := Byte.to_N b0 in
    let n1 := Byte.to_N b1 in
    let n2 := Byte.to_N b2 in
    [b2a (n0 / 4); b2a ((n0 mod 4) * 16 + n1 / 16);
     b2a ((n1 mod 16) * 4 + n2 / 64); b2a (n2 mod 64)] ++ b2a_base64 rest
  end.

(** [bytes.maketrans(b'+/', b'-_')] and its inverse direction. *)
Definition urlsafe_encode_translation (b : byte) : byte :=
  if decide (b = x2b) then x2d else if decide (b = x2f) then x5f else b.
Definition urlsafe_decode_translation (b : byte) : byte :=
  if decide (b = x2d) then x2b else if decide (b = x5f) then x2f else b.

Definition urlsafe_b64encode (s : bytes) : bytes :=
  map urlsafe_encode_translation (b2a_base64 s).

(** [table_a2b_base64]: the value of an alphabet character, and a value
    of 64 or more for every other octet. *)
Definition table_a2b_base64 (b : byte) : N :=
  let n := Byte.to_N b in
  if (65 <=? n) && (n <=? 90) then n - 65
  else if (97 <=? n) && (n <=? 122) then n - 97 + 26
  else if (48 <=? n) && (n <=? 57) then n - 48 + 52
  else if n =? 43 then 62
  else if n =? 47 then 63
  else 255.

(** [binascii.a2b_base64(data, strict_mode=False)]: the loop over the
    input with its state [quad_pos], [leftchar], [pads]. Characters outside
    the alphabet are skipped; a pad sequence that completes a quad ends
    the parse; input that ends inside a quad is an error ([None]). *)
Fixpoint a2b_loop (ascii : bytes) (quad_pos leftchar pads : N) (bin : bytes)
  : option bytes :=
  match ascii with
  | [] => if quad_pos =? 0 then Some bin else None
  | this_ch :: rest =>
    if decide (this_ch = PAD) then
      if 2 <=? quad_pos then
        if 4 <=? quad_pos + (pads + 1) then Some bin
        else a2b_loop rest quad_pos leftchar (pads + 1) bin
      else a2b_loop rest quad_pos leftchar pads bin
    else
      let v := table_a2b_base64 this_ch in
      if 64 <=? v then a2b_loop rest quad_pos leftchar pads bin
      else if quad_pos =? 0 then a2b_loop rest 1 v 0 bin
      else if quad_pos =? 1 then
        a2b_loop rest 2 (N.land v 0x0f) 0
          (bin ++ [byte_of_N (N.lor (N.shiftl leftchar 2) (N.shiftr v 4))])
      else if quad_pos =? 2 then
        a2b_loop rest 3 (N.land v 0x03) 0
          (bin ++ [byte_of_N (N.lor (N.shiftl leftchar 4) (N.shiftr v 2))])
      else
        a2b_loop rest 0 0 0
          (bin ++ [byte_of_N (N.lor (N.shiftl leftchar 6) v)])
  end.

Definition a2b_base64 (data : bytes) : option bytes := a2b_loop data 0 0 0 [].

(** [base64.urlsafe_b64decode]: translate, then decode without
    validation. [None] stands for [binascii.Error]. *)
Definition urlsafe_b64decode (s : bytes) : option bytes :=
  a2b_base64 (map urlsafe_decode_translation s).

(** [bytes.rstrip(b'=')]. *)
Fixpoint lstrip_pad (s : bytes) : bytes :=
  match s with
  | b :: rest => if decide (b = PAD) then lstrip_pad rest else s
  | [] => []
  end.
Definition rstrip_pad (s : bytes) : bytes := rev (lstrip_pad (rev s)).

End Base64.

(** ** The primitives of the [cryptography] package *)

(** scrypt, the AES-128 block cipher and HMAC-SHA256 are used through
    their contracts: the output lengths, and that AES decryption inverts
    AES encryption under the same key. *)
Class Crypto : Type := {
  (** [Scrypt(salt, length, n, r, p).derive(key_material)] *)
  scrypt : forall (key_material salt : bytes) (n r p : N) (length : nat), bytes;
  scrypt_length : forall km salt n r p len,
    List.length (scrypt km salt n r p len) = len;
  (** one block of AES with a 16-octet key *)
  aes_encrypt_block : forall (key block : bytes), bytes;
  aes_decrypt_block : forall (key block : bytes), bytes;
  aes_encrypt_length : forall key block,
    List.length key = 16%nat -> List.length block = 16%nat ->
    List.length (aes_encrypt_block key block) = 16%nat;
  aes_decrypt_encrypt : forall key block,
    List.length key = 16%nat -> List.length block = 16%nat ->
    aes_decrypt_block key (aes_encrypt_block key block) = block;
  (** [HMAC(key, SHA256()).update(msg).finalize()] *)
  hmac_sha256 : forall (key msg : bytes), bytes;
  hmac_sha256_length : forall key msg,
    List.length (hmac_sha256 key msg) = 32%nat
}.

(** ** Fernet ([cryptography.fernet]) *)

Module Fernet.
Section WithCrypto.
Context {C : Crypto}.

Definition xor_byte (a b : byte) : byte :=
  byte_of_N (N.lxor (Byte.to_N a) (Byte.to_N b)).
Definition xor_bytes (a b : bytes) : bytes := zip_with xor_byte a b.

(** [padding.PKCS7(128)]: pad to a whole number of 16-octet blocks. *)
Definition pkcs7_pad (data : bytes) : bytes :=
  let p := (16 - length data mod 16)%nat in
  data ++ repeat (byte_of_N (N.of_nat p)) p.

(** The unpadder: the data must be a positive whole number of blocks, the
    last octet [p] must be in 1..16 and the last [p] octets must all be
    [p]. [None] stands for ValueError. *)
Definition pkcs7_unpad (data : bytes) : option bytes :=
  if decide (length data = 0%nat \/ (length data mod 16)%nat <> 0%nat) then None
  else
    let p := N.to_nat (Byte.to_N (List.last data x00)) in
    if decide (p = 0%nat \/ (16 < p)%nat) then None
    else if forallb (fun b => bool_decide (b = List.last data x00)) (take_last p data)
         then Some (drop_last p data)
         else None.

(** AES-128 in CBC mode over [n] blocks, chained from [prev]. *)
Fixpoint cbc_encrypt_blocks (n : nat) (key prev data : bytes) : bytes :=
  match n with
  | O => []
  | S k =>
    let c := aes_encrypt_block key (xor_bytes (firstn 16 data) prev) in
    c ++ cbc_encrypt_blocks k key c (skipn 16 data)
  end.
Fixpoint cbc_decrypt_blocks (n : nat) (key prev data : bytes) : bytes :=
  match n with
  | O => []
  | S k =>
    let c := firstn 16 data in
    xor_bytes (aes_decrypt_block key c) prev
      ++ cbc_decrypt_blocks k key c (skipn 16 data)
  end.
Definition cbc_encrypt (key iv data : bytes) : bytes :=
  cbc_encrypt_blocks (length data / 16) key iv data.
(** [decryptor.update(ct) + decryptor.finalize()]: ValueError ([None])
    when the ciphertext is not a whole number of blocks. *)
Definition cbc_decrypt (key iv data : bytes) : option bytes :=
  if decide ((length data mod 16)%nat = 0%nat)
  then Some (cbc_decrypt_blocks (length data / 16) key iv data)
  else None.

Record t : Type := { _signing_key : bytes; _encryption_key : bytes }.

(** [Fernet(key)] *)
Definition init (key : bytes) : outcome t :=
  match Base64.urlsafe_b64decode key with
  | None => Raise ValueError
  | Some k =>
    if decide (length k = 32%nat)
    then Ok {| _signing_key := firstn 16 k; _encryption_key := skipn 16 k |}
    else Raise ValueError
  end.

(** [Cipher(algorithms.AES(key), modes.CBC(iv))]: the constructor refuses
    an IV that is not one block long. *)
Definition cbc_mode (iv : bytes) : outcome unit :=
  if decide (length iv = 16%nat) then Ok tt else Raise ValueError.

(** [_encrypt_from_parts(data, current_time, iv)]; [encrypt] calls it
    with [int(time.time())] and [os.urandom(16)]. *)
Definition encrypt_from_parts (f : t) (data : bytes) (current_time : N) (iv : bytes)
  : outcome bytes :=
  let padded_data := pkcs7_pad data in
  cbc_mode iv;;
  let ciphertext := cbc_encrypt (_encryption_key f) iv padded_data in
  ts ← int_to_bytes 8 current_time;
  let basic_parts := [x80] ++ ts ++ iv ++ ciphertext in
  let hmac := hmac_sha256 (_signing_key f) basic_parts in
  Ok (Base64.urlsafe_b64encode (basic_parts ++ hmac)).

(** [_get_unverified_token_data] *)
Definition get_unverified_token_data (token : bytes) : outcome bytes :=
  match Base64.urlsafe_b64decode token with
  | None => Raise InvalidToken
  | Some data =>
    match data with
    | [] => Raise InvalidToken
    | b0 :: _ =>
      if decide (b0 <> x80) then Raise InvalidToken
      else if decide (length data < 9)%nat then Raise InvalidToken
      else Ok data
    end
  end.

(** [_verify_signature]: the tag is the last 32 octets, computed over
    everything before it. *)
Definition verify_signature (f : t) (data : bytes) : outcome unit :=
  if decide (hmac_sha256 (_signing_key f) (drop_last 32 data) = take_last 32 data)
  then Ok tt else Raise InvalidToken.

(** [_decrypt_data(data, timestamp, None)]: only the errors of the two
    [finalize] calls are turned into InvalidToken. *)
Definition decrypt_data (f : t) (data : bytes) : outcome bytes :=
  verify_signature f data;;
  let iv := firstn 16 (skipn 9 data) in
  let ciphertext := firstn (length data - 32 - 25) (skipn 25 data) in
  cbc_mode iv;;
  match cbc_decrypt (_encryption_key f) iv ciphertext with
  | None => Raise InvalidToken
  | Some plaintext_padded =>
    match pkcs7_unpad plaintext_padded with
    | None => Raise InvalidToken
    | Some unpadded => Ok unpadded
    end
  end.

(** [decrypt(token)] with [ttl=None]: no check of the timestamp. *)
Definition decrypt (f : t) (token : bytes) : outcome bytes :=
  data ← get_unverified_token_data token;
  decrypt_data f data.

End WithCrypto.
End Fernet.

(** ** src/NoteVault/password.py *)

Module Password.

(** [string.ascii_letters], [string.digits], [string.punctuation]. The
    double quote (code 34) is given by its code. *)
Definition ascii_letters : str :=
  of_string "abcdefghijklmnopqrstuvwxyzABCDEFGHIJKLMNOPQRSTUVWXYZ".
Definition digits : str := of_string "0123456789".
Definition punctuation : str :=
  of_string "!" ++ [34] ++ of_string "#$%&'()*+,-./:;<=>?@[\]^_`{|}~".

Definition VALID_CHARS : gset N :=
  list_to_set (ascii_letters ++ digits ++ punctuation).

Definition password_meets_requirements (password : str) : bool :=
  if (length password <? 8)%nat || (32 <? length password)%nat then false
  else if existsb (fun c => bool_decide (c ∉ VALID_CHARS)) password then false
  else true.

(** [gen_salt()]: [secrets.token_urlsafe(16)], which encodes 16 octets
    from the system's random source [tok] and strips the padding. *)
Definition token_urlsafe (tok : bytes) : outcome str :=
  ascii_decode (Base64.rstrip_pad (Base64.urlsafe_b64encode tok)).
Definition gen_salt (tok : bytes) : outcome str := token_urlsafe tok.

Section WithCrypto.
Context {C : Crypto}.

(** [Scrypt.verify(key_material, expected_key)]: derive, compare in
    constant time, raise InvalidKey on a difference. *)
Definition Scrypt_verify (salt : bytes) (len : nat) (n r p : N)
    (key_material expected_key : bytes) : outcome unit :=
  if decide (scrypt key_material salt n r p len = expected_key)
  then Ok tt else Raise InvalidKey.

Definition verify_password (password salt : str) (key : bytes) : outcome bool :=
  salt_bytes ← str_encode salt;
  try_except
    (password_bytes ← str_encode password;
     Scrypt_verify salt_bytes 32 (2 ^ 14) 8 1 password_bytes key;;
     Ok true)
    InvalidKey (Ok false).

Definition derive_key (password salt : str) : outcome bytes :=
  salt_bytes ← str_encode salt;
  password_bytes ← str_encode password;
  Ok (scrypt password_bytes salt_bytes (2 ^ 14) 8 1 32).

(** [class Encoder] *)
Record Encoder : Type := { _encoder : Fernet.t; password_hash : bytes }.

Definition Encoder_init (password salt : str) : outcome Encoder :=
  prep_pwd ← derive_key password salt;
  f ← Fernet.init (Base64.urlsafe_b64encode prep_pwd);
  Ok {| _encoder := f; password_hash := prep_pwd |}.

(** [Encoder.encode]; [now] is the clock reading and [iv] the 16 random
    octets that [Fernet.encrypt] draws for this call. *)
Definition encode (e : Encoder) (now : N) (iv : bytes) (data : str) : outcome str :=
  data_bytes ← str_encode data;
  encrypted ← Fernet.encrypt_from_parts (_encoder e) data_bytes now iv;
  bytes_decode encrypted.

(** [Encoder.decode] *)
Definition decode (e : Encoder) (data : str) : outcome str :=
  data_bytes ← str_encode data;
  decrypted ← Fernet.decrypt (_encoder e) data_bytes;
  bytes_decode decrypted.

End WithCrypto.
End Password.

(** ** The storage directory as the process sees it *)

Module Os.

Definition Path : Type := string.

(** [p / name] *)
Definition join (p : Path) (name : string) : Path := p +:+ "/" +:+ name.

(** The content of a SQLite file that holds the table
    [records(name TEXT PRIMARY KEY, body TEXT)]: its rows, oldest first. *)
Definition table : Type := list (str * str).

(** The directories, the SQLite files that hold the table [records],
    each with its rows, and every other regular file with its octets. *)
Record World : Type := {
  files : gmap Path bytes;
  dirs : gset Path;
  sqlite : gmap Path table
}.

Definition path_exists (w : World) (p : Path) : bool :=
  bool_decide (is_Some (files w !! p)) || bool_decide (p ∈ dirs w)
  || bool_decide (is_Some (sqlite w !! p)).
Definition is_dir (w : World) (p : Path) : bool := bool_decide (p ∈ dirs w).

Definition mkdir (p : Path) (w : World) : World :=
  {| files := files w; dirs := {[p]} ∪ dirs w; sqlite := sqlite w |}.
Definition write_file (p : Path) (content : bytes) (w : World) : World :=
  {| files := <[p := content]> (files w); dirs := dirs w; sqlite := sqlite w |}.
Definition create_db (p : Path) (t : table) (w : World) : World :=
  {| files := files w; dirs := dirs w; sqlite := <[p := t]> (sqlite w) |}.

End Os.

(** ** src/NoteVault/database.py *)

Module Db.
Import Os.

Definition DBFILENAME : string := "db.sqlite".

(** What the statements of a cursor find in the file of its connection:
    the table [records]; no table, in an empty file, which SQLite takes
    for a database without tables; or a file that is no database. *)
Inductive cursor : Type :=
| Records (t : table)
| NoTable
| NotADatabase.

(** [_conn]/[_cursor] give access to the file while the connection is
    open; [close] sets both to None. *)
Record Database : Type := { _cursor : option cursor }.

(** [Database(storage_pth)]. [sqlite3.connect] opens the file, or creates
    it, and raises OperationalError when it cannot: the directory is
    missing or is no directory, or the path is a directory. It does not
    read the file: what an existing file holds shows with the first
    statement. The table is created only when the path did not exist. *)
Definition Database_init (w : World) (storage_pth : Path)
  : outcome (Database * World) :=
  let db_file := join storage_pth DBFILENAME in
  let db_existed := path_exists w db_file in
  if negb (is_dir w storage_pth) || is_dir w db_file then Raise OperationalError
  else if db_existed then
    match sqlite w !! db_file, files w !! db_file with
    | Some t, _ => Ok ({| _cursor := Some (Records t) |}, w)
    | None, Some [] => Ok ({| _cursor := Some NoTable |}, w)
    | None, Some (_ :: _) => Ok ({| _cursor := Some NotADatabase |}, w)
    | None, None => Raise OperationalError   (* a directory, excluded above *)
    end
  else Ok ({| _cursor := Some (Records []) |}, create_db db_file [] w).

Definition close (db : Database) : Database := {| _cursor := None |}.

(** Binding a [str] to a [?] placeholder encodes it as UTF-8. *)
Definition bind_param (s : str) : outcome unit := str_encode s;; Ok tt.

(** [SELECT body FROM records WHERE name = (?)] followed by [fetchone()] *)
Definition select_body (t : table) (title : str) : option str :=
  snd <$> List.find (fun r => bool_decide (fst r = title)) t.

(** A statement is prepared before its parameters are bound: without
    the table it fails with "no such table" (OperationalError), and on a
    file that is no database with DatabaseError. *)
Definition fetch_record (db : Database) (title : str) : outcome (option str) :=
  match _cursor db with
  | None => Raise AttributeError
  | Some (Records t) => bind_param title;; Ok (select_body t title)
  | Some NoTable => Raise OperationalError
  | Some NotADatabase => Raise DatabaseError
  end.

(** [INSERT INTO records VALUES(?, ?)] and [commit()]: the PRIMARY KEY
    constraint makes sqlite3 raise IntegrityError for a name that a row
    already has. *)
Definition add_record (db : Database) (title body : str) : outcome Database :=
  match _cursor db with
  | None => Raise AttributeError
  | Some (Records t) =>
    bind_param title;;
    bind_param body;;
    if existsb (fun r => bool_decide (fst r = title)) t
    then Raise IntegrityError
    else Ok {| _cursor := Some (Records (t ++ [(title, body)])) |}
  | Some NoTable => Raise OperationalError
  | Some NotADatabase => Raise DatabaseError
  end.

(** [DELETE FROM records WHERE name = (?)] and [commit()] *)
Definition del_record (db : Database) (title : str) : outcome Database :=
  match _cursor db with
  | None => Raise AttributeError
  | Some (Records t) =>
    bind_param title;;
    Ok {| _cursor :=
            Some (Records (List.filter (fun r => negb (bool_decide (fst r = title))) t)) |}
  | Some NoTable => Raise OperationalError
  | Some NotADatabase => Raise DatabaseError
  end.

End Db.

(** ** src/NoteVault/config.py *)

(** [json.load] with pydantic's validation, and [model_dump_json] as
    [dump] prints it: taken through their contract that a dumped
    configuration loads back. A file's content gives the two fields, or
    is a JSON object that pydantic rejects with a ValidationError, or
    fails before that (it is not text, not JSON, or not an object). *)
Inductive load_result : Type :=
| Loaded (storage_pth : Os.Path) (password_salt : str)
| Invalid
| NotLoaded.

Class Json : Type := {
  model_dump_json : forall (storage_pth : Os.Path) (password_salt : str), bytes;
  json_load : bytes -> load_result;
  json_load_dump : forall p s,
    unicode_text s -> json_load (model_dump_json p s) = Loaded p s
}.

Module Config.
Import Os.
Section WithJson.
Context {J : Json}.

Definition CONFIGFILENAME : string := "config.json".
Definition HASHFILENAME : string := "hash".

Record AppConfig : Type := {
  storage_pth : Path;
  password_salt : str;
  _password_hash : option bytes
}.

(** [AppConfig(storage_pth=..., password_salt=...)] with
    [model_post_init]: the hash file is read when it exists. *)
Definition AppConfig_init (w : World) (p : Path) (salt : str) : outcome AppConfig :=
  let hash_file_path := join p HASHFILENAME in
  if path_exists w hash_file_path then
    match files w !! hash_file_path with
    | Some content =>
      Ok {| storage_pth := p; password_salt := salt; _password_hash := Some content |}
    | None => Exit 1
    end
  else Ok {| storage_pth := p; password_salt := salt; _password_hash := None |}.

(** The [password_hash] property: a missing or empty hash ends the
    process. *)
Definition password_hash (c : AppConfig) : outcome bytes :=
  match _password_hash c with
  | Some (b :: h) => Ok (b :: h)
  | _ => Exit 1
  end.

Definition set_password_hash (pwd_hash : bytes) (c : AppConfig) : AppConfig :=
  {| storage_pth := storage_pth c; password_salt := password_salt c;
     _password_hash := Some pwd_hash |}.

(** [AppConfig.from_json(path)]: a failure to open or parse the file
    ends the process with status 1. The handler of ValidationError reads
    [error.type] of the first error, which is a dict, and so raises
    AttributeError before it reaches its [sys.exit(1)]. *)
Definition from_json (w : World) (path : Path) : outcome AppConfig :=
  match files w !! path with
  | None => Exit 1
  | Some content =>
    match json_load content with
    | Loaded p salt => AppConfig_init w p salt
    | Invalid => Raise AttributeError
    | NotLoaded => Exit 1
    end
  end.

(** [dump()]: the configuration record, then the raw hash. *)
Definition dump (c : AppConfig) (w : World) : outcome World :=
  let w1 := write_file (join (storage_pth c) CONFIGFILENAME)
              (model_dump_json (storage_pth c) (password_salt c)) w in
  match _password_hash c with
  | Some h => Ok (write_file (join (storage_pth c) HASHFILENAME) h w1)
  | None => Raise TypeError
  end.

End WithJson.
End Config.

(** ** src/NoteVault/main.py *)

Module Main.
Import Os Db Config Password.

Definition APPNAME : string := "NoteVault".

Inductive AppState : Set :=
| HARDRESET
| CONFIRMHARDRESET
| CONFIRMHARDRESETFAILED
| INVALIDNEWPASSWORD
| EMPTY
| LOGGEDOFF
| INVALIDPASSWORD
| LOGGEDON
| ADDRECORD
| FINDRECORD
| DELETERECORD
| RECORDFOUND
| RECORDNOTFOUND
| CHANGEPASSWORD
| CHANGEPASSWORDFAILED.

#[global] Instance AppState_eq_dec : EqDecision AppState.
Proof. solve_decision. Defined.

Definition value (s : AppState) : Z :=
  match s with
  | HARDRESET => -100
  | CONFIRMHARDRESET => -99
  | CONFIRMHARDRESETFAILED => -98
  | INVALIDNEWPASSWORD => -2
  | EMPTY => -1
  | LOGGEDOFF => 0
  | INVALIDPASSWORD => 1
  | LOGGEDON => 2
  | ADDRECORD => 3
  | FINDRECORD => 4
  | DELETERECORD => 5
  | RECORDFOUND => 6
  | RECORDNOTFOUND => 7
  | CHANGEPASSWORD => 100
  | CHANGEPASSWORDFAILED => 101
  end%Z.

(** [__lt__], and the comparisons [functools.total_ordering] derives from
    it: [a >= b] is [not a < b], [a <= b] is [a < b or a == b]. *)
Definition lt (a b : AppState) : bool := (value a <? value b)%Z.
Definition ge (a b : AppState) : bool := negb (lt a b).
Definition le (a b : AppState) : bool := lt a b || bool_decide (a = b).

(** The two places where [frame_commands] tests that the user is logged
    on: the guard of the "Reset.." menu and the guard of the main branch. *)
Definition reset_menu_allowed (s : AppState) : bool := ge s LOGGEDON.
Definition main_branch (s : AppState) : bool := ge s LOGGEDON && le s RECORDNOTFOUND.

Section WithLibraries.
Context {C : Crypto} {J : Json}.

Record App : Type := {
  encoder : option Encoder;
  user_input : str;
  user_input2 : str;
  config : AppConfig;
  state : AppState;
  db : Database
}.

Definition set_state (s : AppState) (a : App) : App :=
  {| encoder := encoder a; user_input := user_input a; user_input2 := user_input2 a;
     config := config a; state := s; db := db a |}.
Definition set_user_input (s : str) (a : App) : App :=
  {| encoder := encoder a; user_input := s; user_input2 := user_input2 a;
     config := config a; state := state a; db := db a |}.
Definition set_user_input2 (s : str) (a : App) : App :=
  {| encoder := encoder a; user_input := user_input a; user_input2 := s;
     config := config a; state := state a; db := db a |}.
Definition set_encoder (e : Encoder) (a : App) : App :=
  {| encoder := Some e; user_input := user_input a; user_input2 := user_input2 a;
     config := config a; state := state a; db := db a |}.
Definition set_config (c : AppConfig) (a : App) : App :=
  {| encoder := encoder a; user_input := user_input a; user_input2 := user_input2 a;
     config := c; state := state a; db := db a |}.

(** [App.__init__(custom_dir)]. [home] is [Path.home()] and [tok] the 16
    random octets [gen_salt()] draws when a new configuration is set up. *)
Definition App_init (w : World) (custom_dir : option Path) (home : Path) (tok : bytes)
  : outcome (App * World) :=
  '(storage_pth, w) ←
    match custom_dir with
    | Some d =>
      if negb (path_exists w d) || negb (is_dir w d) then Exit 1 else Ok (d, w)
    | None =>
      let p := join (join home ".config") APPNAME in
      if negb (path_exists w p) then Ok (p, mkdir p w) else Ok (p, w)
    end;
  let cfg_pth := join storage_pth CONFIGFILENAME in
  '(cfg, st) ←
    (if path_exists w cfg_pth then
       cfg ← from_json w cfg_pth; Ok (cfg, LOGGEDOFF)
     else
       salt ← gen_salt tok;
       cfg ← AppConfig_init w storage_pth salt;
       Ok (cfg, EMPTY));
  '(d, w) ← Database_init w storage_pth;
  Ok ({| encoder := None; user_input := []; user_input2 := [];
         config := cfg; state := st; db := d |}, w).

(** What the user does during one frame, and what the system hands to the
    calls made in it. A click is [true] only when its widget was shown. *)
Record Frame : Type := {
  key_ctrl_q : bool;          (* Ctrl+Q is down *)
  clicked_quit : bool;        (* File > Quit *)
  clicked_change_pwd : bool;  (* Reset.. > Change password *)
  clicked_reset : bool;       (* Reset.. > Delete all data *)
  typed : option str;         (* the first text field, when edited *)
  typed2 : option str;        (* the multi-line field, when edited *)
  confirm_clicked : bool;     (* the button of the dialog on screen *)
  add_btn : bool;             (* Options: Add note *)
  find_btn : bool;            (* Options: Find note *)
  draw1 : N * bytes;          (* clock and random octets of the first encode *)
  draw2 : N * bytes           (* and of the second *)
}.

(** [_, self.user_input = imgui.input_text("", self.user_input, ...)] *)
Definition input_text (edit : option str) (current : str) : str :=
  match edit with Some s => s | None => current end.

(** [draw_main_options_menu] *)
Definition draw_main_options_menu (fr : Frame) (a : App) : App :=
  let a := if add_btn fr then set_state ADDRECORD a else a in
  if find_btn fr then set_state FINDRECORD a else a.

(** One call of [frame_commands]. *)
Definition frame_commands (fr : Frame) (a : App) (w : World) : outcome (App * World) :=
  if key_ctrl_q fr then Exit 0
  else if clicked_quit fr then Exit 0
  else
    (* only allow reset actions when logged on *)
    let a :=
      if reset_menu_allowed (state a) then
        let a := if clicked_change_pwd fr then set_state CHANGEPASSWORD a else a in
        if clicked_reset fr then set_state CONFIRMHARDRESET a else a
      else a in
    if decide (state a = EMPTY) then
      let a := set_user_input (input_text (typed fr) (user_input a)) a in
      if confirm_clicked fr && negb (length (user_input a) =? 0)%nat then
        if password_meets_requirements (user_input a) then
          e ← Encoder_init (user_input a) (password_salt (config a));
          let a := set_encoder e a in
          let a := set_config (set_password_hash (Password.password_hash e) (config a)) a in
          w ← dump (config a) w;
          Ok (set_user_input [] (set_state LOGGEDOFF a), w)
        else Ok (set_user_input [] (set_state INVALIDNEWPASSWORD a), w)
      else Ok (a, w)
    else if decide (state a = INVALIDNEWPASSWORD) then
      if confirm_clicked fr then Ok (set_state EMPTY a, w) else Ok (a, w)
    else if decide (state a = LOGGEDOFF) then
      let a := set_user_input (input_text (typed fr) (user_input a)) a in
      if confirm_clicked fr && negb (length (user_input a) =? 0)%nat then
        h ← Config.password_hash (config a);
        ok ← verify_password (user_input a) (password_salt (config a)) h;
        if ok : bool then
          e ← Encoder_init (user_input a) (password_salt (config a));
          Ok (set_user_input [] (set_state LOGGEDON (set_encoder e a)), w)
        else Ok (set_user_input [] (set_state INVALIDPASSWORD a), w)
      else Ok (a, w)
    else if decide (state a = INVALIDPASSWORD) then
      if confirm_clicked fr then Ok (set_state LOGGEDOFF a, w) else Ok (a, w)
    else if main_branch (state a) then
      let a := draw_main_options_menu fr a in
      if decide (state a = ADDRECORD) then
        let a := set_user_input (input_text (typed fr) (user_input a)) a in
        let a := set_user_input2 (input_text (typed2 fr) (user_input2 a)) a in
        if confirm_clicked fr && negb (length (user_input a) =? 0)%nat
           && negb (length (user_input2 a) =? 0)%nat then
          (* the two debug messages encrypt the title and the body; the
             call of db.add_record is commented out in the source *)
          match encoder a with
          | None => Raise AttributeError
          | Some e =>
            encode e (fst (draw1 fr)) (snd (draw1 fr)) (user_input a);;
            encode e (fst (draw2 fr)) (snd (draw2 fr)) (user_input2 a);;
            Ok (set_state LOGGEDON (set_user_input2 [] (set_user_input [] a)), w)
          end
        else Ok (a, w)
      else Ok (a, w)
    else Ok (a, w).

(** [App.run]: one [render_frame], hence one [frame_commands], per frame
    until the window is closed; then the database is closed. *)
Fixpoint render_frames (frs : list Frame) (a : App) (w : World) : outcome (App * World) :=
  match frs with
  | [] => Ok (a, w)
  | fr :: rest => '(a, w) ← frame_commands fr a w; render_frames rest a w
  end.

Definition run (frs : list Frame) (a : App) (w : World) : outcome (App * World) :=
  '(a, w) ← render_frames frs a w;
  Ok ({| encoder := encoder a; user_input := user_input a; user_input2 := user_input2 a;
         config := config a; state := state a; db := Db.close (db a) |}, w).

(** The states a run of the application goes through: [App.__init__],
    then one [frame_commands] per frame. *)
Inductive reachable : App * World -> Prop :=
| reach_init w custom_dir home tok s :
    App_init w custom_dir home tok = Ok s -> reachable s
| reach_frame fr a w s :
    reachable (a, w) -> frame_commands fr a w = Ok s -> reachable s.

End WithLibraries.
End Main.

(** * Properties *)

(** Division and remainder by constants are handed to [lia] as their
    defining equations. *)
Ltac Zify.zify_post_hook ::= Z.to_euclidean_division_equations.

(** ** Octets *)

Lemma to_N_byte_of_N n : Byte.to_N (byte_of_N n) = n mod 256.
Proof.
  unfold byte_of_N. destruct (Byte.of_N (n mod 256)) eqn:E.
  - now apply Byte.to_of_N in E.
  - apply Byte.of_N_None_iff in E. lia.
Qed.

Lemma to_N_lt b : Byte.to_N b < 256.
Proof. pose proof (Byte.to_N_bounded b). lia. Qed.

Lemma byte_of_to_N b : byte_of_N (Byte.to_N b) = b.
Proof.
  unfold byte_of_N. rewrite N.mod_small by apply to_N_lt.
  now rewrite Byte.of_to_N.
Qed.

Lemma to_N_inj a b : Byte.to_N a = Byte.to_N b -> a = b.
Proof. intros H. rewrite <- (byte_of_to_N a), <- (byte_of_to_N b). now rewrite H. Qed.

(** ** UTF-8 *)

(** Decide the comparisons of a goal, dropping the impossible cases. *)
Ltac split_cmp :=
  repeat match goal with
  | |- context [N.eqb ?a ?b] => destruct (N.eqb_spec a b); try lia
  | |- context [N.ltb ?a ?b] => destruct (N.ltb_spec a b); try lia
  | |- context [N.leb ?a ?b] => destruct (N.leb_spec a b); try lia
  end.

Lemma digits64 c :
  exists a b d e,
    c = a * 262144 + b * 4096 + d * 64 + e /\ b < 64 /\ d < 64 /\ e < 64 /\
    c / 262144 = a /\ (c / 4096) mod 64 = b /\ c / 4096 = a * 64 + b /\
    (c / 64) mod 64 = d /\ c / 64 = a * 4096 + b * 64 + d /\ c mod 64 = e.
Proof.
  exists (c / 262144), ((c / 4096) mod 64), ((c / 64) mod 64), (c mod 64).
  repeat split; lia.
Qed.

Ltac utf8_digits c :=
  let a := fresh "a" in let b := fresh "b" in let d := fresh "d" in let e := fresh "e" in
  destruct (digits64 c) as (a & b & d & e & ? & ? & ? & ? & Ha & Hb & Hab & Hd & Habd & He);
  rewrite ?Ha, ?Hb, ?Hab, ?Hd, ?Habd, ?He; clear Ha Hb Hab Hd Habd He.

Lemma utf8_decode_encode_char c bs rest :
  utf8_encode_char c = Some bs ->
  utf8_decode (bs ++ rest) = cons c <$> utf8_decode rest.
Proof.
  unfold utf8_encode_char.
  destruct (N.ltb_spec c 0x80).
  { intros [= <-]. cbn [app utf8_decode]. rewrite to_N_byte_of_N.
    rewrite N.mod_small by lia. split_cmp. reflexivity. }
  destruct (N.ltb_spec c 0x800).
  { intros [= <-]. cbn [app utf8_decode]. unfold in_range, cont. rewrite !to_N_byte_of_N.
    utf8_digits c. rewrite !(N.mod_small _ 256) by lia.
    split_cmp. cbn [andb]. do 2 f_equal. lia. }
  destruct (N.ltb_spec c 0x10000).
  { destruct (N.leb_spec 0xD800 c), (N.leb_spec c 0xDFFF); cbn [andb]; try discriminate;
    intros [= <-]; cbn [app utf8_decode]; unfold in_range, cont; rewrite !to_N_byte_of_N;
    utf8_digits c; rewrite !(N.mod_small _ 256) by lia;
    split_cmp; cbn [andb]; do 2 f_equal; lia. }
  destruct (N.ltb_spec c 0x110000); [|discriminate].
  intros [= <-]. cbn [app utf8_decode]. unfold in_range, cont. rewrite !to_N_byte_of_N.
  utf8_digits c. rewrite !(N.mod_small _ 256) by lia.
  split_cmp; cbn [andb]; do 2 f_equal; lia.
Qed.

Lemma utf8_decode_encode s bs : utf8_encode s = Some bs -> utf8_decode bs = Some s.
Proof.
  revert bs. induction s as [|c s IH]; intros bs; cbn [utf8_encode].
  - now intros [= <-].
  - destruct (utf8_encode_char c) as [cs|] eqn:Ec; [|discriminate].
    destruct (utf8_encode s) as [r|]; [|discriminate].
    intros [= <-]. rewrite (utf8_decode_encode_char _ _ _ Ec), (IH r eq_refl). reflexivity.
Qed.

Lemma utf8_encode_char_scalar c : is_scalar c = true -> is_Some (utf8_encode_char c).
Proof.
  unfold is_scalar, utf8_encode_char. intros H.
  apply orb_true_iff in H as [H|H].
  - apply N.ltb_lt in H. split_cmp; cbn [andb]; eauto.
  - apply andb_true_iff in H as [H1 H2]. apply N.ltb_lt in H1, H2.
    split_cmp; cbn [andb]; eauto.
Qed.

Lemma utf8_encode_total s : unicode_text s -> is_Some (utf8_encode s).
Proof.
  induction 1 as [|c s Hc _ IH]; cbn [utf8_encode]; [eauto|].
  destruct (utf8_encode_char_scalar c Hc) as [cs ->]. destruct IH as [r ->]. eauto.
Qed.

(** ** Bounded enumeration *)

Lemma N_forall_lt (P : N -> bool) (n : nat) :
  forallb P (map N.of_nat (seq 0 n)) = true ->
  forall v, v < N.of_nat n -> P v = true.
Proof.
  intros H v Hv. rewrite forallb_forall in H. apply H.
  apply in_map_iff. exists (N.to_nat v). split; [lia|].
  apply in_seq. lia.
Qed.

Lemma N_forall2_lt (P : N -> N -> bool) (n m : nat) :
  forallb (fun a => forallb (P a) (map N.of_nat (seq 0 m))) (map N.of_nat (seq 0 n)) = true ->
  forall a b, a < N.of_nat n -> b < N.of_nat m -> P a b = true.
Proof.
  intros H a b Ha Hb.
  apply (N_forall_lt (P a) m); [|exact Hb].
  exact (N_forall_lt (fun a => forallb (P a) (map N.of_nat (seq 0 m))) n H a Ha).
Qed.

(** ** base64 *)

Import Base64.

(** The three assignments to [*bin_data] of [a2b_base64], in arithmetic. *)
Lemma a2b_quad1 l v : l < 64 -> v < 64 ->
  N.lor (N.shiftl l 2) (N.shiftr v 4) = l * 4 + v / 16 /\ N.land v 0x0f = v mod 16.
Proof.
  intros Hl Hv.
  pose proof (N_forall2_lt
    (fun l v => (N.lor (N.shiftl l 2) (N.shiftr v 4) =? l * 4 + v / 16)
                && (N.land v 0x0f =? v mod 16)) 64 64 eq_refl l v Hl Hv) as H.
  apply andb_true_iff in H as [H1 H2]. apply N.eqb_eq in H1, H2. now split.
Qed.

Lemma a2b_quad2 l v : l < 16 -> v < 64 ->
  N.lor (N.shiftl l 4) (N.shiftr v 2) = l * 16 + v / 4 /\ N.land v 0x03 = v mod 4.
Proof.
  intros Hl Hv.
  pose proof (N_forall2_lt
    (fun l v => (N.lor (N.shiftl l 4) (N.shiftr v 2) =? l * 16 + v / 4)
                && (N.land v 0x03 =? v mod 4)) 16 64 eq_refl l v Hl Hv) as H.
  apply andb_true_iff in H as [H1 H2]. apply N.eqb_eq in H1, H2. now split.
Qed.

Lemma a2b_quad3 l v : l < 4 -> v < 64 -> N.lor (N.shiftl l 6) v = l * 64 + v.
Proof.
  intros Hl Hv.
  pose proof (N_forall2_lt (fun l v => N.lor (N.shiftl l 6) v =? l * 64 + v)
                4 64 eq_refl l v Hl Hv) as H.
  now apply N.eqb_eq in H.
Qed.

(** An alphabet character is not the pad, is ASCII, survives the two
    url-safe translations and has its own index as value. *)
Lemma b2a_spec v : v < 64 ->
  b2a v <> PAD /\ urlsafe_encode_translation (b2a v) <> PAD /\
  Byte.to_N (urlsafe_encode_translation (b2a v)) < 128 /\
  urlsafe_decode_translation (urlsafe_encode_translation (b2a v)) = b2a v /\
  table_a2b_base64 (b2a v) = v.
Proof.
  intros Hv.
  pose proof (N_forall_lt
    (fun v => negb (bool_decide (b2a v = PAD))
              && negb (bool_decide (urlsafe_encode_translation (b2a v) = PAD))
              && (Byte.to_N (urlsafe_encode_translation (b2a v)) <? 128)
              && bool_decide (urlsafe_decode_translation (urlsafe_encode_translation (b2a v)) = b2a v)
              && (table_a2b_base64 (b2a v) =? v)) 64 eq_refl v Hv) as H.
  repeat (apply andb_true_iff in H as [H ?]).
  repeat match goal with
  | H : negb _ = true |- _ => apply negb_true_iff, bool_decide_eq_false in H
  | H : bool_decide _ = true |- _ => apply bool_decide_eq_true in H
  | H : N.ltb _ _ = true |- _ => apply N.ltb_lt in H
  | H : N.eqb _ _ = true |- _ => apply N.eqb_eq in H
  end.
  auto.
Qed.

Lemma list_ind3 {A} (P : list A -> Prop) :
  P [] -> (forall a, P [a]) -> (forall a b, P [a; b]) ->
  (forall a b c l, P l -> P (a :: b :: c :: l)) ->
  forall l, P l.
Proof.
  intros H0 H1 H2 H3.
  fix IH 1. intros [|a [|b [|c l]]];
    [apply H0 | apply H1 | apply H2 | apply H3, IH].
Qed.

(** One step of the loop on an alphabet character. *)
Lemma a2b_loop_data v rest q l p bin : v < 64 ->
  a2b_loop (b2a v :: rest) q l p bin =
    if q =? 0 then a2b_loop rest 1 v 0 bin
    else if q =? 1 then
      a2b_loop rest 2 (N.land v 0x0f) 0
        (bin ++ [byte_of_N (N.lor (N.shiftl l 2) (N.shiftr v 4))])
    else if q =? 2 then
      a2b_loop rest 3 (N.land v 0x03) 0
        (bin ++ [byte_of_N (N.lor (N.shiftl l 4) (N.shiftr v 2))])
    else a2b_loop rest 0 0 0 (bin ++ [byte_of_N (N.lor (N.shiftl l 6) v)]).
Proof.
  intros Hv. destruct (b2a_spec v Hv) as (Hpad & _ & _ & _ & Hval).
  cbn [a2b_loop]. destruct (decide (b2a v = PAD)) as [|_]; [contradiction|].
  rewrite Hval. destruct (N.leb_spec 64 v); [lia|]. reflexivity.
Qed.

Ltac sextet_bounds :=
  repeat match goal with
  | b : byte |- _ =>
    lazymatch goal with
    | _ : Byte.to_N b < 256 |- _ => fail
    | _ => pose proof (to_N_lt b)
    end
  end.

Lemma a2b_loop_pad rest q l p bin :
  a2b_loop (PAD :: rest) q l p bin =
    if 2 <=? q then
      if 4 <=? q + (p + 1) then Some bin else a2b_loop rest q l (p + 1) bin
    else a2b_loop rest q l p bin.
Proof.
  cbn [a2b_loop]. destruct (decide (PAD = PAD)); [reflexivity|contradiction].
Qed.

Ltac byte_eq := apply to_N_inj; rewrite to_N_byte_of_N; lia.

Lemma a2b_loop_b2a data : forall l p bin,
  a2b_loop (b2a_base64 data) 0 l p bin = Some (bin ++ data).
Proof.
  induction data as [|b0|b0 b1|b0 b1 b2 data IH] using list_ind3; intros l p bin.
  - cbn. now rewrite app_nil_r.
  - cbn [b2a_base64]. sextet_bounds.
    rewrite !a2b_loop_data, !a2b_loop_pad by lia. simpl (N.eqb _ _). simpl (N.leb _ _).
    cbv iota.
    destruct (a2b_quad1 (Byte.to_N b0 / 4) (Byte.to_N b0 mod 4 * 16)) as [-> _]; [lia..|].
    do 3 f_equal. byte_eq.
  - cbn [b2a_base64]. sextet_bounds.
    rewrite !a2b_loop_data, !a2b_loop_pad by lia. simpl (N.eqb _ _). simpl (N.leb _ _).
    cbv iota.
    destruct (a2b_quad1 (Byte.to_N b0 / 4) (Byte.to_N b0 mod 4 * 16 + Byte.to_N b1 / 16))
      as [-> ->]; [lia..|].
    destruct (a2b_quad2 ((Byte.to_N b0 mod 4 * 16 + Byte.to_N b1 / 16) mod 16)
                (Byte.to_N b1 mod 16 * 4)) as [-> _]; [lia..|].
    rewrite <- app_assoc. cbn [app]. do 3 f_equal; [byte_eq|f_equal; byte_eq].
  - cbn [b2a_base64 app]. sextet_bounds.
    rewrite !a2b_loop_data by lia. simpl (N.eqb _ _). cbv iota.
    destruct (a2b_quad1 (Byte.to_N b0 / 4) (Byte.to_N b0 mod 4 * 16 + Byte.to_N b1 / 16))
      as [-> ->]; [lia..|].
    destruct (a2b_quad2 ((Byte.to_N b0 mod 4 * 16 + Byte.to_N b1 / 16) mod 16)
                (Byte.to_N b1 mod 16 * 4 + Byte.to_N b2 / 64)) as [-> ->]; [lia..|].
    rewrite a2b_quad3 by lia.
    rewrite IH. rewrite <- !app_assoc. cbn [app].
    do 3 f_equal; [byte_eq|f_equal; [byte_eq|f_equal; byte_eq]].
Qed.

Lemma urlsafe_translations data :
  map urlsafe_decode_translation (urlsafe_b64encode data) = b2a_base64 data.
Proof.
  unfold urlsafe_b64encode. rewrite map_map.
  induction data as [|b0|b0 b1|b0 b1 b2 data IH] using list_ind3; cbn [b2a_base64 map app];
    sextet_bounds; rewrite ?IH;
    repeat match goal with
    | |- context [urlsafe_decode_translation (urlsafe_encode_translation (b2a ?v))] =>
      let H := fresh in
      assert (H : v < 64) by lia;
      destruct (b2a_spec v H) as (_ & _ & _ & -> & _); clear H
    end; reflexivity.
Qed.

(** [urlsafe_b64decode] inverts [urlsafe_b64encode]. *)
Lemma urlsafe_b64decode_encode data :
  urlsafe_b64decode (urlsafe_b64encode data) = Some data.
Proof.
  unfold urlsafe_b64decode, a2b_base64.
  now rewrite urlsafe_translations, a2b_loop_b2a.
Qed.

(** The encoding is made of ASCII characters. *)
Lemma urlsafe_b64encode_ascii data :
  Forall (fun b => Byte.to_N b < 128) (urlsafe_b64encode data).
Proof.
  unfold urlsafe_b64encode.
  induction data as [|b0|b0 b1|b0 b1 b2 data IH] using list_ind3; cbn [b2a_base64 map app];
    sextet_bounds;
    repeat match goal with
    | |- Forall _ [] => constructor
    | |- Forall _ (map _ (b2a_base64 _)) => exact IH
    | |- Forall _ (_ :: _) => constructor
    | |- Byte.to_N (urlsafe_encode_translation (b2a ?v)) < 128 =>
      refine (proj1 (proj2 (proj2 (b2a_spec v _)))); lia
    | |- Byte.to_N (urlsafe_encode_translation PAD) < 128 => reflexivity
    end.
Qed.

(** ** ASCII text *)

Lemma utf8_decode_ascii bs :
  Forall (fun b => Byte.to_N b < 128) bs -> utf8_decode bs = Some (map Byte.to_N bs).
Proof.
  induction 1 as [|b bs Hb _ IH]; [reflexivity|].
  cbn [utf8_decode map]. destruct (N.ltb_spec (Byte.to_N b) 0x80); [|lia].
  now rewrite IH.
Qed.

Lemma utf8_encode_ascii bs :
  Forall (fun b => Byte.to_N b < 128) bs -> utf8_encode (map Byte.to_N bs) = Some bs.
Proof.
  induction 1 as [|b bs Hb _ IH]; [reflexivity|].
  cbn [utf8_encode map]. unfold utf8_encode_char.
  destruct (N.ltb_spec (Byte.to_N b) 0x80); [|lia].
  now rewrite IH, byte_of_to_N.
Qed.

(** ** Fernet *)

Section FernetFacts.
Context {C : Crypto}.
Import Fernet.

Lemma lxor_byte a b : a < 256 -> b < 256 -> N.lxor a b < 256.
Proof.
  intros Ha Hb.
  pose proof (N_forall2_lt (fun a b => N.lxor a b <? 256) 256 256 eq_refl a b Ha Hb) as H.
  now apply N.ltb_lt in H.
Qed.

Lemma xor_byte_involutive a b : xor_byte (xor_byte a b) b = a.
Proof.
  unfold xor_byte. apply to_N_inj. rewrite !to_N_byte_of_N.
  pose proof (to_N_lt a). pose proof (to_N_lt b).
  rewrite (N.mod_small (N.lxor (Byte.to_N a) (Byte.to_N b))) by now apply lxor_byte.
  rewrite N.lxor_assoc, N.lxor_nilpotent, N.lxor_0_r.
  now apply N.mod_small.
Qed.

Lemma xor_bytes_length a b : length a = length b -> length (xor_bytes a b) = length a.
Proof. intros H. unfold xor_bytes. rewrite length_zip_with. lia. Qed.

Lemma xor_bytes_involutive a b :
  length a = length b -> xor_bytes (xor_bytes a b) b = a.
Proof.
  unfold xor_bytes. revert b. induction a as [|x a IH]; intros [|y b]; cbn; try easy.
  intros [= H]. now rewrite xor_byte_involutive, IH.
Qed.

(** PKCS7 *)

Lemma pkcs7_pad_length data :
  (length (pkcs7_pad data) mod 16 = 0 /\ length data < length (pkcs7_pad data))%nat.
Proof.
  unfold pkcs7_pad. rewrite length_app, repeat_length.
  pose proof (Nat.mod_upper_bound (length data) 16).
  pose proof (Nat.div_mod_eq (length data) 16).
  split; [|lia].
  replace (length data + (16 - length data mod 16))%nat
    with ((length data / 16 + 1) * 16)%nat by lia.
  apply Nat.Div0.mod_mul.
Qed.

Lemma pkcs7_unpad_pad data : pkcs7_unpad (pkcs7_pad data) = Some data.
Proof.
  destruct (pkcs7_pad_length data) as [Hmod Hlen].
  unfold pkcs7_unpad.
  destruct (decide _) as [[H|H]|_]; [lia|contradiction|].
  unfold pkcs7_pad in *.
  pose proof (Nat.mod_upper_bound (length data) 16 ltac:(lia)) as Hb.
  set (p := (16 - length data mod 16)%nat) in *.
  assert (Hp : (1 <= p <= 16)%nat) by (unfold p; lia).
  assert (Hlast : List.last (data ++ repeat (byte_of_N (N.of_nat p)) p) x00
                  = byte_of_N (N.of_nat p)).
  { destruct p as [|k]; [lia|]. cbn [repeat]. rewrite repeat_cons, app_assoc.
    apply last_last. }
  rewrite Hlast, to_N_byte_of_N, N.mod_small by lia. rewrite Nat2N.id.
  destruct (decide _) as [[H|H]|_]; [lia..|].
  unfold take_last, drop_last. rewrite length_app, repeat_length.
  replace (length data + p - p)%nat with (length data) by lia.
  rewrite drop_app_length, take_app_length.
  rewrite (proj2 (forallb_forall _ _)); [reflexivity|].
  intros x Hx. apply repeat_spec in Hx. now apply bool_decide_eq_true.
Qed.

(** CBC *)

Lemma cbc_encrypt_blocks_length n : forall key iv data,
  length key = 16%nat -> length iv = 16%nat -> length data = (16 * n)%nat ->
  length (cbc_encrypt_blocks n key iv data) = (16 * n)%nat.
Proof.
  induction n as [|n IH]; intros key iv data Hk Hiv Hd; [reflexivity|].
  cbn [cbc_encrypt_blocks]. rewrite length_app, IH.
  - rewrite aes_encrypt_length; [lia|exact Hk|].
    rewrite xor_bytes_length; rewrite length_take; lia.
  - exact Hk.
  - apply aes_encrypt_length; [exact Hk|].
    rewrite xor_bytes_length; rewrite length_take; lia.
  - rewrite length_drop. lia.
Qed.

Lemma cbc_decrypt_encrypt_blocks n : forall key iv data,
  length key = 16%nat -> length iv = 16%nat -> length data = (16 * n)%nat ->
  cbc_decrypt_blocks n key iv (cbc_encrypt_blocks n key iv data) = data.
Proof.
  induction n as [|n IH]; intros key iv data Hk Hiv Hd.
  - destruct data; [reflexivity|discriminate].
  - cbn [cbc_encrypt_blocks cbc_decrypt_blocks].
    assert (Hx : length (xor_bytes (take 16 data) iv) = 16%nat)
      by (rewrite xor_bytes_length; rewrite length_take; lia).
    pose proof (aes_encrypt_length key _ Hk Hx) as Hc.
    rewrite take_app_length' by (symmetry; exact Hc).
    rewrite drop_app_length' by (symmetry; exact Hc).
    rewrite aes_decrypt_encrypt by assumption.
    rewrite xor_bytes_involutive by (rewrite length_take; lia).
    rewrite IH; [apply take_drop|exact Hk|exact Hc|rewrite length_drop; lia].
Qed.

Lemma cbc_decrypt_encrypt key iv data :
  length key = 16%nat -> length iv = 16%nat -> (length data mod 16 = 0)%nat ->
  cbc_decrypt key iv (cbc_encrypt key iv data) = Some data /\
  length (cbc_encrypt key iv data) = length data.
Proof.
  intros Hk Hiv Hd. unfold cbc_decrypt, cbc_encrypt.
  assert (Hlen : length data = (16 * (length data / 16))%nat).
  { pose proof (Nat.div_mod_eq (length data) 16). lia. }
  pose proof (cbc_encrypt_blocks_length _ key iv data Hk Hiv Hlen) as Hc.
  rewrite Hc, <- Hlen. destruct (decide _) as [_|H]; [|contradiction].
  now rewrite cbc_decrypt_encrypt_blocks.
Qed.

(** Tokens *)

Lemma be_bytes_length len n : length (be_bytes len n) = len.
Proof.
  revert n. induction len as [|len IH]; intros n; [reflexivity|].
  cbn [be_bytes]. rewrite length_app, IH. cbn. lia.
Qed.

Lemma init_key k : length k = 32%nat ->
  init (Base64.urlsafe_b64encode k)
  = Ok {| _signing_key := take 16 k; _encryption_key := drop 16 k |}.
Proof.
  intros Hk. unfold init. rewrite urlsafe_b64decode_encode.
  destruct (decide _) as [_|H]; [reflexivity|contradiction].
Qed.

(** A key made by [init] from 32 octets. *)
Definition well_keyed (f : Fernet.t) : Prop :=
  length (_signing_key f) = 16%nat /\ length (_encryption_key f) = 16%nat.

(** The octets a token carries: version, timestamp, IV, ciphertext, tag. *)
Definition token_data (f : Fernet.t) (data : bytes) (now : N) (iv : bytes) : bytes :=
  let basic_parts :=
    [x80] ++ be_bytes 8 now ++ iv ++ cbc_encrypt (_encryption_key f) iv (pkcs7_pad data) in
  basic_parts ++ hmac_sha256 (_signing_key f) basic_parts.

Lemma encrypt_from_parts_ok f data now iv :
  length iv = 16%nat -> now < 2 ^ 64 ->
  encrypt_from_parts f data now iv
  = Ok (Base64.urlsafe_b64encode (token_data f data now iv)).
Proof.
  intros Hiv Hnow. unfold encrypt_from_parts, cbc_mode, int_to_bytes.
  destruct (decide (length iv = 16%nat)) as [_|H]; [|contradiction].
  change (256 ^ N.of_nat 8) with (2 ^ 64).
  destruct (N.ltb_spec now (2 ^ 64)); [reflexivity|lia].
Qed.

Lemma token_slices (v : byte) (ts iv ct tag : bytes) :
  length ts = 8%nat -> length iv = 16%nat ->
  take 16 (drop 9 (([v] ++ ts ++ iv ++ ct) ++ tag)) = iv /\
  take (length ct) (drop 25 (([v] ++ ts ++ iv ++ ct) ++ tag)) = ct.
Proof.
  intros Hts Hiv. cbn [app skipn]. rewrite <- !app_assoc. split.
  - rewrite drop_app_length' by (symmetry; exact Hts).
    now rewrite take_app_length' by (symmetry; exact Hiv).
  - rewrite (app_assoc ts iv).
    rewrite drop_app_length' by (rewrite length_app; lia).
    apply take_app_length.
Qed.

Lemma decrypt_data_token f data now iv :
  well_keyed f -> length iv = 16%nat ->
  decrypt_data f (token_data f data now iv) = Ok data.
Proof.
  intros [Hs He] Hiv. unfold decrypt_data, verify_signature, token_data.
  destruct (pkcs7_pad_length data) as [Hmod _].
  destruct (cbc_decrypt_encrypt _ iv (pkcs7_pad data) He Hiv Hmod) as [Hdec Hclen].
  set (ct := cbc_encrypt (_encryption_key f) iv (pkcs7_pad data)) in *.
  set (bp := [x80] ++ be_bytes 8 now ++ iv ++ ct).
  set (tag := hmac_sha256 (_signing_key f) bp).
  assert (Htag : length tag = 32%nat) by apply hmac_sha256_length.
  assert (Hbp : length bp = (25 + length ct)%nat).
  { unfold bp. rewrite !length_app, be_bytes_length, Hiv. cbn. lia. }
  unfold drop_last, take_last. rewrite length_app, Htag.
  replace (length bp + 32 - 32)%nat with (length bp) by lia.
  rewrite take_app_length, drop_app_length. fold tag.
  destruct (decide (tag = tag)) as [_|H]; [|contradiction]. cbn [mbind outcome_bind bind].
  replace (length bp - 25)%nat with (length ct) by lia.
  destruct (token_slices x80 (be_bytes 8 now) iv ct tag (be_bytes_length _ _) Hiv)
    as [Hiv' Hct].
  fold bp in Hiv', Hct.
  rewrite Hiv', Hct. unfold cbc_mode.
  destruct (decide (length iv = 16%nat)) as [_|H]; [|contradiction].
  cbn [mbind outcome_bind bind]. rewrite Hdec, pkcs7_unpad_pad. reflexivity.
Qed.

Lemma token_data_head f data now iv :
  exists tl, token_data f data now iv = x80 :: tl /\ (8 <= length tl)%nat.
Proof.
  exists ((be_bytes 8 now ++ iv ++ cbc_encrypt (_encryption_key f) iv (pkcs7_pad data))
          ++ hmac_sha256 (_signing_key f)
               ([x80] ++ be_bytes 8 now ++ iv
                ++ cbc_encrypt (_encryption_key f) iv (pkcs7_pad data))).
  split; [reflexivity|].
  rewrite !length_app, be_bytes_length. lia.
Qed.

Lemma decrypt_token f data now iv :
  well_keyed f -> length iv = 16%nat ->
  decrypt f (Base64.urlsafe_b64encode (token_data f data now iv)) = Ok data.
Proof.
  intros Hf Hiv. unfold decrypt, get_unverified_token_data.
  rewrite urlsafe_b64decode_encode.
  pose proof (decrypt_data_token f data now iv Hf Hiv) as Hd.
  destruct (token_data_head f data now iv) as (tl & Heq & Htl).
  rewrite Heq in Hd |- *.
  destruct (decide (x80 <> x80)) as [H'|_]; [contradiction|].
  destruct (decide _) as [Hshort|_]; [cbn [length] in Hshort; lia|].
  exact Hd.
Qed.

Lemma encrypt_from_parts_clock f data now iv token :
  encrypt_from_parts f data now iv = Ok token -> now < 2 ^ 64.
Proof.
  unfold encrypt_from_parts, cbc_mode, int_to_bytes.
  destruct (decide (length iv = 16%nat)); [|discriminate]. cbn [mbind outcome_bind bind].
  destruct (N.ltb_spec now (256 ^ N.of_nat 8)) as [H|H]; [intros _; exact H|discriminate].
Qed.

Lemma decrypt_encrypt f data now iv token :
  well_keyed f -> length iv = 16%nat ->
  encrypt_from_parts f data now iv = Ok token ->
  decrypt f token = Ok data.
Proof.
  intros Hf Hiv Henc.
  pose proof (encrypt_from_parts_clock _ _ _ _ _ Henc) as Hnow.
  rewrite encrypt_from_parts_ok in Henc by assumption.
  injection Henc as <-. now apply decrypt_token.
Qed.
End FernetFacts.

(** ** password.py *)

Section PasswordFacts.
Context {C : Crypto}.
Import Password.

Lemma str_encode_text s : unicode_text s -> exists bs, str_encode s = Ok bs.
Proof.
  intros H. unfold str_encode. destruct (utf8_encode_total s H) as [bs ->]. eauto.
Qed.

Lemma bytes_decode_encode s bs : str_encode s = Ok bs -> bytes_decode bs = Ok s.
Proof.
  unfold str_encode, bytes_decode. destruct (utf8_encode s) as [bs'|] eqn:E; [|discriminate].
  intros [= <-]. now rewrite (utf8_decode_encode _ _ E).
Qed.

(** [derive_key] is the KDF on the encoded password and salt. *)
Lemma derive_key_encoded password salt pb sb :
  str_encode password = Ok pb -> str_encode salt = Ok sb ->
  derive_key password salt = Ok (scrypt pb sb (2 ^ 14) 8 1 32).
Proof. intros Hp Hs. unfold derive_key. now rewrite Hs, Hp. Qed.

(** [verify_password] compares the KDF output with the expected key. *)
Lemma verify_password_encoded password salt pb sb key :
  str_encode password = Ok pb -> str_encode salt = Ok sb ->
  verify_password password salt key
  = Ok (bool_decide (scrypt pb sb (2 ^ 14) 8 1 32 = key)).
Proof.
  intros Hp Hs. unfold verify_password, Scrypt_verify. rewrite Hs, Hp.
  cbn [mbind outcome_bind bind].
  destruct (decide _) as [H|H].
  - now rewrite bool_decide_eq_true_2.
  - now rewrite bool_decide_eq_false_2.
Qed.

(** [verify_password] returns only when the password and the salt encode. *)
Lemma verify_password_returns password salt key b :
  verify_password password salt key = Ok b ->
  exists pb sb, str_encode password = Ok pb /\ str_encode salt = Ok sb.
Proof.
  unfold verify_password, str_encode. intros H.
  destruct (utf8_encode salt) as [sb|]; [|discriminate H].
  destruct (utf8_encode password) as [pb|]; [|discriminate H].
  now exists pb, sb.
Qed.

Lemma Encoder_init_encoded password salt pb sb :
  str_encode password = Ok pb -> str_encode salt = Ok sb ->
  exists e, Encoder_init password salt = Ok e /\
    well_keyed (_encoder e) /\
    password_hash e = scrypt pb sb (2 ^ 14) 8 1 32.
Proof.
  intros Hp Hs. unfold Encoder_init.
  rewrite (derive_key_encoded _ _ _ _ Hp Hs). cbn [mbind outcome_bind bind].
  set (k := scrypt pb sb (2 ^ 14) 8 1 32).
  assert (Hk : length k = 32%nat) by apply scrypt_length.
  rewrite (init_key k Hk). cbn [mbind outcome_bind bind].
  eexists. split; [reflexivity|]. split; [|reflexivity].
  split; cbn [_encoder Fernet._signing_key Fernet._encryption_key].
  - rewrite length_take. lia.
  - rewrite length_drop. lia.
Qed.

Lemma Encoder_init_well_keyed password salt e :
  Encoder_init password salt = Ok e -> well_keyed (_encoder e).
Proof.
  intros H. unfold Encoder_init, derive_key in H.
  destruct (str_encode salt) as [sb| |] eqn:Hs; try discriminate.
  destruct (str_encode password) as [pb| |] eqn:Hp; try discriminate.
  destruct (Encoder_init_encoded _ _ _ _ Hp Hs) as (e' & He' & Hk & _).
  unfold Encoder_init in He'. rewrite (derive_key_encoded _ _ _ _ Hp Hs) in He'.
  cbn [mbind outcome_bind bind] in H, He'. rewrite H in He'. now injection He' as <-.
Qed.

(** What [encode] returns: the token's octets read as ASCII text. *)
Lemma encode_token e now iv data db :
  str_encode data = Ok db -> length iv = 16%nat -> now < 2 ^ 64 ->
  encode e now iv data
  = Ok (map Byte.to_N (Base64.urlsafe_b64encode (token_data (_encoder e) db now iv))).
Proof.
  intros Hd Hiv Hnow. unfold encode. rewrite Hd. cbn [mbind outcome_bind bind].
  rewrite encrypt_from_parts_ok by assumption. cbn [mbind outcome_bind bind].
  unfold bytes_decode. now rewrite utf8_decode_ascii by apply urlsafe_b64encode_ascii.
Qed.

Lemma str_encode_ascii bs :
  Forall (fun b => Byte.to_N b < 128) bs -> str_encode (map Byte.to_N bs) = Ok bs.
Proof. intros H. unfold str_encode. now rewrite utf8_encode_ascii. Qed.

Lemma decode_encoded e token tb :
  str_encode token = Ok tb ->
  decode e token = Fernet.decrypt (_encoder e) tb ≫= bytes_decode.
Proof. intros H. unfold decode. now rewrite H. Qed.

Lemma decode_encode e now iv data :
  well_keyed (_encoder e) -> length iv = 16%nat -> now < 2 ^ 64 ->
  unicode_text data ->
  exists token, encode e now iv data = Ok token /\ decode e token = Ok data.
Proof.
  intros Hk Hiv Hnow Hd. destruct (str_encode_text data Hd) as [db Hdb].
  exists (map Byte.to_N
            (Base64.urlsafe_b64encode (token_data (_encoder e) db now iv))).
  split; [apply (encode_token e now iv data db Hdb Hiv Hnow)|].
  rewrite (decode_encoded e _ _ (str_encode_ascii _ (urlsafe_b64encode_ascii _))).
  rewrite (decrypt_token _ db now iv Hk Hiv).
  exact (bytes_decode_encode _ _ Hdb).
Qed.

End PasswordFacts.

(** ** Counting keys and passwords *)

(** All octets, all octet strings of a length, all words over two letters. *)
Definition all_bytes : list byte := map byte_of_N (map N.of_nat (seq 0 256)).

Fixpoint octet_strings (n : nat) : list bytes :=
  match n with
  | O => [[]]
  | S k => flat_map (fun b => map (cons b) (octet_strings k)) all_bytes
  end.

Fixpoint words (n : nat) : list (list bool) :=
  match n with
  | O => [[]]
  | S k => map (cons true) (words k) ++ map (cons false) (words k)
  end.

Lemma all_bytes_complete b : In b all_bytes.
Proof.
  unfold all_bytes. rewrite <- (byte_of_to_N b). apply in_map.
  pose proof (to_N_lt b).
  apply in_map_iff. exists (N.to_nat (Byte.to_N b)). split; [lia|].
  apply in_seq. lia.
Qed.

Lemma all_bytes_length : length all_bytes = 256%nat.
Proof. unfold all_bytes. now rewrite !length_map, length_seq. Qed.

Lemma octet_strings_length n : length (octet_strings n) = (256 ^ n)%nat.
Proof.
  induction n as [|n IH]; [reflexivity|].
  cbn [octet_strings].
  rewrite (flat_map_constant_length (c := (256 ^ n)%nat)).
  - rewrite all_bytes_length. now rewrite Nat.pow_succ_r'.
  - intros b _. now rewrite length_map.
Qed.

Lemma octet_strings_complete (l : bytes) : In l (octet_strings (length l)).
Proof.
  induction l as [|b l IH]; [now left|].
  cbn [length octet_strings]. apply in_flat_map.
  exists b. split; [apply all_bytes_complete|]. now apply in_map.
Qed.

Lemma words_length n : length (words n) = (2 ^ n)%nat.
Proof.
  induction n as [|n IH]; [reflexivity|].
  cbn [words]. rewrite length_app, !length_map, IH, Nat.pow_succ_r'. lia.
Qed.

Lemma words_size n w : w ∈ words n -> length w = n.
Proof.
  revert w. induction n as [|n IH]; intros w; cbn [words].
  - now intros ->%list_elem_of_singleton.
  - rewrite elem_of_app, !list_elem_of_fmap.
    intros [(w' & -> & Hw)|(w' & -> & Hw)]; cbn [length]; f_equal; auto.
Qed.

Lemma words_NoDup n : NoDup (words n).
Proof.
  induction n as [|n IH]; cbn [words].
  - apply NoDup_singleton.
  - apply NoDup_app. repeat split.
    + apply NoDup_fmap_2; [apply _|exact IH].
    + intros w (w1 & -> & _)%list_elem_of_fmap (w2 & [=] & _)%list_elem_of_fmap.
    + apply NoDup_fmap_2; [apply _|exact IH].
Qed.

(** More words of length [m] than octet strings of length [n]. *)
Lemma more_words n m : (8 * n < m)%nat -> (256 ^ n < 2 ^ m)%nat.
Proof.
  intros H. change 256%nat with (2 ^ 8)%nat.
  rewrite <- Nat.pow_mul_r. apply Nat.pow_lt_mono_r; lia.
Qed.

(** The pigeonhole principle for a function from words to fixed-length
    octet strings: it cannot be injective on words long enough. *)
Lemma no_injection (f : list bool -> bytes) (n m : nat) :
  (forall w, length (f w) = n) -> (8 * n < m)%nat ->
  ~ (forall w1 w2, length w1 = m -> length w2 = m -> f w1 = f w2 -> w1 = w2).
Proof.
  intros Hlen Hnm Hinj.
  assert (Hnd : NoDup (f <$> words m)).
  { apply NoDup_fmap_2_strong; [|apply words_NoDup].
    intros w1 w2 H1 H2. apply Hinj; now apply words_size. }
  assert (Hincl : incl (f <$> words m) (octet_strings n)).
  { intros k (w & <- & _)%in_map_iff. rewrite <- (Hlen w). apply octet_strings_complete. }
  pose proof (NoDup_incl_length (proj1 (NoDup_ListNoDup _) Hnd) Hincl) as Hle.
  rewrite length_fmap, words_length, octet_strings_length in Hle.
  pose proof (more_words n m Hnm). lia.
Qed.

(** ** A reference implementation of the primitives

    The interface [Crypto] is inhabited: the instance below has the
    contract's lengths and an invertible block function. It stands in for
    scrypt, AES and HMAC where a statement is evaluated on concrete
    input; nothing is claimed about its strength. *)

Definition ref_scrypt (km salt : bytes) (n r p : N) (len : nat) : bytes :=
  take len (km ++ salt ++ repeat x00 len).
Definition ref_block (key block : bytes) : bytes := Fernet.xor_bytes block key.
Definition ref_mac (key msg : bytes) : bytes :=
  be_bytes 32
    (fold_left (fun acc b => (acc * 257 + Byte.to_N b + 1) mod 256 ^ 32) (key ++ msg) 0).

Lemma ref_scrypt_length km salt n r p len : length (ref_scrypt km salt n r p len) = len.
Proof.
  unfold ref_scrypt. rewrite length_take, !length_app, repeat_length. lia.
Qed.

Lemma ref_block_length key block :
  length key = 16%nat -> length block = 16%nat -> length (ref_block key block) = 16%nat.
Proof. intros Hk Hb. unfold ref_block. rewrite xor_bytes_length; congruence. Qed.

Lemma ref_block_inverse key block :
  length key = 16%nat -> length block = 16%nat ->
  ref_block key (ref_block key block) = block.
Proof. intros Hk Hb. unfold ref_block. apply xor_bytes_involutive. congruence. Qed.

Definition ref_crypto : Crypto := {|
  scrypt := ref_scrypt;
  scrypt_length := ref_scrypt_length;
  aes_encrypt_block := ref_block;
  aes_decrypt_block := ref_block;
  aes_encrypt_length := ref_block_length;
  aes_decrypt_encrypt := ref_block_inverse;
  hmac_sha256 := ref_mac;
  hmac_sha256_length := fun key msg => be_bytes_length 32 _
|}.

(** ** The credential and cipher claims *)

Section CredentialClaims.
Context {C : Crypto}.
Import Password.

(** C1. For every text plaintext [x] and every session key (the
    [Encoder] built from any password and salt), [Encoder.encode]
    returns a token and [Encoder.decode] of that token returns [x]
    unchanged, whatever the clock reading and the random IV drawn by the
    encryption. Decoding takes no clock, so this holds for the lifetime
    of the key. *)
Theorem encoder_round_trip (password salt x : str) (now : N) (iv : bytes) :
  unicode_text password -> unicode_text salt -> unicode_text x ->
  now < 2 ^ 64 -> length iv = 16%nat ->
  exists e token,
    Encoder_init password salt = Ok e /\
    encode e now iv x = Ok token /\
    decode e token = Ok x.
Proof.
  intros Hp Hs Hx Hnow Hiv.
  destruct (str_encode_text _ Hp) as [pb Hpb].
  destruct (str_encode_text _ Hs) as [sb Hsb].
  destruct (Encoder_init_encoded _ _ _ _ Hpb Hsb) as (e & He & Hk & _).
  destruct (decode_encode e now iv x Hk Hiv Hnow Hx) as (token & Henc & Hdec).
  now exists e, token.
Qed.

(** C2 (as amended). For every password and salt,
    [verify_password(p, s, derive_key(p, s))] returns true, and for every
    expected key [verify_password] returns, without raising, whether that
    key equals [derive_key(p, s)]: it returns false exactly on a
    mismatch. For a second password [p2] it therefore returns false
    exactly when [derive_key(p2, s)] differs from [derive_key(p, s)]. *)
Theorem verify_password_spec (password salt : str) :
  unicode_text password -> unicode_text salt ->
  exists key,
    derive_key password salt = Ok key /\
    verify_password password salt key = Ok true /\
    (forall k, verify_password password salt k = Ok (bool_decide (key = k))) /\
    (forall p2 k2, derive_key p2 salt = Ok k2 ->
       (verify_password password salt k2 = Ok false <-> k2 <> key)).
Proof.
  intros Hp Hs.
  destruct (str_encode_text _ Hp) as [pb Hpb].
  destruct (str_encode_text _ Hs) as [sb Hsb].
  exists (scrypt pb sb (2 ^ 14) 8 1 32).
  assert (Hv : forall k, verify_password password salt k
                         = Ok (bool_decide (scrypt pb sb (2 ^ 14) 8 1 32 = k)))
    by (intros k; apply (verify_password_encoded _ _ _ _ _ Hpb Hsb)).
  split; [apply (derive_key_encoded _ _ _ _ Hpb Hsb)|].
  split; [rewrite Hv; now rewrite bool_decide_eq_true_2|].
  split; [exact Hv|].
  intros p2 k2 _. rewrite Hv. split.
  - intros [= H]. apply bool_decide_eq_false in H. congruence.
  - intros H. rewrite bool_decide_eq_false_2; congruence.
Qed.

End CredentialClaims.

Definition ascii_word (w : list bool) : str :=
  map (fun b : bool => if b then 97 else 98) w.
Definition ascii_word_bytes (w : list bool) : bytes :=
  map (fun b : bool => if b then x61 else x62) w.

Lemma ascii_word_text w : unicode_text (ascii_word w).
Proof. induction w as [|[] w IH]; constructor; auto. Qed.

Lemma ascii_word_encode w : str_encode (ascii_word w) = Ok (ascii_word_bytes w).
Proof.
  unfold str_encode.
  induction w as [|b w IH]; [reflexivity|].
  cbn [ascii_word ascii_word_bytes map utf8_encode].
  fold (ascii_word w). fold (ascii_word_bytes w).
  destruct (utf8_encode (ascii_word w)) as [r|]; [|discriminate].
  injection IH as ->. now destruct b.
Qed.

Lemma ascii_word_inj w1 w2 : ascii_word w1 = ascii_word w2 -> w1 = w2.
Proof.
  revert w2. induction w1 as [|a w1 IH]; intros [|b w2]; cbn; try easy.
  intros [= Hab H]. f_equal; [now destruct a, b|auto].
Qed.

(** C2, the claim as stated: no key derivation with a 32-octet output
    makes [verify_password(p, s, derive_key(p2, s))] false for every pair
    of distinct passwords. There are more passwords than keys, so two
    passwords share a key, and [verify_password] accepts either for the
    other. *)
Lemma distinct_passwords_not_always_rejected :
  ~ exists C : Crypto,
      forall p p2 s : str,
        unicode_text p -> unicode_text p2 -> unicode_text s -> p <> p2 ->
        exists k2, Password.derive_key p2 s = Ok k2 /\
                   Password.verify_password p s k2 = Ok false.
Proof.
  intros [C H].
  apply (no_injection (fun w => scrypt (ascii_word_bytes w) [] (2 ^ 14) 8 1 32) 32 257).
  - intros w. apply scrypt_length.
  - lia.
  - intros w1 w2 _ _ Heq.
    destruct (decide (w1 = w2)) as [|Hne]; [assumption|exfalso].
    destruct (H (ascii_word w1) (ascii_word w2) [] (ascii_word_text _) (ascii_word_text _)
                (List.Forall_nil _)) as (k2 & Hk2 & Hv).
    { intros E. now apply Hne, ascii_word_inj. }
    rewrite (derive_key_encoded _ [] _ [] (ascii_word_encode w2) eq_refl) in Hk2.
    injection Hk2 as <-.
    rewrite (verify_password_encoded _ [] _ [] _ (ascii_word_encode w1) eq_refl) in Hv.
    rewrite bool_decide_eq_true_2 in Hv by exact Heq. discriminate.
Qed.

(** ** Tampered tokens *)

Section TamperFacts.
Context {C : Crypto}.
Import Password.

(** ['/'] and ['_'] name the same sextet for [urlsafe_b64decode]. *)
Lemma urlsafe_b64decode_slash pre post :
  Base64.urlsafe_b64decode (pre ++ x2f :: post)
  = Base64.urlsafe_b64decode (pre ++ x5f :: post).
Proof. unfold Base64.urlsafe_b64decode. now rewrite !map_app. Qed.

Lemma decrypt_same_decoding f tb1 tb2 :
  Base64.urlsafe_b64decode tb1 = Base64.urlsafe_b64decode tb2 ->
  Fernet.decrypt f tb1 = Fernet.decrypt f tb2.
Proof.
  intros H. unfold Fernet.decrypt, Fernet.get_unverified_token_data. now rewrite H.
Qed.

Lemma decrypt_slash f pre post :
  Fernet.decrypt f (pre ++ x2f :: post) = Fernet.decrypt f (pre ++ x5f :: post).
Proof. apply decrypt_same_decoding, urlsafe_b64decode_slash. Qed.

Lemma b2a_base64_group b0 b1 b2 rest :
  Base64.b2a_base64 (b0 :: b1 :: b2 :: rest)
  = [Base64.b2a (Byte.to_N b0 / 4);
     Base64.b2a ((Byte.to_N b0 mod 4) * 16 + Byte.to_N b1 / 16);
     Base64.b2a ((Byte.to_N b1 mod 16) * 4 + Byte.to_N b2 / 64);
     Base64.b2a (Byte.to_N b2 mod 64)] ++ Base64.b2a_base64 rest.
Proof. reflexivity. Qed.

(** With the clock at 1699999999 the twelfth character of every token is
    ['_']: the first nine octets are the version and the timestamp. *)
Lemma token_underscore f db iv :
  Base64.urlsafe_b64encode (token_data f db 1699999999 iv) !! 11%nat = Some x5f.
Proof.
  unfold token_data, Base64.urlsafe_b64encode.
  change (be_bytes 8 1699999999) with [x00; x00; x00; x00; x65; x53; xf0; xff].
  cbn [app]. rewrite !b2a_base64_group. reflexivity.
Qed.

(** The token's octets decode to data whose last 32 octets are the
    HMAC-SHA256 tag, under the signing key of [e], of what precedes them. *)
Definition authentic (e : Encoder) (token : str) : Prop :=
  exists tb data,
    str_encode token = Ok tb /\
    Base64.urlsafe_b64decode tb = Some data /\
    hmac_sha256 (Fernet._signing_key (_encoder e)) (drop_last 32 data) = take_last 32 data.

(** [decode] gets past the signature check only with authentic data. *)
Lemma decode_invalid_or_authentic e token :
  unicode_text token ->
  decode e token = Raise InvalidToken \/ authentic e token.
Proof.
  intros Ht. destruct (str_encode_text _ Ht) as [tb Htb].
  rewrite (decode_encoded e _ _ Htb).
  unfold Fernet.decrypt, Fernet.get_unverified_token_data.
  destruct (Base64.urlsafe_b64decode tb) as [data|] eqn:Hb64; [|now left].
  destruct data as [|b0 data]; [now left|].
  destruct (decide (b0 <> x80)); [now left|].
  destruct (decide _); [now left|].
  cbn [mbind outcome_bind bind]. unfold Fernet.decrypt_data, Fernet.verify_signature.
  destruct (decide _) as [Htag|Htag]; [|now left].
  right. now exists tb, (b0 :: data).
Qed.


(** [decode] of the octets of a genuine token returns the plaintext. *)
Lemma decode_same_data e now iv x xb token tb :
  well_keyed (_encoder e) -> length iv = 16%nat ->
  str_encode x = Ok xb -> str_encode token = Ok tb ->
  Base64.urlsafe_b64decode tb = Some (token_data (_encoder e) xb now iv) ->
  decode e token = Ok x.
Proof.
  intros Hk Hiv Hx Htb Hb64. rewrite (decode_encoded e _ _ Htb).
  rewrite (decrypt_same_decoding _ tb
             (Base64.urlsafe_b64encode (token_data (_encoder e) xb now iv)))
    by (now rewrite urlsafe_b64decode_encode).
  rewrite (decrypt_token (_encoder e) xb now iv Hk Hiv).
  exact (bytes_decode_encode _ _ Hx).
Qed.
End TamperFacts.

Section CipherClaims.
Context {C : Crypto}.
Import Password.

(** C6 (as amended). Take a token produced by [encode] for the text [x],
    and any text [token'] put in its place (a single-character change of
    the token included). Under every key, [decode] of [token'] fails with
    InvalidToken unless [token'] decodes to data that carry a valid
    HMAC tag under that key: nothing is returned before the tag has
    verified. Under the key that produced the token, [decode] of
    [token'] fails with InvalidToken, or returns [x] itself, or [token']
    carries a valid tag over data other than the token's (a forgery of
    the tag). Altered or partially decrypted plaintext is never
    returned without such a forgery. *)
Theorem decode_tampered (e : Encoder) (now : N) (iv : bytes) (x token token' : str) :
  well_keyed (_encoder e) -> length iv = 16%nat ->
  encode e now iv x = Ok token ->
  unicode_text token' ->
  (forall e2 : Encoder, decode e2 token' = Raise InvalidToken \/ authentic e2 token') /\
  (decode e token' = Raise InvalidToken \/
   decode e token' = Ok x \/
   exists tb xb data,
     str_encode token' = Ok tb /\ str_encode x = Ok xb /\
     Base64.urlsafe_b64decode tb = Some data /\
     data <> token_data (_encoder e) xb now iv /\
     hmac_sha256 (Fernet._signing_key (_encoder e)) (drop_last 32 data)
       = take_last 32 data).
Proof.
  intros Hk Hiv Henc Ht. split.
  { intros e2. now apply decode_invalid_or_authentic. }
  assert (Hx : exists xb, str_encode x = Ok xb).
  { unfold encode in Henc. destruct (str_encode x) as [xb| |]; try discriminate. eauto. }
  destruct Hx as [xb Hxb].
  destruct (decode_invalid_or_authentic e token' Ht) as [Hinv|(tb & data & Htb & Hb64 & Htag)];
    [now left|right].
  destruct (decide (data = token_data (_encoder e) xb now iv)) as [->|Hne].
  - left. exact (decode_same_data e now iv x xb token' tb Hk Hiv Hxb Htb Hb64).
  - right. now exists tb, xb, data.
Qed.

End CipherClaims.

(** C6, the claim as stated: there is no implementation of the primitives
    under which every single-character change of a token makes [decode]
    fail. [urlsafe_b64decode] reads ['/'] as it reads ['_'], so a token
    with ['_'] replaced by ['/'] decodes to the same octets and [decode]
    returns the original text. *)
Lemma modified_token_accepted :
  ~ exists C : Crypto,
      forall (password salt x : str) (now : N) (iv : bytes) (e : Password.Encoder)
             (token pre post : str) (c c' : N),
        Password.Encoder_init password salt = Ok e ->
        length iv = 16%nat ->
        Password.encode e now iv x = Ok token ->
        token = pre ++ c :: post -> c' <> c -> c' < 256 ->
        Password.decode e (pre ++ c' :: post) = Raise InvalidToken.
Proof.
  intros [C H].
  set (password := of_string "Str0ng!Pass").
  set (salt := of_string "MDEyMzQ1Njc4OWFiY2RlZg").
  set (x := of_string "meet at noon").
  set (iv := repeat x00 16).
  destruct (Encoder_init_encoded password salt _ _ eq_refl eq_refl) as (e & He & Hk & _).
  set (L := Base64.urlsafe_b64encode
              (token_data (Password._encoder e) (bytes_of_string "meet at noon")
                 1699999999 iv)).
  assert (Hmid : take 11 L ++ x5f :: drop 12 L = L)
    by (apply take_drop_middle, token_underscore).
  assert (Hascii : Forall (fun b => Byte.to_N b < 128) L)
    by apply urlsafe_b64encode_ascii.
  assert (Henc : Password.encode e 1699999999 iv x = Ok (map Byte.to_N L))
    by (apply (encode_token e 1699999999 iv x _ eq_refl eq_refl); reflexivity).
  assert (Hbad : Password.decode e (map Byte.to_N (take 11 L) ++ 47 :: map Byte.to_N (drop 12 L))
                 = Raise InvalidToken).
  { apply (H password salt x 1699999999 iv e (map Byte.to_N L) _ _ 95 47 He eq_refl Henc);
      [|discriminate|reflexivity].
    rewrite <- Hmid at 1. now rewrite map_app. }
  assert (Hgood : Password.decode e (map Byte.to_N (take 11 L) ++ 47 :: map Byte.to_N (drop 12 L))
                  = Ok x).
  { change (map Byte.to_N (take 11 L) ++ 47 :: map Byte.to_N (drop 12 L))
      with (map Byte.to_N (take 11 L) ++ map Byte.to_N (x2f :: drop 12 L)).
    rewrite <- map_app.
    rewrite (decode_encoded e _ (take 11 L ++ x2f :: drop 12 L)).
    - rewrite decrypt_slash, Hmid. unfold L.
      rewrite (decrypt_token _ _ _ iv Hk eq_refl). reflexivity.
    - apply str_encode_ascii. apply Forall_app. split.
      + now apply Forall_take.
      + constructor; [reflexivity|now apply Forall_drop]. }
  rewrite Hgood in Hbad. discriminate.
Qed.

(** ** database.py *)

Section DbFacts.
Import Os Db.

(** The finite map a table stands for: each name with the body of its
    first row. *)
Definition view (t : table) : gmap str str := list_to_map t.

Lemma select_body_view t title : select_body t title = view t !! title.
Proof.
  unfold select_body, view. induction t as [|[k v] t IH]; [reflexivity|].
  cbn [List.find list_to_map fst snd foldr uncurry]. cbn [fst].
  destruct (decide (k = title)) as [->|Hne].
  - rewrite bool_decide_eq_true_2 by reflexivity. cbn. now rewrite lookup_insert_eq.
  - rewrite bool_decide_eq_false_2 by exact Hne. rewrite lookup_insert_ne by exact Hne.
    exact IH.
Qed.

Lemma taken_view t title :
  existsb (fun r => bool_decide (fst r = title)) t = bool_decide (is_Some (view t !! title)).
Proof.
  unfold view. induction t as [|[k v] t IH]; [reflexivity|].
  cbn [existsb list_to_map foldr fst].
  destruct (decide (k = title)) as [->|Hne].
  - rewrite bool_decide_eq_true_2 by reflexivity. cbn [orb].
    symmetry. apply bool_decide_eq_true_2. rewrite lookup_insert_eq. eauto.
  - rewrite bool_decide_eq_false_2 by exact Hne. cbn [orb]. rewrite IH.
    apply bool_decide_ext. now rewrite lookup_insert_ne.
Qed.

Lemma insert_view t title body :
  view t !! title = None -> view (t ++ [(title, body)]) = <[title := body]> (view t).
Proof.
  unfold view. induction t as [|[k v] t IH]; intros Hnone; [reflexivity|].
  cbn [app list_to_map foldr] in *.
  destruct (decide (k = title)) as [->|Hne].
  - now rewrite lookup_insert_eq in Hnone.
  - rewrite lookup_insert_ne in Hnone by exact Hne.
    rewrite IH by exact Hnone. now apply insert_insert_ne.
Qed.

Lemma delete_view t title :
  view (List.filter (fun r => negb (bool_decide (fst r = title))) t) = delete title (view t).
Proof.
  unfold view. induction t as [|[k v] t IH]; [symmetry; apply delete_empty|].
  cbn [List.filter list_to_map foldr fst].
  destruct (decide (k = title)) as [->|Hne].
  - rewrite bool_decide_eq_true_2 by reflexivity. cbn [negb].
    now rewrite IH, delete_insert_eq.
  - rewrite bool_decide_eq_false_2 by exact Hne. cbn [negb list_to_map foldr].
    now rewrite IH, delete_insert_ne.
Qed.

(** The three operations on an open database, read through [view]. *)
Lemma fetch_record_view t title :
  unicode_text title ->
  fetch_record {| _cursor := Some (Records t) |} title = Ok (view t !! title).
Proof.
  intros Ht. unfold fetch_record, bind_param. cbn [_cursor].
  destruct (str_encode_text _ Ht) as [tb ->]. cbn. now rewrite select_body_view.
Qed.

Lemma add_record_view t title body :
  unicode_text title -> unicode_text body ->
  add_record {| _cursor := Some (Records t) |} title body =
    match view t !! title with
    | Some _ => Raise IntegrityError
    | None => Ok {| _cursor := Some (Records (t ++ [(title, body)])) |}
    end.
Proof.
  intros Ht Hb. unfold add_record, bind_param. cbn [_cursor].
  destruct (str_encode_text _ Ht) as [tb ->]. destruct (str_encode_text _ Hb) as [bb ->].
  cbn [mbind outcome_bind bind]. rewrite taken_view.
  destruct (view t !! title) as [b0|].
  - rewrite bool_decide_eq_true_2; eauto.
  - rewrite bool_decide_eq_false_2; [reflexivity|]. now intros [? [=]].
Qed.

Lemma del_record_view t title :
  unicode_text title ->
  del_record {| _cursor := Some (Records t) |} title =
    Ok {| _cursor := Some (Records (List.filter (fun r => negb (bool_decide (fst r = title))) t)) |}.
Proof.
  intros Ht. unfold del_record, bind_param. cbn [_cursor].
  now destruct (str_encode_text _ Ht) as [tb ->].
Qed.

Lemma filter_absent t title :
  view t !! title = None ->
  List.filter (fun r => negb (bool_decide (fst r = title))) t = t.
Proof.
  unfold view. induction t as [|[k v] t IH]; intros Hnone; [reflexivity|].
  cbn [List.filter list_to_map foldr fst] in *.
  destruct (decide (k = title)) as [->|Hne].
  - now rewrite lookup_insert_eq in Hnone.
  - rewrite lookup_insert_ne in Hnone by exact Hne.
    rewrite bool_decide_eq_false_2 by exact Hne. cbn [negb]. now rewrite IH.
Qed.

(** C9. An open database is a finite map from title to body. For text
    titles and bodies: [fetch_record] after a successful [add_record] of
    a title returns the body added; [add_record] of an absent title
    succeeds, and of a present title raises IntegrityError (the
    DuplicateTitleError of the specification) instead of overwriting;
    [fetch_record] after [del_record] returns None; [del_record] of an
    absent title succeeds and changes nothing; and neither operation
    touches another title. *)
Theorem record_store_finite_map (t : table) (title body : str) :
  unicode_text title -> unicode_text body ->
  let db := {| _cursor := Some (Records t) |} in
  (forall db', add_record db title body = Ok db' ->
     fetch_record db' title = Ok (Some body)) /\
  (fetch_record db title = Ok None -> exists db', add_record db title body = Ok db') /\
  (forall b0, fetch_record db title = Ok (Some b0) ->
     add_record db title body = Raise IntegrityError) /\
  (exists db', del_record db title = Ok db' /\ fetch_record db' title = Ok None) /\
  (fetch_record db title = Ok None -> del_record db title = Ok db) /\
  (forall title', unicode_text title' -> title' <> title ->
     (forall db', add_record db title body = Ok db' ->
        fetch_record db' title' = fetch_record db title') /\
     (forall db', del_record db title = Ok db' ->
        fetch_record db' title' = fetch_record db title')).
Proof.
  intros Ht Hb db. subst db.
  rewrite !fetch_record_view, add_record_view, del_record_view by assumption.
  repeat split.
  - intros db'. destruct (view t !! title) eqn:E; [discriminate|].
    intros [= <-]. rewrite fetch_record_view by assumption.
    now rewrite insert_view, lookup_insert_eq.
  - intros [= ->]. eauto.
  - intros b0 [= ->]. reflexivity.
  - eexists. split; [reflexivity|]. rewrite fetch_record_view by assumption.
    now rewrite delete_view, lookup_delete_eq.
  - intros [= E]. now rewrite filter_absent.
  - intros db'. destruct (view t !! title) eqn:E; [discriminate|].
    intros [= <-]. rewrite !fetch_record_view by assumption.
    now rewrite insert_view, lookup_insert_ne.
  - intros db' [= <-]. rewrite !fetch_record_view by assumption.
    now rewrite delete_view, lookup_delete_ne.
Qed.
End DbFacts.

(** ** main.py: the state enumeration *)

Import Main.

Definition authenticated_states : list AppState :=
  [LOGGEDON; ADDRECORD; FINDRECORD; DELETERECORD; RECORDFOUND; RECORDNOTFOUND].

(** C4 (as amended). The guard of the main branch of [frame_commands]
    holds exactly for LoggedOn, AddRecord, FindRecord, DeleteRecord,
    RecordFound and RecordNotFound. The guard of the "Reset.." menu, which
    offers the change of password and the hard reset, is [state >=
    LOGGEDON]: it holds for these six states and also for ChangePassword
    and ChangePasswordFailed, and for no other state. *)
Theorem authenticated_guards (s : AppState) :
  (main_branch s = true <-> s ∈ authenticated_states) /\
  (reset_menu_allowed s = true <->
   s ∈ (authenticated_states ++ [CHANGEPASSWORD; CHANGEPASSWORDFAILED])).
Proof.
  unfold authenticated_states. cbn [app]. split; split.
  - destruct s; intros H; try discriminate H; set_solver.
  - rewrite !elem_of_cons, elem_of_nil. intros H.
    repeat (destruct H as [H|H]; [now subst|]). contradiction.
  - destruct s; intros H; try discriminate H; set_solver.
  - rewrite !elem_of_cons, elem_of_nil. intros H.
    repeat (destruct H as [H|H]; [now subst|]). contradiction.
Qed.

(** C4, the claim as stated: the guard of the "Reset.." menu holds in
    ChangePassword and ChangePasswordFailed, which are not among the six
    authenticated states. *)
Lemma reset_menu_in_change_password :
  reset_menu_allowed CHANGEPASSWORD = true /\
  reset_menu_allowed CHANGEPASSWORDFAILED = true /\
  (CHANGEPASSWORD ∉ authenticated_states) /\
  (CHANGEPASSWORDFAILED ∉ authenticated_states).
Proof.
  split; [reflexivity|]. split; [reflexivity|].
  unfold authenticated_states. split; rewrite !elem_of_cons, elem_of_nil; intuition discriminate.
Qed.

Import Os Db Config Password.

(** ** password_meets_requirements *)

Lemma ascii_text bs : Forall (fun b => Byte.to_N b < 128) bs -> unicode_text (map Byte.to_N bs).
Proof.
  induction 1 as [|b bs Hb _ IH]; constructor; [|exact IH].
  unfold is_scalar. apply orb_true_iff. left. apply N.ltb_lt. lia.
Qed.

(** The valid characters are the printable ASCII characters other than
    the space. *)
Lemma VALID_CHARS_spec c : c ∈ VALID_CHARS <-> 33 <= c <= 126.
Proof.
  unfold VALID_CHARS. rewrite elem_of_list_to_set. split.
  - intros H. apply list_elem_of_In in H.
    assert (Hb : forallb (fun c => (33 <=? c) && (c <=? 126))
                   (ascii_letters ++ digits ++ punctuation) = true) by (vm_compute; reflexivity).
    rewrite forallb_forall in Hb. apply Hb in H.
    apply andb_true_iff in H as [H1 H2]. apply N.leb_le in H1, H2. lia.
  - intros H. apply list_elem_of_In.
    assert (Hb : forallb (fun c => existsb (N.eqb c) (ascii_letters ++ digits ++ punctuation))
                   (map N.of_nat (seq 33 94)) = true) by (vm_compute; reflexivity).
    rewrite forallb_forall in Hb.
    assert (Hc : In c (map N.of_nat (seq 33 94))).
    { apply in_map_iff. exists (N.to_nat c). split; [lia|]. apply in_seq. lia. }
    apply Hb, existsb_exists in Hc as (c' & Hin & ->%N.eqb_eq). exact Hin.
Qed.

Lemma password_meets_requirements_spec password :
  password_meets_requirements password = true <->
  (8 <= length password <= 32)%nat /\ Forall (fun c => 33 <= c <= 126) password.
Proof.
  unfold password_meets_requirements.
  destruct (Nat.ltb_spec (length password) 8); cbn [orb]; [split; [discriminate|lia]|].
  destruct (Nat.ltb_spec 32 (length password)); cbn [orb]; [split; [discriminate|lia]|].
  destruct (existsb _ password) eqn:E.
  - split; [discriminate|]. intros [_ Hall]. exfalso.
    apply existsb_exists in E as (c & Hc & Hbad). apply bool_decide_eq_true in Hbad.
    apply Hbad, VALID_CHARS_spec. rewrite Forall_forall in Hall. apply Hall.
    now apply list_elem_of_In.
  - split; [intros _|reflexivity]. split; [lia|].
    apply Forall_forall. intros c Hc. apply VALID_CHARS_spec.
    destruct (decide (c ∈ VALID_CHARS)) as [|Hn]; [assumption|exfalso].
    apply not_true_iff_false in E. apply E, existsb_exists.
    exists c. split; [now apply list_elem_of_In|]. now apply bool_decide_eq_true.
Qed.

Lemma password_meets_requirements_text password :
  password_meets_requirements password = true -> unicode_text password.
Proof.
  intros [_ H]%password_meets_requirements_spec.
  eapply Forall_impl; [exact H|]. cbn. intros c Hc.
  unfold is_scalar. apply orb_true_iff. left. apply N.ltb_lt. lia.
Qed.

Lemma gen_salt_text tok salt : gen_salt tok = Ok salt -> unicode_text salt.
Proof.
  unfold gen_salt, token_urlsafe, ascii_decode.
  destruct (forallb _ _) eqn:E; [|discriminate]. intros [= <-].
  apply ascii_text, Forall_forall. intros b Hb.
  rewrite forallb_forall in E. apply N.ltb_lt, E. now apply list_elem_of_In.
Qed.

(** ** A reference implementation of the configuration record

    [Json] is inhabited too: the path's octets behind a unary length,
    then the salt in UTF-8. A record cut short of its path is invalid. *)

Definition ref_dump (p : Path) (s : str) : bytes :=
  let pb := String.list_byte_of_string p in
  repeat x01 (length pb) ++ [x00] ++ pb
    ++ match utf8_encode s with Some sb => sb | None => [] end.

Fixpoint leading_ones (bs : bytes) : nat :=
  match bs with
  | b :: rest => if decide (b = x01) then S (leading_ones rest) else O
  | [] => O
  end.

Definition ref_load (bs : bytes) : load_result :=
  let n := leading_ones bs in
  match drop n bs with
  | _ :: rest =>
    if (length rest <? n)%nat then Invalid
    else
      match utf8_decode (drop n rest) with
      | Some s => Loaded (String.string_of_list_byte (take n rest)) s
      | None => NotLoaded
      end
  | [] => NotLoaded
  end.

Lemma leading_ones_repeat n rest : leading_ones (repeat x01 n ++ x00 :: rest) = n.
Proof. induction n as [|n IH]; [reflexivity|]. cbn. now rewrite IH. Qed.

Lemma ref_load_dump p s : unicode_text s -> ref_load (ref_dump p s) = Loaded p s.
Proof.
  intros Hs. destruct (utf8_encode_total s Hs) as [sb Hsb].
  unfold ref_load, ref_dump. rewrite Hsb. cbn [app].
  rewrite leading_ones_repeat.
  rewrite drop_app_length' by now rewrite repeat_length.
  replace (length (String.list_byte_of_string p ++ sb) <? _)%nat with false
    by (symmetry; apply Nat.ltb_ge; rewrite length_app; lia).
  rewrite take_app_length, drop_app_length.
  now rewrite (utf8_decode_encode _ _ Hsb), String.string_of_list_byte_of_string.
Qed.

Definition ref_json : Json := {|
  model_dump_json := ref_dump;
  json_load := ref_load;
  json_load_dump := ref_load_dump
|}.

(** Project the fields of an updated application object. *)
Ltac app_fields :=
  cbn [Main.state Main.encoder Main.config Main.user_input Main.user_input2 Main.db
       Main.set_state Main.set_encoder Main.set_config Main.set_user_input
       Main.set_user_input2 Main.draw_main_options_menu] in *.

(** ** main.py: the access state machine *)

Section MainFacts.
Context {C : Crypto} {J : Json}.

(** What holds of the application object in every state it reaches. *)
Definition app_inv (a : App) : Prop :=
  match state a with
  | EMPTY | INVALIDNEWPASSWORD =>
    encoder a = None /\ unicode_text (password_salt (config a))
  | LOGGEDOFF | INVALIDPASSWORD => True
  | LOGGEDON | ADDRECORD | FINDRECORD | CHANGEPASSWORD | CONFIRMHARDRESET =>
    is_Some (encoder a)
  | _ => False
  end.

(** [App.__init__] once the storage directory is chosen. *)
Definition App_init_at (w : World) (storage_pth : Path) (tok : bytes)
  : outcome (App * World) :=
  '(cfg, st) ←
    (if path_exists w (join storage_pth CONFIGFILENAME) then
       cfg ← from_json w (join storage_pth CONFIGFILENAME); Ok (cfg, LOGGEDOFF)
     else
       salt ← gen_salt tok;
       cfg ← AppConfig_init w storage_pth salt;
       Ok (cfg, EMPTY));
  '(d, w) ← Database_init w storage_pth;
  Ok ({| encoder := None; user_input := []; user_input2 := [];
         config := cfg; state := st; db := d |}, w).

Lemma App_init_storage w custom_dir home tok s :
  App_init w custom_dir home tok = Ok s ->
  exists w1 storage_pth, App_init_at w1 storage_pth tok = Ok s.
Proof.
  unfold App_init. intros H.
  destruct custom_dir as [d|].
  - destruct (negb (path_exists w d) || negb (is_dir w d)); [discriminate H|].
    now exists w, d.
  - destruct (negb (path_exists w _)); eauto.
Qed.

Lemma App_init_custom w d home tok :
  path_exists w d = true -> is_dir w d = true ->
  App_init w (Some d) home tok = App_init_at w d tok.
Proof. intros H1 H2. unfold App_init. now rewrite H1, H2. Qed.

Lemma AppConfig_init_salt w p salt cfg :
  AppConfig_init w p salt = Ok cfg -> password_salt cfg = salt.
Proof.
  unfold AppConfig_init.
  destruct (path_exists w _); [destruct (files w !! _)|]; intros [= <-]; reflexivity.
Qed.

Lemma App_init_inv w custom_dir home tok a w' :
  App_init w custom_dir home tok = Ok (a, w') -> app_inv a.
Proof.
  intros (w1 & p & H)%App_init_storage. unfold App_init_at in H.
  destruct (path_exists w1 (join p CONFIGFILENAME)).
  - destruct (from_json w1 _) as [cfg| |]; try discriminate H.
    cbn [mbind outcome_bind bind] in H.
    destruct (Database_init w1 p) as [[d w2]| |]; try discriminate H.
    injection H as <- <-. exact I.
  - destruct (gen_salt tok) as [salt| |] eqn:Hsalt; try discriminate H.
    cbn [mbind outcome_bind bind] in H.
    destruct (AppConfig_init w1 p salt) as [cfg| |] eqn:Hcfg; try discriminate H.
    cbn [mbind outcome_bind bind] in H.
    destruct (Database_init w1 p) as [[d w2]| |]; try discriminate H.
    injection H as <- <-. split; [reflexivity|]. cbn [config].
    rewrite (AppConfig_init_salt _ _ _ _ Hcfg). exact (gen_salt_text _ _ Hsalt).
Qed.

(** [frame_commands] state by state, when the user does not quit. *)

Lemma frame_quit fr a w :
  key_ctrl_q fr = true \/ clicked_quit fr = true -> frame_commands fr a w = Exit 0.
Proof.
  unfold frame_commands. intros [->| ->]; [reflexivity|]. now destruct (key_ctrl_q fr).
Qed.

Lemma frame_EMPTY fr a w :
  key_ctrl_q fr = false -> clicked_quit fr = false -> state a = EMPTY ->
  frame_commands fr a w =
    let a := set_user_input (input_text (typed fr) (user_input a)) a in
    if confirm_clicked fr && negb (length (user_input a) =? 0)%nat then
      if password_meets_requirements (user_input a) then
        e ← Encoder_init (user_input a) (password_salt (config a));
        let a := set_encoder e a in
        let a := set_config (set_password_hash (Password.password_hash e) (config a)) a in
        w ← dump (config a) w;
        Ok (set_user_input [] (set_state LOGGEDOFF a), w)
      else Ok (set_user_input [] (set_state INVALIDNEWPASSWORD a), w)
    else Ok (a, w).
Proof.
  intros Hq1 Hq2 Hs. unfold frame_commands. rewrite Hq1, Hq2.
  destruct a as [enc ui ui2 cfg st d]. cbn [state] in Hs. subst st. reflexivity.
Qed.

Lemma frame_INVALIDNEWPASSWORD fr a w :
  key_ctrl_q fr = false -> clicked_quit fr = false -> state a = INVALIDNEWPASSWORD ->
  frame_commands fr a w =
    if confirm_clicked fr then Ok (set_state EMPTY a, w) else Ok (a, w).
Proof.
  intros Hq1 Hq2 Hs. unfold frame_commands. rewrite Hq1, Hq2.
  destruct a as [enc ui ui2 cfg st d]. cbn [state] in Hs. subst st. reflexivity.
Qed.

Lemma frame_LOGGEDOFF fr a w :
  key_ctrl_q fr = false -> clicked_quit fr = false -> state a = LOGGEDOFF ->
  frame_commands fr a w =
    let a := set_user_input (input_text (typed fr) (user_input a)) a in
    if confirm_clicked fr && negb (length (user_input a) =? 0)%nat then
      h ← Config.password_hash (config a);
      ok ← verify_password (user_input a) (password_salt (config a)) h;
      if ok : bool then
        e ← Encoder_init (user_input a) (password_salt (config a));
        Ok (set_user_input [] (set_state LOGGEDON (set_encoder e a)), w)
      else Ok (set_user_input [] (set_state INVALIDPASSWORD a), w)
    else Ok (a, w).
Proof.
  intros Hq1 Hq2 Hs. unfold frame_commands. rewrite Hq1, Hq2.
  destruct a as [enc ui ui2 cfg st d]. cbn [state] in Hs. subst st. reflexivity.
Qed.

Lemma frame_INVALIDPASSWORD fr a w :
  key_ctrl_q fr = false -> clicked_quit fr = false -> state a = INVALIDPASSWORD ->
  frame_commands fr a w =
    if confirm_clicked fr then Ok (set_state LOGGEDOFF a, w) else Ok (a, w).
Proof.
  intros Hq1 Hq2 Hs. unfold frame_commands. rewrite Hq1, Hq2.
  destruct a as [enc ui ui2 cfg st d]. cbn [state] in Hs. subst st. reflexivity.
Qed.

(** The "Reset.." menu, shown in the states that pass its guard. *)
Definition reset_menu (fr : Frame) (a : App) : App :=
  let a := if clicked_change_pwd fr then set_state CHANGEPASSWORD a else a in
  if clicked_reset fr then set_state CONFIRMHARDRESET a else a.

(** The window of the AddRecord state. *)
Definition add_record_window (fr : Frame) (a : App) (w : World) : outcome (App * World) :=
  let a := set_user_input (input_text (typed fr) (user_input a)) a in
  let a := set_user_input2 (input_text (typed2 fr) (user_input2 a)) a in
  if confirm_clicked fr && negb (length (user_input a) =? 0)%nat
     && negb (length (user_input2 a) =? 0)%nat then
    match encoder a with
    | None => Raise AttributeError
    | Some e =>
      encode e (fst (draw1 fr)) (snd (draw1 fr)) (user_input a);;
      encode e (fst (draw2 fr)) (snd (draw2 fr)) (user_input2 a);;
      Ok (set_state LOGGEDON (set_user_input2 [] (set_user_input [] a)), w)
    end
  else Ok (a, w).

Lemma frame_logged_on fr a w :
  key_ctrl_q fr = false -> clicked_quit fr = false -> reset_menu_allowed (state a) = true ->
  frame_commands fr a w =
    let a := reset_menu fr a in
    if main_branch (state a) then
      let a := draw_main_options_menu fr a in
      if decide (state a = ADDRECORD) then add_record_window fr a w else Ok (a, w)
    else Ok (a, w).
Proof.
  intros Hq1 Hq2 Hs. unfold frame_commands. rewrite Hq1, Hq2, Hs.
  fold (reset_menu fr a). cbv zeta.
  assert (Hm : reset_menu_allowed (state (reset_menu fr a)) = true
               \/ state (reset_menu fr a) = CONFIRMHARDRESET).
  { unfold reset_menu. destruct (clicked_reset fr); [now right|].
    destruct (clicked_change_pwd fr); now left. }
  destruct Hm as [Hm|Hm].
  - destruct (state (reset_menu fr a)) eqn:E; try discriminate Hm; reflexivity.
  - rewrite Hm. reflexivity.
Qed.

Lemma frame_idle fr a w :
  key_ctrl_q fr = false -> clicked_quit fr = false ->
  state a = CONFIRMHARDRESET \/ state a = HARDRESET \/ state a = CONFIRMHARDRESETFAILED ->
  frame_commands fr a w = Ok (a, w).
Proof.
  intros Hq1 Hq2 Hs. unfold frame_commands. rewrite Hq1, Hq2.
  destruct a as [enc ui ui2 cfg st d]. cbn [state] in Hs.
  destruct Hs as [->|[->| ->]]; reflexivity.
Qed.

Lemma quit_cases fr :
  (key_ctrl_q fr = true \/ clicked_quit fr = true)
  \/ (key_ctrl_q fr = false /\ clicked_quit fr = false).
Proof. destruct (key_ctrl_q fr), (clicked_quit fr); auto. Qed.

(** In the states that pass the guard of the menu a frame changes the
    state and the two input fields, and nothing else. *)
Lemma frame_logged_on_effect fr a w a' w' :
  reset_menu_allowed (state a) = true ->
  frame_commands fr a w = Ok (a', w') ->
  encoder a' = encoder a /\ config a' = config a /\ db a' = db a /\ w' = w /\
  (state a' = state a \/
   state a' ∈ [CONFIRMHARDRESET; CHANGEPASSWORD; ADDRECORD; FINDRECORD; LOGGEDON]).
Proof.
  intros Hg H.
  destruct (quit_cases fr) as [Hq|[Hq1 Hq2]]; [now rewrite (frame_quit _ _ _ Hq) in H|].
  rewrite frame_logged_on in H by assumption. cbv zeta in H.
  unfold reset_menu, draw_main_options_menu, add_record_window in H.
  destruct a as [enc ui ui2 cfg st d]. cbn [state] in Hg.
  destruct st; try discriminate Hg;
    destruct (clicked_change_pwd fr), (clicked_reset fr), (add_btn fr), (find_btn fr);
    cbn [state set_state main_branch ge le lt value Z.ltb Z.compare negb andb orb
         bool_decide decide_rel] in H;
    repeat match type of H with
    | (if decide ?P then _ else _) = _ => destruct (decide P) as [?|?]; try discriminate
    | (if ?c then _ else _) = _ => destruct c
    | match ?x with _ => _ end = _ => destruct x
    | (?m ≫= _) = _ => destruct m; cbn [mbind outcome_bind bind] in H
    end;
    try discriminate H; injection H as <- <-; cbn;
    repeat split; try reflexivity; set_solver.
Qed.

(** A frame keeps the invariant, and never discards the encoder. *)
Lemma frame_commands_inv fr a w a' w' :
  app_inv a -> frame_commands fr a w = Ok (a', w') ->
  app_inv a' /\ (is_Some (encoder a) -> is_Some (encoder a')).
Proof.
  intros Hinv H.
  destruct (reset_menu_allowed (state a)) eqn:Hg.
  { destruct (frame_logged_on_effect _ _ _ _ _ Hg H) as (He & _ & _ & _ & Hst).
    rewrite He. split; [|auto]. unfold app_inv in *. rewrite He.
    assert (Henc : is_Some (encoder a)) by (destruct (state a); try discriminate Hg; tauto).
    destruct Hst as [->|Hst]; [destruct (state a); try discriminate Hg; tauto|].
    repeat (apply elem_of_cons in Hst as [->|Hst]; [exact Henc|]).
    now apply elem_of_nil in Hst. }
  destruct (quit_cases fr) as [Hq|[Hq1 Hq2]]; [now rewrite (frame_quit _ _ _ Hq) in H|].
  unfold app_inv in Hinv.
  destruct (state a) eqn:Hs; try contradiction; try discriminate Hg.
  - (* CONFIRMHARDRESET *)
    rewrite frame_idle in H by auto. injection H as <- <-.
    unfold app_inv. now rewrite Hs.
  - (* INVALIDNEWPASSWORD *)
    rewrite frame_INVALIDNEWPASSWORD in H by assumption.
    destruct (confirm_clicked fr); injection H as <- <-; unfold app_inv; app_fields;
      rewrite ?Hs; auto.
  - (* EMPTY *)
    rewrite frame_EMPTY in H by assumption. cbv zeta in H. app_fields.
    destruct (_ && _).
    + destruct (password_meets_requirements _).
      * destruct (Encoder_init _ _) as [e| |]; try discriminate H.
        cbn [mbind outcome_bind bind] in H.
        destruct (dump _ w) as [w1| |]; try discriminate H.
        injection H as <- <-. unfold app_inv. app_fields. eauto.
      * injection H as <- <-. unfold app_inv. app_fields. auto.
    + injection H as <- <-. unfold app_inv. app_fields. rewrite Hs. auto.
  - (* LOGGEDOFF *)
    rewrite frame_LOGGEDOFF in H by assumption. cbv zeta in H. app_fields.
    destruct (_ && _).
    + destruct (Config.password_hash _) as [h| |]; try discriminate H.
      cbn [mbind outcome_bind bind] in H.
      destruct (verify_password _ _ _) as [[]| |]; try discriminate H;
        cbn [mbind outcome_bind bind] in H.
      * destruct (Encoder_init _ _) as [e| |]; try discriminate H.
        injection H as <- <-. unfold app_inv. app_fields. eauto.
      * injection H as <- <-. unfold app_inv. app_fields. auto.
    + injection H as <- <-. unfold app_inv. app_fields. rewrite Hs. auto.
  - (* INVALIDPASSWORD *)
    rewrite frame_INVALIDPASSWORD in H by assumption.
    destruct (confirm_clicked fr); injection H as <- <-; unfold app_inv; app_fields;
      rewrite ?Hs; auto.
Qed.

Lemma reachable_inv s : reachable s -> app_inv (fst s).
Proof.
  induction 1 as [w cd home tok [a w'] H|fr a w [a' w'] _ IH H].
  - exact (App_init_inv _ _ _ _ _ _ H).
  - exact (proj1 (frame_commands_inv _ _ _ _ _ IH H)).
Qed.
End MainFacts.

(** ** A vault used in the examples *)

Definition vault_dir : Path := "/vault".
Definition home_dir : Path := "/home/user".
(** An empty storage directory. *)
Definition empty_world : World :=
  {| files := ∅; dirs := {[vault_dir]}; sqlite := ∅ |}.
(** The 16 octets the system hands to [gen_salt], and the salt made of them. *)
Definition entropy : bytes := repeat x00 16.
Definition salt0 : str := of_string "AAAAAAAAAAAAAAAAAAAAAA".
Definition strong_password : str := of_string "Str0ng!Pass".

(** A frame in which nothing is clicked or typed. *)
Definition idle : Frame :=
  {| key_ctrl_q := false; clicked_quit := false; clicked_change_pwd := false;
     clicked_reset := false; typed := None; typed2 := None; confirm_clicked := false;
     add_btn := false; find_btn := false;
     draw1 := (1699999999, entropy); draw2 := (1699999999, entropy) |}.
(** The user types [s] into the text field and clicks the dialog's button. *)
Definition submit (s : str) : Frame :=
  {| key_ctrl_q := false; clicked_quit := false; clicked_change_pwd := false;
     clicked_reset := false; typed := Some s; typed2 := None; confirm_clicked := true;
     add_btn := false; find_btn := false;
     draw1 := (1699999999, entropy); draw2 := (1699999999, entropy) |}.

Section VaultExamples.
Context {C : Crypto} {J : Json}.

(** The application right after start-up on the empty directory. *)
Definition fresh_config : AppConfig :=
  {| storage_pth := vault_dir; password_salt := salt0; _password_hash := None |}.
Definition fresh_app : App :=
  {| encoder := None; user_input := []; user_input2 := [];
     config := fresh_config; state := EMPTY; db := {| _cursor := Some (Records []) |} |}.
Definition fresh_world : World := create_db (join vault_dir DBFILENAME) [] empty_world.

Lemma fresh_start : App_init empty_world (Some vault_dir) home_dir entropy
                    = Ok (fresh_app, fresh_world).
Proof. reflexivity. Qed.

Lemma fresh_reachable : reachable (fresh_app, fresh_world).
Proof. exact (reach_init _ _ _ _ _ fresh_start). Qed.

End VaultExamples.

Lemma join_inj p n1 n2 : join p n1 = join p n2 -> n1 = n2.
Proof.
  unfold join. intros H. apply String.app_inj in H. now apply String.app_inj in H.
Qed.

Lemma config_hash_paths p : join p HASHFILENAME <> join p CONFIGFILENAME.
Proof. intros H. apply join_inj in H. discriminate H. Qed.

Section AccessClaims.
Context {C : Crypto} {J : Json}.

(** The session of a run, by the state [origin] the run started in. A
    run that starts on an existing vault (in LoggedOff) has a session
    exactly in the states behind a successful login. A run that starts on
    a new vault (in Empty) has none before the registration, and has one
    from the registration on. *)
Definition session_inv (origin : AppState) (a : App) : Prop :=
  match state a with
  | EMPTY | INVALIDNEWPASSWORD => origin = EMPTY /\ encoder a = None
  | LOGGEDOFF | INVALIDPASSWORD =>
    (origin = EMPTY /\ is_Some (encoder a)) \/ (origin = LOGGEDOFF /\ encoder a = None)
  | LOGGEDON | ADDRECORD | FINDRECORD | CHANGEPASSWORD | CONFIRMHARDRESET =>
    is_Some (encoder a)
  | _ => False
  end.

(** [App.__init__] returns in LoggedOff or in Empty, without a session. *)
Lemma App_init_session w custom_dir home tok a w' :
  App_init w custom_dir home tok = Ok (a, w') ->
  (state a = LOGGEDOFF \/ state a = EMPTY) /\ encoder a = None.
Proof.
  intros (w1 & p & H)%App_init_storage. unfold App_init_at in H.
  destruct (path_exists w1 (join p CONFIGFILENAME)).
  - destruct (from_json w1 _) as [cfg| |]; try discriminate H.
    cbn [mbind outcome_bind bind] in H.
    destruct (Database_init w1 p) as [[d w2]| |]; try discriminate H.
    injection H as <- <-. auto.
  - destruct (gen_salt tok) as [salt| |]; try discriminate H.
    cbn [mbind outcome_bind bind] in H.
    destruct (AppConfig_init w1 p salt) as [cfg| |]; try discriminate H.
    cbn [mbind outcome_bind bind] in H.
    destruct (Database_init w1 p) as [[d w2]| |]; try discriminate H.
    injection H as <- <-. auto.
Qed.

Lemma frame_commands_session o fr a w a' w' :
  session_inv o a -> frame_commands fr a w = Ok (a', w') -> session_inv o a'.
Proof.
  intros Hinv H.
  destruct (reset_menu_allowed (state a)) eqn:Hg.
  { destruct (frame_logged_on_effect _ _ _ _ _ Hg H) as (He & _ & _ & _ & Hst).
    unfold session_inv in *. rewrite He.
    assert (Henc : is_Some (encoder a)) by (destruct (state a); try discriminate Hg; tauto).
    destruct Hst as [->|Hst]; [destruct (state a); try discriminate Hg; tauto|].
    repeat (apply elem_of_cons in Hst as [->|Hst]; [exact Henc|]).
    now apply elem_of_nil in Hst. }
  destruct (quit_cases fr) as [Hq|[Hq1 Hq2]]; [now rewrite (frame_quit _ _ _ Hq) in H|].
  unfold session_inv in Hinv.
  destruct (state a) eqn:Hs; try contradiction; try discriminate Hg.
  - (* CONFIRMHARDRESET *)
    rewrite frame_idle in H by auto. injection H as <- <-.
    unfold session_inv. now rewrite Hs.
  - (* INVALIDNEWPASSWORD *)
    rewrite frame_INVALIDNEWPASSWORD in H by assumption.
    destruct (confirm_clicked fr); injection H as <- <-; unfold session_inv; app_fields;
      rewrite ?Hs; auto.
  - (* EMPTY *)
    destruct Hinv as [-> Hnone].
    rewrite frame_EMPTY in H by assumption. cbv zeta in H. app_fields.
    destruct (_ && _).
    + destruct (password_meets_requirements _).
      * destruct (Encoder_init _ _) as [e| |]; try discriminate H.
        cbn [mbind outcome_bind bind] in H.
        destruct (dump _ w) as [w1| |]; try discriminate H.
        injection H as <- <-. unfold session_inv. app_fields. eauto.
      * injection H as <- <-. unfold session_inv. app_fields. auto.
    + injection H as <- <-. unfold session_inv. app_fields. rewrite Hs. auto.
  - (* LOGGEDOFF *)
    rewrite frame_LOGGEDOFF in H by assumption. cbv zeta in H. app_fields.
    destruct (_ && _).
    + destruct (Config.password_hash _) as [h| |]; try discriminate H.
      cbn [mbind outcome_bind bind] in H.
      destruct (verify_password _ _ _) as [[]| |]; try discriminate H;
        cbn [mbind outcome_bind bind] in H.
      * destruct (Encoder_init _ _) as [e| |]; try discriminate H.
        injection H as <- <-. unfold session_inv. app_fields. eauto.
      * injection H as <- <-. unfold session_inv. app_fields. exact Hinv.
    + injection H as <- <-. unfold session_inv. app_fields. rewrite Hs. exact Hinv.
  - (* INVALIDPASSWORD *)
    rewrite frame_INVALIDPASSWORD in H by assumption.
    destruct (confirm_clicked fr); injection H as <- <-; unfold session_inv; app_fields;
      rewrite ?Hs; exact Hinv.
Qed.

Lemma render_frames_session o frs : forall a w a' w',
  session_inv o a -> render_frames frs a w = Ok (a', w') -> session_inv o a'.
Proof.
  induction frs as [|fr frs IH]; intros a w a' w' Hinv; cbn [render_frames].
  - now intros [= <- <-].
  - destruct (frame_commands fr a w) as [[a1 w1]| |] eqn:Hstep; try discriminate.
    cbn [mbind outcome_bind bind]. apply IH.
    exact (frame_commands_session _ _ _ _ _ _ Hinv Hstep).
Qed.

(** C3 (as amended). Take any run: [App.__init__], then any number of
    frames. The run starts in LoggedOff (an existing vault) or in Empty
    (a new vault). In a run on an existing vault the encoder is present
    exactly in the states behind a successful login, which are the
    states that pass the guard of the "Reset.." menu and
    ConfirmHardReset, and it is absent exactly in LoggedOff and
    InvalidPassword: a failed login creates none. In a run on a new
    vault the encoder is absent exactly in Empty and InvalidNewPassword:
    the registration creates it before the state becomes LoggedOff, so
    there it is present in LoggedOff and InvalidPassword too. And no
    frame discards an encoder: the code has no logoff. *)
Theorem encoder_presence (w : World) (custom_dir : option Path) (home : Path) (tok : bytes)
    (frs : list Frame) (a0 a : App) (w0 w1 : World) :
  App_init w custom_dir home tok = Ok (a0, w0) ->
  render_frames frs a0 w0 = Ok (a, w1) ->
  (state a0 = LOGGEDOFF \/ state a0 = EMPTY) /\
  (state a0 = LOGGEDOFF ->
   (is_Some (encoder a) <->
    reset_menu_allowed (state a) = true \/ state a = CONFIRMHARDRESET) /\
   (encoder a = None <-> state a = LOGGEDOFF \/ state a = INVALIDPASSWORD)) /\
  (state a0 = EMPTY ->
   (encoder a = None <-> state a = EMPTY \/ state a = INVALIDNEWPASSWORD)) /\
  (forall fr a' w', is_Some (encoder a) -> frame_commands fr a w1 = Ok (a', w') ->
     is_Some (encoder a')).
Proof.
  intros Hinit Hrun. destruct (App_init_session _ _ _ _ _ _ Hinit) as [Hst Hnone].
  assert (Hinv0 : session_inv (state a0) a0).
  { unfold session_inv. destruct Hst as [Hs|Hs]; rewrite Hs; auto. }
  pose proof (render_frames_session _ _ _ _ _ _ Hinv0 Hrun) as Hinv.
  split; [exact Hst|]. split; [|split].
  - intros Hs. rewrite Hs in Hinv. unfold session_inv in Hinv.
    destruct (encoder a) as [e|]; destruct (state a);
      cbn [reset_menu_allowed ge lt value Z.ltb Z.compare negb] in *;
      (split; split; intros H);
      repeat match goal with
      | H : _ /\ _ |- _ => destruct H
      | H : _ \/ _ |- _ => destruct H
      | H : is_Some None |- _ => destruct H as [? [=]]
      end;
      try contradiction; try discriminate; eauto.
  - intros Hs. rewrite Hs in Hinv. unfold session_inv in Hinv.
    destruct (encoder a) as [e|]; destruct (state a);
      (split; intros H);
      repeat match goal with
      | H : _ /\ _ |- _ => destruct H
      | H : _ \/ _ |- _ => destruct H
      | H : is_Some None |- _ => destruct H as [? [=]]
      end;
      try contradiction; try discriminate; eauto.
  - intros fr a' w' He H. unfold session_inv in Hinv.
    destruct (quit_cases fr) as [Hq|[Hq1 Hq2]]; [now rewrite (frame_quit _ _ _ Hq) in H|].
    destruct (reset_menu_allowed (state a)) eqn:Hg.
    { destruct (frame_logged_on_effect _ _ _ _ _ Hg H) as (Hsame & _). now rewrite Hsame. }
    destruct (state a) eqn:Hsa; try contradiction; try discriminate Hg.
    + rewrite frame_idle in H by auto. now injection H as <- <-.
    + destruct Hinv as [_ Hn]. rewrite Hn in He. now destruct He as [? [=]].
    + destruct Hinv as [_ Hn]. rewrite Hn in He. now destruct He as [? [=]].
    + rewrite frame_LOGGEDOFF in H by assumption. cbv zeta in H. app_fields.
      destruct (_ && _); [|now injection H as <- <-].
      destruct (Config.password_hash _) as [h| |]; try discriminate H.
      cbn [mbind outcome_bind bind] in H.
      destruct (verify_password _ _ _) as [[]| |]; try discriminate H;
        cbn [mbind outcome_bind bind] in H.
      * destruct (Encoder_init _ _) as [e| |]; try discriminate H.
        injection H as <- <-. app_fields. eauto.
      * now injection H as <- <-.
    + rewrite frame_INVALIDPASSWORD in H by assumption.
      destruct (confirm_clicked fr); now injection H as <- <-.
Qed.

(** Registration of [strong_password] on the fresh vault. *)
Lemma registered :
  exists e w1,
    Encoder_init strong_password salt0 = Ok e /\
    frame_commands (submit strong_password) fresh_app fresh_world
    = Ok ({| encoder := Some e; user_input := []; user_input2 := [];
             config := set_password_hash (Password.password_hash e) fresh_config;
             state := LOGGEDOFF; db := {| _cursor := Some (Records []) |} |}, w1).
Proof.
  destruct (Encoder_init_encoded strong_password salt0 _ _ eq_refl eq_refl)
    as (e & He & _ & _).
  exists e. eexists. split; [exact He|].
  rewrite frame_EMPTY by reflexivity. cbv zeta.
  change (user_input (set_user_input (input_text (typed (submit strong_password))
            (user_input fresh_app)) fresh_app)) with strong_password.
  change (confirm_clicked (submit strong_password)) with true.
  change (password_meets_requirements strong_password) with true.
  cbn [andb negb length Nat.eqb strong_password].
  change (password_salt (config (set_user_input _ fresh_app))) with salt0.
  unfold strong_password in He |- *. cbv iota.
  rewrite He. reflexivity.
Qed.

Lemma registered_reachable :
  exists e w1,
    Encoder_init strong_password salt0 = Ok e /\
    reachable ({| encoder := Some e; user_input := []; user_input2 := [];
                  config := set_password_hash (Password.password_hash e) fresh_config;
                  state := LOGGEDOFF; db := {| _cursor := Some (Records []) |} |}, w1).
Proof.
  destruct registered as (e & w1 & He & Hstep).
  exists e, w1. split; [exact He|]. exact (reach_frame _ _ _ _ fresh_reachable Hstep).
Qed.

(** C7 (as amended). From state Empty, when the user confirms a password
    that satisfies [password_meets_requirements], the key is derived, it
    becomes the verifier of the configuration, the configuration record
    and the verifier are written to the storage directory, and the state
    becomes LoggedOff. When the user confirms a non-empty password that
    fails the requirements the state becomes InvalidNewPassword, and the
    configuration and the files are unchanged. A confirmation with an
    empty field is ignored: the state stays Empty. *)
Theorem register_password (fr : Frame) (a : App) (w : World) :
  reachable (a, w) -> state a = EMPTY ->
  key_ctrl_q fr = false -> clicked_quit fr = false -> confirm_clicked fr = true ->
  let password := input_text (typed fr) (user_input a) in
  let cfg := config a in
  (password_meets_requirements password = true ->
   exists key a' w',
     derive_key password (password_salt cfg) = Ok key /\
     frame_commands fr a w = Ok (a', w') /\
     state a' = LOGGEDOFF /\
     config a' = set_password_hash key cfg /\
     files w' !! join (storage_pth cfg) CONFIGFILENAME
       = Some (model_dump_json (storage_pth cfg) (password_salt cfg)) /\
     files w' !! join (storage_pth cfg) HASHFILENAME = Some key) /\
  (password_meets_requirements password = false -> password <> [] ->
   exists a', frame_commands fr a w = Ok (a', w) /\
              state a' = INVALIDNEWPASSWORD /\ config a' = cfg) /\
  (password = [] ->
   exists a', frame_commands fr a w = Ok (a', w) /\ state a' = EMPTY /\ config a' = cfg).
Proof.
  intros Hr Hs Hq1 Hq2 Hc. cbv zeta.
  pose proof (reachable_inv _ Hr) as Hinv. unfold app_inv in Hinv. cbn [fst] in Hinv.
  rewrite Hs in Hinv. destruct Hinv as [_ Hsalt].
  rewrite (frame_EMPTY fr a w Hq1 Hq2 Hs). cbv zeta. rewrite Hc. app_fields.
  set (password := input_text (typed fr) (user_input a)).
  split; [|split].
  - intros Hok. rewrite Hok.
    destruct (str_encode_text _ (password_meets_requirements_text _ Hok)) as [pb Hpb].
    destruct (str_encode_text _ Hsalt) as [sb Hsb].
    destruct (Encoder_init_encoded _ _ _ _ Hpb Hsb) as (e & He & _ & Hh).
    assert (Hlen : negb (length password =? 0)%nat = true).
    { apply password_meets_requirements_spec in Hok as [Hlen _].
      destruct password; [cbn in Hlen; lia|reflexivity]. }
    rewrite Hlen. cbn [andb]. rewrite He. cbn [mbind outcome_bind bind].
    app_fields. unfold dump. cbn [_password_hash set_password_hash storage_pth password_salt].
    exists (scrypt pb sb (2 ^ 14) 8 1 32). do 2 eexists.
    split; [apply (derive_key_encoded _ _ _ _ Hpb Hsb)|].
    split; [reflexivity|]. app_fields. rewrite Hh.
    split; [reflexivity|]. split; [reflexivity|].
    cbn [files write_file]. split.
    + rewrite lookup_insert_ne by apply config_hash_paths. now rewrite lookup_insert_eq.
    + now rewrite lookup_insert_eq.
  - intros Hbad Hne. rewrite Hbad.
    destruct password as [|c password']; [contradiction|]. cbn [length Nat.eqb negb andb].
    eexists. split; [reflexivity|]. now app_fields.
  - intros ->. cbn [length Nat.eqb negb andb].
    eexists. split; [reflexivity|]. now app_fields.
Qed.

(** C8 (as amended). From state LoggedOff with a stored verifier, when
    the user confirms a non-empty password: if [verify_password] accepts
    it against the verifier, the encoder is built and the state becomes
    LoggedOn; if [verify_password] rejects it, the state becomes
    InvalidPassword, and the configuration, the files of the storage
    directory and the database are unchanged. A confirmation with an empty
    field is ignored: the state stays LoggedOff. *)
Theorem login (fr : Frame) (a : App) (w : World) (h : bytes) :
  state a = LOGGEDOFF ->
  key_ctrl_q fr = false -> clicked_quit fr = false -> confirm_clicked fr = true ->
  Config.password_hash (config a) = Ok h ->
  let password := input_text (typed fr) (user_input a) in
  let salt := password_salt (config a) in
  (password <> [] -> verify_password password salt h = Ok true ->
   exists e a',
     Encoder_init password salt = Ok e /\
     frame_commands fr a w = Ok (a', w) /\
     state a' = LOGGEDON /\ encoder a' = Some e /\
     config a' = config a /\ db a' = db a) /\
  (password <> [] -> verify_password password salt h = Ok false ->
   exists a',
     frame_commands fr a w = Ok (a', w) /\
     state a' = INVALIDPASSWORD /\ encoder a' = encoder a /\
     config a' = config a /\ db a' = db a) /\
  (password = [] ->
   exists a',
     frame_commands fr a w = Ok (a', w) /\
     state a' = LOGGEDOFF /\ encoder a' = encoder a /\
     config a' = config a /\ db a' = db a).
Proof.
  intros Hs Hq1 Hq2 Hc Hh. cbv zeta.
  rewrite (frame_LOGGEDOFF fr a w Hq1 Hq2 Hs). cbv zeta. rewrite Hc. app_fields.
  set (password := input_text (typed fr) (user_input a)) in *.
  split; [|split].
  - intros Hne Hv.
    destruct password as [|c password'] eqn:Hpw; [contradiction|]. rewrite <- Hpw in *.
    replace (negb _) with true by (rewrite Hpw; reflexivity). cbn [andb].
    rewrite Hh. cbn [mbind outcome_bind bind]. rewrite Hv. cbn [mbind outcome_bind bind].
    destruct (verify_password_returns _ _ _ _ Hv) as (pb & sb & Hpb & Hsb).
    destruct (Encoder_init_encoded _ _ _ _ Hpb Hsb) as (e & He & _ & _).
    rewrite He. cbn [mbind outcome_bind bind].
    exists e. eexists. split; [reflexivity|]. split; [reflexivity|]. now app_fields.
  - intros Hne Hv.
    destruct password as [|c password'] eqn:Hpw; [contradiction|]. rewrite <- Hpw in *.
    replace (negb _) with true by (rewrite Hpw; reflexivity). cbn [andb].
    rewrite Hh. cbn [mbind outcome_bind bind]. rewrite Hv. cbn [mbind outcome_bind bind].
    eexists. split; [reflexivity|]. now app_fields.
  - intros ->. cbn [length Nat.eqb negb andb].
    eexists. split; [reflexivity|]. now app_fields.
Qed.

(** The frame of state AddRecord in which the user confirms a non-empty
    title and body: the two debug messages encrypt the title, then the
    body, and the fields are cleared. *)
Lemma frame_ADDRECORD (fr : Frame) (a : App) (w : World) (e : Encoder) :
  state a = ADDRECORD -> encoder a = Some e ->
  key_ctrl_q fr = false -> clicked_quit fr = false ->
  clicked_change_pwd fr = false -> clicked_reset fr = false ->
  add_btn fr = false -> find_btn fr = false -> confirm_clicked fr = true ->
  input_text (typed fr) (user_input a) <> [] ->
  input_text (typed2 fr) (user_input2 a) <> [] ->
  frame_commands fr a w =
    (encode e (fst (draw1 fr)) (snd (draw1 fr)) (input_text (typed fr) (user_input a));;
     encode e (fst (draw2 fr)) (snd (draw2 fr)) (input_text (typed2 fr) (user_input2 a));;
     Ok ({| encoder := Some e; user_input := []; user_input2 := [];
            config := config a; state := LOGGEDON; db := db a |}, w)).
Proof.
  intros Hs He Hq1 Hq2 Hm1 Hm2 Hb1 Hb2 Hc Ht Hb.
  rewrite frame_logged_on by (try assumption; now rewrite Hs). cbv zeta.
  unfold reset_menu, draw_main_options_menu, add_record_window.
  rewrite Hm1, Hm2, Hb1, Hb2, Hs, Hc. cbn [main_branch ge le lt value Z.ltb Z.compare negb andb orb].
  destruct (decide (ADDRECORD = ADDRECORD)) as [_|Hne]; [|contradiction].
  app_fields. rewrite He.
  destruct (input_text (typed fr) (user_input a)) as [|c1 t1] eqn:E1; [contradiction|].
  destruct (input_text (typed2 fr) (user_input2 a)) as [|c2 t2] eqn:E2; [contradiction|].
  change (main_branch ADDRECORD) with true.
  cbn [length Nat.eqb negb andb]. rewrite <- He. reflexivity.
Qed.

(** C5 (as amended). In state AddRecord, when the user confirms a
    non-empty title and a non-empty body, the frame encrypts the title
    and then the body with the session's cipher, clears both fields and
    sets the state to LoggedOn; the session, the configuration, the
    database and the files are left as they were. Both texts do go
    through the cipher: the frame returns only when both encryptions
    return, a failure of the title's encryption is the frame's, and so
    is a failure of the body's after the title has been encrypted. With
    text in both fields, 16 random octets for each encryption and a
    clock that fits 8 octets, both encryptions return a token. *)
Theorem add_record_confirm (fr : Frame) (a : App) (w : World) (e : Encoder) :
  state a = ADDRECORD -> encoder a = Some e ->
  key_ctrl_q fr = false -> clicked_quit fr = false ->
  clicked_change_pwd fr = false -> clicked_reset fr = false ->
  add_btn fr = false -> find_btn fr = false -> confirm_clicked fr = true ->
  let title := input_text (typed fr) (user_input a) in
  let body := input_text (typed2 fr) (user_input2 a) in
  title <> [] -> body <> [] ->
  let a' := {| encoder := Some e; user_input := []; user_input2 := [];
               config := config a; state := LOGGEDON; db := db a |} in
  let title_token := encode e (fst (draw1 fr)) (snd (draw1 fr)) title in
  let body_token := encode e (fst (draw2 fr)) (snd (draw2 fr)) body in
  (unicode_text title -> unicode_text body ->
   fst (draw1 fr) < 2 ^ 64 -> fst (draw2 fr) < 2 ^ 64 ->
   length (snd (draw1 fr)) = 16%nat -> length (snd (draw2 fr)) = 16%nat ->
   exists t1 t2,
     title_token = Ok t1 /\ body_token = Ok t2 /\
     frame_commands fr a w = Ok (a', w)) /\
  (forall r, frame_commands fr a w = Ok r ->
     r = (a', w) /\ exists t1 t2, title_token = Ok t1 /\ body_token = Ok t2) /\
  (forall x, title_token = Raise x -> frame_commands fr a w = Raise x) /\
  (forall t1 x, title_token = Ok t1 -> body_token = Raise x ->
     frame_commands fr a w = Raise x).
Proof.
  intros Hs He Hq1 Hq2 Hm1 Hm2 Hb1 Hb2 Hc. cbv zeta. intros Ht Hb.
  rewrite (frame_ADDRECORD fr a w e) by assumption.
  split; [|split; [|split]].
  - intros Htt Hbt Hn1 Hn2 Hv1 Hv2.
    destruct (str_encode_text _ Htt) as [tb Htb].
    destruct (str_encode_text _ Hbt) as [bb Hbb].
    rewrite (encode_token e _ _ _ _ Htb Hv1 Hn1), (encode_token e _ _ _ _ Hbb Hv2 Hn2).
    do 2 eexists. repeat split; reflexivity.
  - intros r.
    destruct (encode e (fst (draw1 fr)) _ _) as [t1| |]; try discriminate.
    cbn [mbind outcome_bind bind].
    destruct (encode e (fst (draw2 fr)) _ _) as [t2| |]; try discriminate.
    cbn [mbind outcome_bind bind]. intros [= <-]. split; [reflexivity|]. eauto.
  - intros x Hx. rewrite Hx. reflexivity.
  - intros t1 x H1 H2. rewrite H1. cbn [mbind outcome_bind bind]. rewrite H2. reflexivity.
Qed.

Lemma gen_salt_total tok : exists salt, gen_salt tok = Ok salt.
Proof.
  unfold gen_salt, token_urlsafe, ascii_decode.
  rewrite (proj2 (forallb_forall _ _)); [eauto|].
  intros b Hb. apply N.ltb_lt.
  pose proof (urlsafe_b64encode_ascii tok) as Ha. rewrite Forall_forall in Ha.
  apply Ha, list_elem_of_In.
  unfold Base64.rstrip_pad in Hb. apply in_rev in Hb. apply in_rev.
  revert Hb. generalize (rev (Base64.urlsafe_b64encode tok)) as l.
  induction l as [|x l IH]; cbn [Base64.lstrip_pad]; [tauto|].
  destruct (decide (x = Base64.PAD)); [right; auto|tauto].
Qed.

(** Start-up on a storage directory that holds a configuration record
    whose verifier file is missing. *)
Lemma App_init_config_only (w w' : World) (d home : Path) (tok : bytes) (dbh : Database)
    (content : bytes) (p : Path) (salt : str) :
  path_exists w d = true -> is_dir w d = true ->
  Database_init w d = Ok (dbh, w') ->
  files w !! join d CONFIGFILENAME = Some content ->
  json_load content = Loaded p salt ->
  path_exists w (join p HASHFILENAME) = false ->
  App_init w (Some d) home tok
  = Ok ({| encoder := None; user_input := []; user_input2 := [];
           config := {| storage_pth := p; password_salt := salt;
                        _password_hash := None |};
           state := LOGGEDOFF; db := dbh |}, w').
Proof.
  intros Hd1 Hd2 Hdb Hcfg Hload Hhash.
  rewrite (App_init_custom _ _ _ _ Hd1 Hd2). unfold App_init_at.
  replace (path_exists w (join d CONFIGFILENAME)) with true
    by (unfold path_exists; rewrite Hcfg;
        rewrite bool_decide_eq_true_2 by eauto; reflexivity).
  unfold from_json. rewrite Hcfg, Hload. unfold AppConfig_init. rewrite Hhash.
  cbn [mbind outcome_bind bind]. rewrite Hdb. reflexivity.
Qed.

(** Start-up on a storage directory that holds a verifier file and no
    configuration record. *)
Lemma App_init_hash_only (w w' : World) (d home : Path) (tok : bytes) (dbh : Database)
    (h : bytes) :
  path_exists w d = true -> is_dir w d = true ->
  Database_init w d = Ok (dbh, w') ->
  path_exists w (join d CONFIGFILENAME) = false ->
  files w !! join d HASHFILENAME = Some h ->
  exists salt,
    gen_salt tok = Ok salt /\
    App_init w (Some d) home tok
    = Ok ({| encoder := None; user_input := []; user_input2 := [];
             config := {| storage_pth := d; password_salt := salt;
                          _password_hash := Some h |};
             state := EMPTY; db := dbh |}, w').
Proof.
  intros Hd1 Hd2 Hdb Hcfg Hhash. destruct (gen_salt_total tok) as [salt Hsalt].
  exists salt. split; [exact Hsalt|].
  rewrite (App_init_custom _ _ _ _ Hd1 Hd2). unfold App_init_at.
  rewrite Hcfg, Hsalt. cbn [mbind outcome_bind bind]. unfold AppConfig_init.
  replace (path_exists w (join d HASHFILENAME)) with true
    by (unfold path_exists; rewrite Hhash;
        rewrite bool_decide_eq_true_2 by eauto; reflexivity).
  rewrite Hhash. cbn [mbind outcome_bind bind]. rewrite Hdb. reflexivity.
Qed.

(** A frame of state LoggedOff when the configuration has no verifier:
    a confirmed non-empty password ends the process with status 1, and
    any other frame only takes over what was typed. *)
Lemma frame_no_verifier (fr : Frame) (a : App) (w : World) :
  state a = LOGGEDOFF -> _password_hash (config a) = None ->
  frame_commands fr a w =
    if key_ctrl_q fr || clicked_quit fr then Exit 0
    else if confirm_clicked fr
            && negb (length (input_text (typed fr) (user_input a)) =? 0)%nat
    then Exit 1
    else Ok (set_user_input (input_text (typed fr) (user_input a)) a, w).
Proof.
  intros Hs Hh.
  destruct (quit_cases fr) as [Hq|[Hq1 Hq2]].
  - rewrite (frame_quit _ _ _ Hq). now destruct Hq as [-> | ->]; rewrite ?orb_true_r.
  - rewrite frame_LOGGEDOFF by assumption. rewrite Hq1, Hq2. cbv zeta. app_fields.
    cbn [orb]. destruct (_ && _); [|reflexivity].
    unfold Config.password_hash. now rewrite Hh.
Qed.

(** Without a verifier no run leaves LoggedOff. *)
Lemma render_frames_no_verifier (frs : list Frame) : forall (a a1 : App) (w w1 : World),
  state a = LOGGEDOFF -> _password_hash (config a) = None ->
  render_frames frs a w = Ok (a1, w1) ->
  w1 = w /\ state a1 = LOGGEDOFF /\ config a1 = config a /\ encoder a1 = encoder a /\
  db a1 = db a.
Proof.
  induction frs as [|fr frs IH]; intros a a1 w w1 Hs Hh; cbn [render_frames].
  - intros [= <- <-]. auto.
  - rewrite (frame_no_verifier fr a w Hs Hh).
    destruct (key_ctrl_q fr || clicked_quit fr); [discriminate|].
    destruct (_ && _); [discriminate|]. cbn [mbind outcome_bind bind].
    intros Hrun. apply IH in Hrun; [exact Hrun|exact Hs|exact Hh].
Qed.

(** C10 (as amended). Start-up on an existing storage directory whose
    database opens. A configuration record without the verifier file is
    loaded without any error: the application starts in LoggedOff with no
    verifier. The missing verifier is reported, by ending the process
    with status 1, when a login is attempted and only then: however many
    frames have passed, the state is still LoggedOff with the same
    configuration, and a frame ends the process with status 1 exactly
    when the user does not quit and confirms a non-empty password; any
    other frame quits with status 0 or takes over what was typed. A
    verifier file without a configuration record is not detected at
    all: the application starts in Empty as for a new vault, with a
    fresh salt and the old file's content as verifier. *)
Theorem incomplete_vault (w w' : World) (d home : Path) (tok : bytes) (dbh : Database) :
  path_exists w d = true -> is_dir w d = true ->
  Database_init w d = Ok (dbh, w') ->
  (forall content p salt,
     files w !! join d CONFIGFILENAME = Some content ->
     json_load content = Loaded p salt ->
     path_exists w (join p HASHFILENAME) = false ->
     let a := {| encoder := None; user_input := []; user_input2 := [];
                 config := {| storage_pth := p; password_salt := salt;
                              _password_hash := None |};
                 state := LOGGEDOFF; db := dbh |} in
     App_init w (Some d) home tok = Ok (a, w') /\
     (forall fr, key_ctrl_q fr = false -> clicked_quit fr = false ->
        confirm_clicked fr = true -> input_text (typed fr) [] <> [] ->
        frame_commands fr a w' = Exit 1) /\
     (forall frs a1 w1,
        render_frames frs a w' = Ok (a1, w1) ->
        w1 = w' /\ state a1 = LOGGEDOFF /\ config a1 = config a /\
        encoder a1 = None /\ db a1 = dbh /\
        forall fr,
          (frame_commands fr a1 w1 = Exit 1 <->
           key_ctrl_q fr = false /\ clicked_quit fr = false /\
           confirm_clicked fr = true /\ input_text (typed fr) (user_input a1) <> []) /\
          (frame_commands fr a1 w1 = Exit 1 \/ frame_commands fr a1 w1 = Exit 0 \/
           frame_commands fr a1 w1
           = Ok (set_user_input (input_text (typed fr) (user_input a1)) a1, w1)))) /\
  (forall h,
     path_exists w (join d CONFIGFILENAME) = false ->
     files w !! join d HASHFILENAME = Some h ->
     exists salt,
       gen_salt tok = Ok salt /\
       App_init w (Some d) home tok
       = Ok ({| encoder := None; user_input := []; user_input2 := [];
                config := {| storage_pth := d; password_salt := salt;
                             _password_hash := Some h |};
                state := EMPTY; db := dbh |}, w')).
Proof.
  intros Hd1 Hd2 Hdb. split.
  - intros content p salt Hcfg Hload Hhash. cbv zeta. split; [|split].
    + exact (App_init_config_only _ _ _ _ _ _ _ _ _ Hd1 Hd2 Hdb Hcfg Hload Hhash).
    + intros fr Hq1 Hq2 Hc Hne.
      rewrite frame_LOGGEDOFF by (try assumption; reflexivity). cbv zeta. rewrite Hc.
      app_fields. destruct (input_text (typed fr) []); [contradiction|]. reflexivity.
    + intros frs a1 w1 Hrun.
      apply render_frames_no_verifier in Hrun as (-> & Hs & Hcf & He & Hd);
        [|reflexivity..].
      cbn [config encoder db] in Hcf, He, Hd.
      split; [reflexivity|]. split; [exact Hs|]. split; [exact Hcf|].
      split; [exact He|]. split; [exact Hd|].
      intros fr. rewrite (frame_no_verifier fr a1 w') by (rewrite ?Hcf; auto).
      destruct (key_ctrl_q fr), (clicked_quit fr), (confirm_clicked fr);
        cbn [orb andb]; try (split; [split; [discriminate|intros (? & ? & ? & ?); discriminate]|auto]).
      destruct (input_text (typed fr) (user_input a1)) as [|c s];
        cbn [length Nat.eqb negb].
      * split; [split; [discriminate|intros (_ & _ & _ & H); contradiction]|auto].
      * split; [split; [intros _; repeat split; discriminate|reflexivity]|auto].
  - intros h Hcfg Hhash.
    exact (App_init_hash_only _ _ _ _ _ _ _ Hd1 Hd2 Hdb Hcfg Hhash).
Qed.
End AccessClaims.

(** A storage directory that holds a configuration record and no
    verifier file. *)
Definition config_only_world {J : Json} : World :=
  {| files := {[ join vault_dir CONFIGFILENAME := model_dump_json vault_dir salt0 ]};
     dirs := {[vault_dir]}; sqlite := ∅ |}.

(** A storage directory that holds a verifier file and no configuration
    record. *)
Definition hash_only_world : World :=
  {| files := {[ join vault_dir HASHFILENAME := repeat x2a 32 ]};
     dirs := {[vault_dir]}; sqlite := ∅ |}.

(** C10, the claim as stated, in both directions: whatever the
    implementation of the configuration record, neither a vault whose
    record exists and whose verifier file is missing, nor a vault whose
    verifier file exists and whose record is missing, makes start-up
    fail: the first is loaded, the second is set up as a new vault. *)
Lemma incomplete_vault_accepted :
  (~ exists J : Json,
       forall (w : World) (d home : Path) (tok content : bytes) (p : Path) (salt : str),
         path_exists w d = true -> is_dir w d = true ->
         files w !! join d CONFIGFILENAME = Some content ->
         json_load content = Loaded p salt ->
         path_exists w (join p HASHFILENAME) = false ->
         forall s, App_init w (Some d) home tok <> Ok s) /\
  (~ exists J : Json,
       forall (w : World) (d home : Path) (tok h : bytes),
         path_exists w d = true -> is_dir w d = true ->
         path_exists w (join d CONFIGFILENAME) = false ->
         files w !! join d HASHFILENAME = Some h ->
         forall s, App_init w (Some d) home tok <> Ok s).
Proof.
  split.
  - intros (J & H).
    assert (Htext : unicode_text salt0) by repeat constructor.
    pose proof (App_init_config_only config_only_world
                  (create_db (join vault_dir DBFILENAME) [] config_only_world)
                  vault_dir home_dir entropy {| _cursor := Some (Records []) |} _ vault_dir salt0
                  eq_refl eq_refl eq_refl eq_refl (json_load_dump _ _ Htext) eq_refl)
      as Hinit.
    exact (H config_only_world vault_dir home_dir entropy _ vault_dir salt0
             eq_refl eq_refl eq_refl (json_load_dump _ _ Htext) eq_refl _ Hinit).
  - intros (J & H).
    destruct (App_init_hash_only hash_only_world
                (create_db (join vault_dir DBFILENAME) [] hash_only_world)
                vault_dir home_dir entropy {| _cursor := Some (Records []) |} (repeat x2a 32)
                eq_refl eq_refl eq_refl eq_refl eq_refl) as (salt & _ & Hinit).
    exact (H hash_only_world vault_dir home_dir entropy (repeat x2a 32)
             eq_refl eq_refl eq_refl eq_refl _ Hinit).
Qed.

(** C8, the claim as stated: whatever the primitives, after a password
    has been registered a confirmation with an empty field moves neither
    to LoggedOn nor to InvalidPassword, whether [verify_password] accepts
    the empty password or not. *)
Lemma empty_login_ignored :
  ~ exists (C : Crypto) (J : Json),
      forall (fr : Frame) (a : App) (w : World) (h : bytes),
        reachable (a, w) -> state a = LOGGEDOFF ->
        key_ctrl_q fr = false -> clicked_quit fr = false -> confirm_clicked fr = true ->
        Config.password_hash (config a) = Ok h ->
        let password := input_text (typed fr) (user_input a) in
        let salt := password_salt (config a) in
        (verify_password password salt h = Ok true ->
         exists a' w', frame_commands fr a w = Ok (a', w') /\ state a' = LOGGEDON) /\
        (verify_password password salt h = Ok false ->
         exists a' w', frame_commands fr a w = Ok (a', w') /\ state a' = INVALIDPASSWORD).
Proof.
  intros (C & J & H).
  destruct (registered_reachable (C := C) (J := J)) as (e & w1 & He & Hr).
  assert (Hk : exists b k, Password.password_hash e = b :: k).
  { pose proof (Encoder_init_encoded strong_password salt0 _ _ eq_refl eq_refl)
      as (e' & He' & _ & Hh).
    rewrite He in He'. injection He' as <-.
    pose proof (scrypt_length (bytes_of_string "Str0ng!Pass")
                  (bytes_of_string "AAAAAAAAAAAAAAAAAAAAAA") (2 ^ 14) 8 1 32) as Hlen.
    change (Password.password_hash e
            = scrypt (bytes_of_string "Str0ng!Pass")
                (bytes_of_string "AAAAAAAAAAAAAAAAAAAAAA") (2 ^ 14) 8 1 32) in Hh.
    rewrite <- Hh in Hlen. destruct (Password.password_hash e); [discriminate Hlen|eauto]. }
  destruct Hk as (b & k & Hk).
  specialize (H (submit []) _ _ (b :: k) Hr eq_refl eq_refl eq_refl eq_refl).
  cbn [config set_password_hash Config.password_hash _password_hash] in H.
  rewrite Hk in H. specialize (H eq_refl). cbv zeta in H. destruct H as [H1 H2].
  change (input_text (typed (submit [])) (user_input _)) with (@nil N) in H1, H2.
  change (password_salt _) with salt0 in H1, H2.
  rewrite (verify_password_encoded [] salt0 [] _ (b :: k) eq_refl eq_refl) in H1, H2.
  destruct (bool_decide _).
  - destruct (H1 eq_refl) as (a' & w' & Hstep & Hs). injection Hstep as <- <-. discriminate Hs.
  - destruct (H2 eq_refl) as (a' & w' & Hstep & Hs). injection Hstep as <- <-. discriminate Hs.
Qed.

(** C3, the claim as stated: whatever the primitives, after a password
    has been registered the application is in LoggedOff, which is not an
    authenticated state, and holds the encoder. *)
Lemma encoder_kept_when_logged_off :
  ~ exists (C : Crypto) (J : Json),
      forall (a : App) (w : World),
        reachable (a, w) -> is_Some (encoder a) -> main_branch (state a) = true.
Proof.
  intros (C & J & H).
  destruct (registered_reachable (C := C) (J := J)) as (e & w1 & _ & Hr).
  assert (Hmain := H _ _ Hr (ltac:(eauto) : is_Some (Some e))).
  discriminate Hmain.
Qed.

(** C7, the claim as stated: the empty password fails the requirements,
    and confirming it leaves the application in Empty. *)
Lemma empty_password_ignored :
  ~ exists (C : Crypto) (J : Json),
      forall (fr : Frame) (a : App) (w : World),
        reachable (a, w) -> state a = EMPTY ->
        key_ctrl_q fr = false -> clicked_quit fr = false -> confirm_clicked fr = true ->
        password_meets_requirements (input_text (typed fr) (user_input a)) = false ->
        exists a' w', frame_commands fr a w = Ok (a', w') /\ state a' = INVALIDNEWPASSWORD.
Proof.
  intros (C & J & H).
  destruct (H (submit []) fresh_app fresh_world fresh_reachable eq_refl eq_refl eq_refl
              eq_refl eq_refl) as (a' & w' & Hstep & Hs).
  injection Hstep as <- <-. discriminate Hs.
Qed.

(** The note used in the examples, and the frame in which the user fills
    in both fields of the AddRecord window and confirms. *)
Definition note : str := of_string "meet at noon" ++ [0x20AC].
Definition submit_note (title body : str) : Frame :=
  {| key_ctrl_q := false; clicked_quit := false; clicked_change_pwd := false;
     clicked_reset := false; typed := Some title; typed2 := Some body;
     confirm_clicked := true; add_btn := false; find_btn := false;
     draw1 := (1699999999, entropy); draw2 := (1699999999, entropy) |}.
(** The application in AddRecord, logged on with the session [e], its
    database empty. *)
Definition adding_app (e : Encoder) : App :=
  {| encoder := Some e; user_input := []; user_input2 := [];
     config := set_password_hash (Password.password_hash e) fresh_config;
     state := ADDRECORD; db := {| _cursor := Some (Records []) |} |}.

(** C5, the claim as stated: whatever the primitives, after the user has
    confirmed the title "groceries" and a body in state AddRecord, the
    database holds no record under that title, encrypted or not. *)
Lemma record_not_stored :
  ~ exists (C : Crypto) (J : Json),
      forall (fr : Frame) (a : App) (w : World) (e : Encoder),
        state a = ADDRECORD -> encoder a = Some e ->
        key_ctrl_q fr = false -> clicked_quit fr = false ->
        clicked_change_pwd fr = false -> clicked_reset fr = false ->
        add_btn fr = false -> find_btn fr = false -> confirm_clicked fr = true ->
        let title := input_text (typed fr) (user_input a) in
        let body := input_text (typed2 fr) (user_input2 a) in
        title <> [] -> body <> [] -> unicode_text title -> unicode_text body ->
        fst (draw1 fr) < 2 ^ 64 -> fst (draw2 fr) < 2 ^ 64 ->
        length (snd (draw1 fr)) = 16%nat -> length (snd (draw2 fr)) = 16%nat ->
        exists a' w' token,
          frame_commands fr a w = Ok (a', w') /\ state a' = LOGGEDON /\
          fetch_record (db a') title = Ok (Some token) /\
          decode e token = Ok body.
Proof.
  intros (C & J & H).
  destruct (Encoder_init_encoded strong_password salt0 _ _ eq_refl eq_refl)
    as (e & _ & _ & _).
  assert (Ht : unicode_text (of_string "groceries")) by repeat constructor.
  assert (Hb : unicode_text note) by repeat constructor.
  destruct (H (submit_note (of_string "groceries") note) (adding_app e) fresh_world e
              eq_refl eq_refl eq_refl eq_refl eq_refl eq_refl eq_refl eq_refl eq_refl
              ltac:(discriminate) ltac:(discriminate) Ht Hb eq_refl eq_refl eq_refl eq_refl)
    as (a' & w' & token & Hstep & _ & Hfetch & _).
  rewrite (frame_ADDRECORD _ _ _ e) in Hstep by (reflexivity || discriminate).
  destruct (str_encode_text _ Ht) as [tb Htb]. destruct (str_encode_text _ Hb) as [bb Hbb].
  change (input_text (typed (submit_note (of_string "groceries") note))
            (user_input (adding_app e))) with (of_string "groceries") in Hstep.
  change (input_text (typed2 (submit_note (of_string "groceries") note))
            (user_input2 (adding_app e))) with note in Hstep.
  change (fst (draw1 (submit_note (of_string "groceries") note))) with 1699999999 in Hstep.
  change (fst (draw2 (submit_note (of_string "groceries") note))) with 1699999999 in Hstep.
  rewrite (encode_token e 1699999999 entropy _ _ Htb eq_refl eq_refl),
    (encode_token e 1699999999 entropy _ _ Hbb eq_refl eq_refl) in Hstep.
  injection Hstep as <- <-. discriminate Hfetch.
Qed.

(** ** The theorems on concrete input

    Each theorem with hypotheses is applied once, with the reference
    primitives, to the example vault. *)

Ltac text := repeat constructor.

(** The session of [strong_password] under the reference primitives. *)
Definition ref_session : Encoder :=
  Eval vm_compute in
    match Encoder_init (C := ref_crypto) strong_password salt0 with
    | Ok e => e
    | _ => {| _encoder := {| Fernet._signing_key := []; Fernet._encryption_key := [] |};
              password_hash := [] |}
    end.

(** The token of [note] at clock 1699999999, and the same token with its
    twelfth character ['_'] replaced by ['/']. *)
Definition ref_token : str :=
  Eval vm_compute in
    match encode (C := ref_crypto) ref_session 1699999999 entropy note with
    | Ok t => t
    | _ => []
    end.
Definition ref_token_slash : str :=
  Eval vm_compute in take 11 ref_token ++ 47 :: drop 12 ref_token.

Lemma encoder_round_trip_witness :
  exists e token,
    Encoder_init (C := ref_crypto) strong_password salt0 = Ok e /\
    encode (C := ref_crypto) e 1699999999 entropy note = Ok token /\
    decode (C := ref_crypto) e token = Ok note.
Proof.
  apply (encoder_round_trip (C := ref_crypto)); [text|text|text|reflexivity|reflexivity].
Defined.

Lemma verify_password_spec_witness :
  exists key,
    derive_key (C := ref_crypto) strong_password salt0 = Ok key /\
    verify_password (C := ref_crypto) strong_password salt0 key = Ok true /\
    (forall k, verify_password (C := ref_crypto) strong_password salt0 k
               = Ok (bool_decide (key = k))) /\
    (forall p2 k2,
       derive_key (C := ref_crypto) p2 salt0 = Ok k2 ->
       (verify_password (C := ref_crypto) strong_password salt0 k2 = Ok false
        <-> k2 <> key)).
Proof. apply (verify_password_spec (C := ref_crypto)); text. Defined.

Lemma decode_tampered_witness :
  (forall e2 : Encoder,
     decode (C := ref_crypto) e2 ref_token_slash = Raise InvalidToken \/
     authentic (C := ref_crypto) e2 ref_token_slash) /\
  (decode (C := ref_crypto) ref_session ref_token_slash = Raise InvalidToken \/
   decode (C := ref_crypto) ref_session ref_token_slash = Ok note \/
   exists tb xb data,
     str_encode ref_token_slash = Ok tb /\ str_encode note = Ok xb /\
     Base64.urlsafe_b64decode tb = Some data /\
     data <> token_data (C := ref_crypto) (_encoder ref_session) xb 1699999999 entropy /\
     hmac_sha256 (Crypto := ref_crypto) (Fernet._signing_key (_encoder ref_session))
       (drop_last 32 data) = take_last 32 data).
Proof.
  apply (decode_tampered (C := ref_crypto) ref_session 1699999999 entropy note ref_token);
    [split; reflexivity|reflexivity|vm_compute; reflexivity|text].
Defined.

(** With the reference primitives the changed token decodes to the note. *)
Example slash_token_decodes :
  ref_token_slash <> ref_token /\
  decode (C := ref_crypto) ref_session ref_token_slash = Ok note.
Proof. split; [discriminate|vm_compute; reflexivity]. Qed.

(** The vault that the registration of [strong_password] leaves. *)
Definition registered_world : World :=
  {| files := {[ join vault_dir CONFIGFILENAME
                   := model_dump_json (Json := ref_json) vault_dir salt0;
                 join vault_dir HASHFILENAME := Password.password_hash ref_session ]};
     dirs := {[vault_dir]}; sqlite := ∅ |}.

Lemma encoder_presence_witness :
  exists a0 w0 a,
    App_init (J := ref_json) registered_world (Some vault_dir) home_dir entropy
    = Ok (a0, w0) /\
    render_frames (C := ref_crypto) (J := ref_json) [submit (of_string "letmein1")] a0 w0
    = Ok (a, w0) /\
    state a0 = LOGGEDOFF /\ state a = INVALIDPASSWORD /\ encoder a = None.
Proof.
  eexists _, _, _.
  split; [vm_compute; reflexivity|]. split; [vm_compute; reflexivity|].
  split; [reflexivity|]. split; [reflexivity|].
  match goal with |- encoder ?a = None =>
    destruct (encoder_presence (C := ref_crypto) (J := ref_json) registered_world
                (Some vault_dir) home_dir entropy [submit (of_string "letmein1")]
                _ a _ _ ltac:(vm_compute; reflexivity) ltac:(vm_compute; reflexivity))
      as (_ & Hold & _)
  end.
  apply (Hold eq_refl). right. reflexivity.
Defined.

Lemma add_record_confirm_witness :
  let fr := submit_note (of_string "groceries") note in
  let a := adding_app ref_session in
  exists t1 t2,
    encode (C := ref_crypto) ref_session 1699999999 entropy (of_string "groceries") = Ok t1 /\
    encode (C := ref_crypto) ref_session 1699999999 entropy note = Ok t2 /\
    frame_commands (C := ref_crypto) (J := ref_json) fr a fresh_world
    = Ok ({| encoder := Some ref_session; user_input := []; user_input2 := [];
             config := config a; state := LOGGEDON; db := db a |}, fresh_world).
Proof.
  cbv zeta.
  destruct (add_record_confirm (C := ref_crypto) (J := ref_json)
              (submit_note (of_string "groceries") note) (adding_app ref_session)
              fresh_world ref_session
              eq_refl eq_refl eq_refl eq_refl eq_refl eq_refl eq_refl eq_refl eq_refl
              ltac:(discriminate) ltac:(discriminate)) as [Hok _].
  apply Hok; [text|text|reflexivity..].
Defined.

(** With the reference primitives: the record typed in is absent from the
    database afterwards. *)
Example note_is_lost :
  exists a',
    frame_commands (C := ref_crypto) (J := ref_json)
      (submit_note (of_string "groceries") note) (adding_app ref_session) fresh_world
    = Ok (a', fresh_world) /\
    state a' = LOGGEDON /\
    fetch_record (db a') (of_string "groceries") = Ok None.
Proof. eexists. split; [vm_compute; reflexivity|]. split; reflexivity. Qed.

(** A title that cannot be encoded stops the frame: the title is handed
    to the cipher before the body. *)
Example surrogate_title_raises :
  frame_commands (C := ref_crypto) (J := ref_json)
    (submit_note [0xD800] note) (adding_app ref_session) fresh_world
  = Raise UnicodeEncodeError.
Proof. vm_compute. reflexivity. Qed.

Lemma register_password_witness :
  exists key a' w',
    derive_key (C := ref_crypto) strong_password salt0 = Ok key /\
    frame_commands (C := ref_crypto) (J := ref_json) (submit strong_password)
      fresh_app fresh_world = Ok (a', w') /\
    state a' = LOGGEDOFF /\
    config a' = set_password_hash key fresh_config /\
    files w' !! join vault_dir CONFIGFILENAME
      = Some (model_dump_json (Json := ref_json) vault_dir salt0) /\
    files w' !! join vault_dir HASHFILENAME = Some key.
Proof.
  destruct (register_password (C := ref_crypto) (J := ref_json) (submit strong_password)
              fresh_app fresh_world fresh_reachable eq_refl eq_refl eq_refl eq_refl)
    as [Hok _].
  apply Hok. vm_compute. reflexivity.
Defined.

(** The application after registration, logged off. *)
Definition registered_app : App :=
  {| encoder := Some ref_session; user_input := []; user_input2 := [];
     config := set_password_hash (Password.password_hash ref_session) fresh_config;
     state := LOGGEDOFF; db := {| _cursor := Some (Records []) |} |}.

Lemma login_witness :
  exists e a',
    Encoder_init (C := ref_crypto) strong_password salt0 = Ok e /\
    frame_commands (C := ref_crypto) (J := ref_json) (submit strong_password)
      registered_app fresh_world = Ok (a', fresh_world) /\
    state a' = LOGGEDON /\ encoder a' = Some e /\
    config a' = config registered_app /\ db a' = db registered_app.
Proof.
  destruct (login (C := ref_crypto) (J := ref_json) (submit strong_password) registered_app
              fresh_world (Password.password_hash ref_session)
              eq_refl eq_refl eq_refl eq_refl eq_refl) as [Hok _].
  apply Hok; [discriminate|vm_compute; reflexivity].
Defined.

Lemma record_store_finite_map_witness :
  let t := [(of_string "groceries", of_string "gAAAAAB")] in
  let title := of_string "errands" in
  let body := of_string "gAAAAAC" in
  let db := {| _cursor := Some (Records t) |} in
  (exists db', add_record db title body = Ok db' /\
               fetch_record db' title = Ok (Some body) /\
               fetch_record db' (of_string "groceries") = Ok (Some (of_string "gAAAAAB"))) /\
  add_record db (of_string "groceries") body = Raise IntegrityError /\
  (exists db', del_record db (of_string "groceries") = Ok db' /\
               fetch_record db' (of_string "groceries") = Ok None) /\
  del_record db title = Ok db.
Proof.
  cbv zeta.
  destruct (record_store_finite_map [(of_string "groceries", of_string "gAAAAAB")]
              (of_string "errands") (of_string "gAAAAAC") ltac:(text) ltac:(text))
    as (Hget & Hadd & _ & _ & Hnoop & Hother).
  destruct (record_store_finite_map [(of_string "groceries", of_string "gAAAAAB")]
              (of_string "groceries") (of_string "gAAAAAC") ltac:(text) ltac:(text))
    as (_ & _ & Hdup & Hdel & _ & _).
  split; [|split; [|split]].
  - destruct (Hadd eq_refl) as [db' Hdb']. exists db'.
    split; [exact Hdb'|]. split; [exact (Hget _ Hdb')|].
    destruct (Hother (of_string "groceries") ltac:(text) ltac:(discriminate)) as [Hkeep _].
    rewrite (Hkeep _ Hdb'). reflexivity.
  - exact (Hdup _ eq_refl).
  - exact Hdel.
  - exact (Hnoop eq_refl).
Defined.

Lemma incomplete_vault_witness :
  let w := config_only_world (J := ref_json) in
  let w' := create_db (join vault_dir DBFILENAME) [] w in
  let a := {| encoder := None; user_input := []; user_input2 := [];
              config := {| storage_pth := vault_dir; password_salt := salt0;
                           _password_hash := None |};
              state := LOGGEDOFF; db := {| _cursor := Some (Records []) |} |} in
  App_init (J := ref_json) w (Some vault_dir) home_dir entropy = Ok (a, w') /\
  frame_commands (C := ref_crypto) (J := ref_json) (submit strong_password) a w' = Exit 1 /\
  frame_commands (C := ref_crypto) (J := ref_json) idle a w' <> Exit 1.
Proof.
  cbv zeta.
  destruct (incomplete_vault (C := ref_crypto) (J := ref_json)
              (config_only_world (J := ref_json)) _ vault_dir home_dir entropy
              {| _cursor := Some (Records []) |} eq_refl eq_refl eq_refl) as [Hcfg _].
  destruct (Hcfg _ vault_dir salt0 eq_refl ltac:(vm_compute; reflexivity) eq_refl)
    as (Hinit & Hexit & Hrun).
  split; [exact Hinit|]. split; [apply Hexit; [reflexivity..|discriminate]|].
  destruct (Hrun [] _ _ eq_refl) as (_ & _ & _ & _ & _ & Hfr).
  intros H. apply (Hfr idle) in H as (_ & _ & Hc & _). discriminate Hc.
Defined.

(** Start-up on the directory with a configuration record and no
    verifier: LoggedOff, no error; the first login attempt exits. *)
Example config_only_start :
  exists a w',
    App_init (J := ref_json) (config_only_world (J := ref_json))
      (Some vault_dir) home_dir entropy = Ok (a, w') /\
    state a = LOGGEDOFF /\ _password_hash (config a) = None /\
    frame_commands (C := ref_crypto) (J := ref_json) (submit strong_password) a w' = Exit 1.
Proof. do 2 eexists. split; [vm_compute; reflexivity|]. repeat split. Qed.

(** Start-up on the directory with a verifier file and no configuration
    record: Empty, as for a new vault. *)
Example hash_only_start :
  exists a w',
    App_init (J := ref_json) hash_only_world (Some vault_dir) home_dir entropy
    = Ok (a, w') /\
    state a = EMPTY /\ _password_hash (config a) = Some (repeat x2a 32).
Proof. do 2 eexists. split; [vm_compute; reflexivity|]. split; reflexivity. Qed.

(** * Further properties of the code *)

(** ** password.py: passwords, salts and tokens *)

(** The characters of the URL-safe base64 alphabet: letters, digits,
    ['-'] and ['_']. *)
Definition urlsafe_char (c : N) : bool :=
  ((65 <=? c) && (c <=? 90)) || ((97 <=? c) && (c <=? 122)) || ((48 <=? c) && (c <=? 57))
  || (c =? 45) || (c =? 95).

Lemma b2a_urlsafe v : v < 64 ->
  urlsafe_char (Byte.to_N (Base64.urlsafe_encode_translation (Base64.b2a v))) = true.
Proof.
  exact (N_forall_lt
           (fun v => urlsafe_char (Byte.to_N (Base64.urlsafe_encode_translation (Base64.b2a v))))
           64 eq_refl v).
Qed.

Lemma urlsafe_char_ascii c : urlsafe_char c = true -> c < 128 /\ c <> 61.
Proof.
  unfold urlsafe_char. intros H.
  repeat (apply orb_true_iff in H as [H|H]);
    repeat match goal with
    | H : _ && _ = true |- _ => apply andb_true_iff in H as [? ?]
    | H : N.leb _ _ = true |- _ => apply N.leb_le in H
    | H : N.eqb _ _ = true |- _ => apply N.eqb_eq in H
    end; lia.
Qed.

(** The output of [b2a_base64]: alphabet characters, four for every three
    octets, then the padding. *)
Lemma b2a_base64_shape bs :
  exists body,
    Base64.b2a_base64 bs = body ++ repeat Base64.PAD ((3 - length bs mod 3) mod 3)%nat /\
    Forall (fun b => exists v, v < 64 /\ b = Base64.b2a v) body /\
    length body = ((4 * length bs + 2) / 3)%nat.
Proof.
  induction bs as [|b0|b0 b1|b0 b1 b2 bs (body & Heq & Hall & Hlen)] using list_ind3;
    sextet_bounds.
  - exists []. repeat split; constructor.
  - eexists [_; _]. cbn [Base64.b2a_base64 app]. split; [reflexivity|]. split; [|reflexivity].
    repeat constructor; eexists; (split; [|reflexivity]); lia.
  - eexists [_; _; _]. cbn [Base64.b2a_base64 app]. split; [reflexivity|].
    split; [|reflexivity].
    repeat constructor; eexists; (split; [|reflexivity]); lia.
  - eexists (_ :: _ :: _ :: _ :: body). cbn [Base64.b2a_base64 app]. rewrite Heq.
    split; [|split].
    + do 4 f_equal. f_equal.
      change (length (b0 :: b1 :: b2 :: bs)) with (3 + length bs)%nat.
      replace (3 + length bs)%nat with (length bs + 1 * 3)%nat by lia.
      now rewrite Nat.Div0.mod_add.
    + repeat (constructor; [eexists; (split; [|reflexivity]); lia|]). exact Hall.
    + change (length (b0 :: b1 :: b2 :: bs)) with (3 + length bs)%nat.
      cbn [length]. rewrite Hlen.
      replace (4 * (3 + length bs) + 2)%nat with (4 * length bs + 2 + 4 * 3)%nat by lia.
      rewrite Nat.div_add by lia. lia.
Qed.

Lemma lstrip_pad_repeat k l :
  Base64.lstrip_pad (repeat Base64.PAD k ++ l) = Base64.lstrip_pad l.
Proof.
  induction k as [|k IH]; [reflexivity|].
  cbn [repeat app Base64.lstrip_pad].
  destruct (decide (Base64.PAD = Base64.PAD)); [exact IH|contradiction].
Qed.

Lemma rev_repeat_pad k : rev (repeat Base64.PAD k) = repeat Base64.PAD k.
Proof.
  induction k as [|k IH]; [reflexivity|].
  cbn [repeat rev]. rewrite IH. symmetry. apply repeat_cons.
Qed.

Lemma rstrip_pad_shape body k :
  Forall (fun b => b <> Base64.PAD) body ->
  Base64.rstrip_pad (body ++ repeat Base64.PAD k) = body.
Proof.
  intros H. unfold Base64.rstrip_pad.
  rewrite rev_app_distr, rev_repeat_pad, lstrip_pad_repeat.
  apply List.Forall_rev in H.
  destruct (rev body) as [|b l] eqn:E.
  - cbn. rewrite <- (rev_involutive body), E. reflexivity.
  - cbn [Base64.lstrip_pad]. inversion H as [|? ? Hb _]; subst.
    destruct (decide (b = Base64.PAD)); [contradiction|].
    rewrite <- E. apply rev_involutive.
Qed.

(** [token_urlsafe]: the encoding without its padding. *)
Lemma token_urlsafe_shape tok :
  exists body,
    token_urlsafe tok = Ok (map Byte.to_N body) /\
    Base64.urlsafe_b64encode tok
    = body ++ repeat Base64.PAD ((3 - length tok mod 3) mod 3)%nat /\
    length body = ((4 * length tok + 2) / 3)%nat /\
    Forall (fun b => urlsafe_char (Byte.to_N b) = true) body.
Proof.
  destruct (b2a_base64_shape tok) as (body & Heq & Hall & Hlen).
  exists (map Base64.urlsafe_encode_translation body).
  assert (Hurl : Forall (fun b => urlsafe_char (Byte.to_N b) = true)
                   (map Base64.urlsafe_encode_translation body)).
  { apply Forall_map. eapply Forall_impl; [exact Hall|].
    intros b (v & Hv & ->). now apply b2a_urlsafe. }
  assert (Henc : Base64.urlsafe_b64encode tok
                 = map Base64.urlsafe_encode_translation body
                   ++ repeat Base64.PAD ((3 - length tok mod 3) mod 3)%nat).
  { unfold Base64.urlsafe_b64encode. rewrite Heq, map_app. f_equal.
    generalize ((3 - length tok mod 3) mod 3)%nat as k.
    induction k as [|k IH]; [reflexivity|]. cbn [repeat map]. now rewrite IH. }
  split; [|split; [exact Henc|split; [now rewrite length_map|exact Hurl]]].
  unfold token_urlsafe. rewrite Henc, rstrip_pad_shape.
  - unfold ascii_decode. rewrite (proj2 (forallb_forall _ _)); [reflexivity|].
    intros b Hb. apply N.ltb_lt. rewrite Forall_forall in Hurl.
    apply list_elem_of_In, Hurl, urlsafe_char_ascii in Hb. lia.
  - eapply Forall_impl; [exact Hurl|]. intros b Hb ->. discriminate Hb.
Qed.

Lemma map_to_N_inj (a b : bytes) : map Byte.to_N a = map Byte.to_N b -> a = b.
Proof.
  revert b. induction a as [|x a IH]; intros [|y b]; cbn; try easy.
  intros [= Hxy H]. f_equal; [now apply to_N_inj|auto].
Qed.

(** X1. [password_meets_requirements] accepts exactly the passwords of 8
    to 32 characters that are all printable ASCII other than the space
    (codes 33 to 126), so a password with a space, a control character or
    a character outside ASCII is refused; and an accepted password always
    encodes, to one octet per character. *)
Theorem accepted_passwords (password : str) :
  (password_meets_requirements password = true <->
   (8 <= length password <= 32)%nat /\ Forall (fun c => 33 <= c <= 126) password) /\
  (password_meets_requirements password = true ->
   str_encode password = Ok (map byte_of_N password)).
Proof.
  split; [apply password_meets_requirements_spec|].
  intros [_ Hall]%password_meets_requirements_spec.
  assert (Hascii : Forall (fun b => Byte.to_N b < 128) (map byte_of_N password)).
  { apply Forall_map. eapply Forall_impl; [exact Hall|]. cbn. intros c Hc.
    rewrite to_N_byte_of_N, N.mod_small; lia. }
  rewrite <- (str_encode_ascii _ Hascii). f_equal.
  rewrite map_map. clear Hascii. induction Hall as [|c l Hc _ IH]; [reflexivity|].
  cbn [map]. rewrite to_N_byte_of_N, N.mod_small by lia. now rewrite <- IH.
Qed.

(** X2. [gen_salt] always returns: from the 16 octets of the system's
    random source it makes a salt of 22 characters, all of them letters,
    digits, ['-'] or ['_'] (the padding is stripped). *)
Theorem gen_salt_shape (tok : bytes) :
  length tok = 16%nat ->
  exists salt,
    gen_salt tok = Ok salt /\ length salt = 22%nat /\
    Forall (fun c => urlsafe_char c = true) salt.
Proof.
  intros Hlen. destruct (token_urlsafe_shape tok) as (body & Hsalt & _ & Hblen & Hall).
  exists (map Byte.to_N body). split; [exact Hsalt|]. split.
  - rewrite length_map, Hblen, Hlen. reflexivity.
  - now apply Forall_map.
Qed.

(** X3. [gen_salt] loses none of the randomness it is given: two draws of
    16 octets that give the same salt are the same draw. *)
Theorem gen_salt_injective (tok1 tok2 : bytes) (salt : str) :
  length tok1 = 16%nat -> length tok2 = 16%nat ->
  gen_salt tok1 = Ok salt -> gen_salt tok2 = Ok salt -> tok1 = tok2.
Proof.
  intros H1 H2 Hs1 Hs2.
  destruct (token_urlsafe_shape tok1) as (body1 & Hb1 & He1 & _ & _).
  destruct (token_urlsafe_shape tok2) as (body2 & Hb2 & He2 & _ & _).
  unfold gen_salt in Hs1, Hs2. rewrite Hb1 in Hs1. rewrite Hb2 in Hs2.
  injection Hs1 as <-. injection Hs2 as Heq%map_to_N_inj. subst body2.
  assert (Henc : Base64.urlsafe_b64encode tok1 = Base64.urlsafe_b64encode tok2)
    by (now rewrite He1, He2, H1, H2).
  pose proof (urlsafe_b64decode_encode tok1) as Hd1.
  rewrite Henc, urlsafe_b64decode_encode in Hd1. now injection Hd1.
Qed.

Lemma utf8_encode_char_text c bs : utf8_encode_char c = Some bs -> is_scalar c = true.
Proof.
  unfold utf8_encode_char, is_scalar. intros H.
  destruct (N.ltb_spec c 0xD800) as [Hlo|Hlo]; [reflexivity|]. cbn [orb].
  destruct (N.ltb_spec 0xDFFF c) as [Hhi|Hhi]; cbn [andb].
  - destruct (N.ltb_spec c 0x110000) as [|Hbig]; [reflexivity|exfalso].
    revert H. split_cmp; discriminate.
  - exfalso. revert H. split_cmp; cbn [andb]; discriminate.
Qed.

Lemma utf8_encode_text s bs : utf8_encode s = Some bs -> unicode_text s.
Proof.
  revert bs. induction s as [|c s IH]; intros bs; cbn [utf8_encode]; [constructor|].
  destruct (utf8_encode_char c) as [cs|] eqn:Ec; [|discriminate].
  destruct (utf8_encode s) as [r|]; [|discriminate].
  intros _. constructor; [exact (utf8_encode_char_text _ _ Ec)|exact (IH r eq_refl)].
Qed.

(** X4. [derive_key] and [verify_password] return for every password and
    salt that are text ([derive_key] a key of 32 octets, [verify_password]
    a boolean), and for any other password or salt (one with a lone
    surrogate) both raise UnicodeEncodeError: the [except InvalidKey] of
    [verify_password] does not catch it. *)
Theorem credential_encoding_errors {C : Crypto} (password salt : str) (key : bytes) :
  (unicode_text password /\ unicode_text salt ->
   (exists k, derive_key password salt = Ok k /\ length k = 32%nat) /\
   (exists b, verify_password password salt key = Ok b)) /\
  (~ (unicode_text password /\ unicode_text salt) ->
   derive_key password salt = Raise UnicodeEncodeError /\
   verify_password password salt key = Raise UnicodeEncodeError).
Proof.
  split.
  - intros [Hp Hs].
    destruct (str_encode_text _ Hp) as [pb Hpb]. destruct (str_encode_text _ Hs) as [sb Hsb].
    split.
    + eexists. split; [apply (derive_key_encoded _ _ _ _ Hpb Hsb)|apply scrypt_length].
    + eexists. apply (verify_password_encoded _ _ _ _ _ Hpb Hsb).
  - intros Hn. unfold derive_key, verify_password, str_encode.
    destruct (utf8_encode salt) as [sb|] eqn:Es; [|now split].
    destruct (utf8_encode password) as [pb|] eqn:Ep; [|now split].
    exfalso. apply Hn. split; eapply utf8_encode_text; eassumption.
Qed.

Lemma urlsafe_b64encode_length data :
  length (Base64.urlsafe_b64encode data) = (4 * ((length data + 2) / 3))%nat.
Proof.
  unfold Base64.urlsafe_b64encode. rewrite length_map.
  induction data as [|b0|b0 b1|b0 b1 b2 data IH] using list_ind3; try reflexivity.
  cbn [Base64.b2a_base64 app length]. rewrite IH.
  replace (S (S (S (length data))) + 2)%nat with (length data + 2 + 1 * 3)%nat by lia.
  rewrite Nat.div_add by lia. lia.
Qed.

Lemma urlsafe_b64encode_chars data :
  Forall (fun b => urlsafe_char (Byte.to_N b) = true \/ Byte.to_N b = 61)
    (Base64.urlsafe_b64encode data).
Proof.
  destruct (token_urlsafe_shape data) as (body & _ & -> & _ & Hall).
  apply Forall_app. split.
  - eapply Forall_impl; [exact Hall|]. cbn. auto.
  - apply Forall_forall. intros b ->%list_elem_of_In%repeat_spec. now right.
Qed.

Section TokenFacts.
Context {C : Crypto}.

Lemma pkcs7_pad_blocks data :
  length (Fernet.pkcs7_pad data) = (16 * (length data / 16 + 1))%nat.
Proof.
  unfold Fernet.pkcs7_pad. rewrite length_app, repeat_length.
  pose proof (Nat.mod_upper_bound (length data) 16).
  pose proof (Nat.div_mod_eq (length data) 16). lia.
Qed.

Lemma token_data_length f data now iv :
  well_keyed f -> length iv = 16%nat ->
  length (token_data f data now iv) = (57 + 16 * (length data / 16 + 1))%nat.
Proof.
  intros [_ Hk] Hiv. unfold token_data.
  destruct (pkcs7_pad_length data) as [Hmod _].
  destruct (cbc_decrypt_encrypt _ iv (Fernet.pkcs7_pad data) Hk Hiv Hmod) as [_ Hlen].
  rewrite !length_app, hmac_sha256_length, be_bytes_length, Hiv, Hlen, pkcs7_pad_blocks.
  cbn [length]. lia.
Qed.

(** X5. [Encoder.encode] returns for every text, given 16 random octets
    and a clock that fits 8 octets. The token is ASCII text over the
    URL-safe base64 alphabet and ['='], and its length is fixed by the
    number [n] of UTF-8 octets of the plaintext: it is the base64 length
    of [57 + 16 * (n / 16 + 1)] octets, so the length of a token grows
    with its plaintext in steps of one block of 16 octets. *)
Theorem token_shape (password salt x : str) (e : Encoder) (now : N) (iv xb : bytes) :
  Encoder_init password salt = Ok e -> str_encode x = Ok xb ->
  length iv = 16%nat -> now < 2 ^ 64 ->
  exists token,
    encode e now iv x = Ok token /\
    length token = (4 * ((57 + 16 * (length xb / 16 + 1) + 2) / 3))%nat /\
    Forall (fun c => urlsafe_char c = true \/ c = 61) token.
Proof.
  intros He Hx Hiv Hnow. pose proof (Encoder_init_well_keyed _ _ _ He) as Hk.
  eexists. split; [apply (encode_token e now iv x xb Hx Hiv Hnow)|]. split.
  - now rewrite length_map, urlsafe_b64encode_length, token_data_length.
  - apply Forall_map, urlsafe_b64encode_chars.
Qed.

End TokenFacts.

(** The decoder returns at most three octets for every four characters
    read. [slack] is what the characters already read of the current
    group can still contribute. *)
Definition slack (quad_pos : N) : nat :=
  if quad_pos =? 0 then 0 else if quad_pos =? 1 then 3 else if quad_pos =? 2 then 2 else 1.

Lemma a2b_loop_length ascii : forall q l p bin out,
  Base64.a2b_loop ascii q l p bin = Some out ->
  (4 * length out <= 4 * length bin + 3 * length ascii + slack q)%nat.
Proof.
  induction ascii as [|ch rest IH]; intros q l p bin out; cbn [Base64.a2b_loop length].
  - destruct (q =? 0); [|discriminate]. intros [= <-]. lia.
  - destruct (decide (ch = Base64.PAD)).
    + destruct (2 <=? q).
      * destruct (4 <=? q + (p + 1)); [intros [= <-]; lia|].
        intros H%IH. lia.
      * intros H%IH. lia.
    + destruct (64 <=? Base64.table_a2b_base64 ch); [intros H%IH; lia|].
      unfold slack at 1.
      destruct (q =? 0); [intros H%IH; cbn in H; lia|].
      destruct (q =? 1); [intros H%IH; rewrite length_app in H; cbn in H; lia|].
      destruct (q =? 2); intros H%IH; rewrite length_app in H; cbn in H; lia.
Qed.

(** X6. [Encoder.decode] refuses every text of fewer than 12 octets, the
    empty text included, with InvalidToken: it cannot hold the version
    octet and the timestamp. *)
Theorem short_token_rejected {C : Crypto} (e : Encoder) (token : str) (tb : bytes) :
  str_encode token = Ok tb -> (length tb < 12)%nat ->
  decode e token = Raise InvalidToken.
Proof.
  intros Htb Hlen. rewrite (decode_encoded e _ _ Htb).
  unfold Fernet.decrypt, Fernet.get_unverified_token_data.
  destruct (Base64.urlsafe_b64decode tb) as [data|] eqn:Hd; [|reflexivity].
  unfold Base64.urlsafe_b64decode, Base64.a2b_base64 in Hd.
  apply a2b_loop_length in Hd. rewrite length_map in Hd. cbn in Hd.
  destruct data as [|b0 data]; [reflexivity|].
  destruct (decide (b0 <> x80)); [reflexivity|].
  destruct (decide (length (b0 :: data) < 9)%nat) as [|Hn]; [reflexivity|].
  cbn [length] in *. lia.
Qed.

(** ** database.py: sequences of calls *)

(** A call that changes an open database, and a sequence of them: as in
    Python, the first exception ends the sequence. *)
Inductive db_call : Type :=
| CallAdd (title body : str)
| CallDel (title : str).

Definition do_call (db : Database) (c : db_call) : outcome Database :=
  match c with
  | CallAdd title body => add_record db title body
  | CallDel title => del_record db title
  end.

Fixpoint do_calls (db : Database) (cs : list db_call) : outcome Database :=
  match cs with
  | [] => Ok db
  | c :: rest => db' ← do_call db c; do_calls db' rest
  end.

Definition text_call (c : db_call) : Prop :=
  match c with
  | CallAdd title body => unicode_text title /\ unicode_text body
  | CallDel title => unicode_text title
  end.

(** The same calls on a finite map from title to body, where inserting a
    title that is present fails. *)
Definition map_call (m : gmap str str) (c : db_call) : option (gmap str str) :=
  match c with
  | CallAdd title body =>
    match m !! title with
    | Some _ => None
    | None => Some (<[title := body]> m)
    end
  | CallDel title => Some (delete title m)
  end.

Fixpoint map_calls (m : gmap str str) (cs : list db_call) : option (gmap str str) :=
  match cs with
  | [] => Some m
  | c :: rest =>
    match map_call m c with
    | Some m' => map_calls m' rest
    | None => None
    end
  end.

Lemma do_calls_view t cs :
  Forall text_call cs ->
  match map_calls (view t) cs with
  | Some m =>
    exists t', do_calls {| _cursor := Some (Records t) |} cs
               = Ok {| _cursor := Some (Records t') |} /\ view t' = m
  | None => do_calls {| _cursor := Some (Records t) |} cs = Raise IntegrityError
  end.
Proof.
  intros Hcs. revert t. induction Hcs as [|c cs Hc _ IH]; intros t; cbn [map_calls do_calls].
  - now exists t.
  - destruct c as [title body|title]; cbn [map_call do_call text_call] in *.
    + destruct Hc as [Ht Hb]. rewrite (add_record_view t title body Ht Hb).
      destruct (view t !! title) as [b0|] eqn:E; [reflexivity|].
      cbn [mbind outcome_bind bind]. rewrite <- (insert_view t title body E). apply IH.
    + rewrite (del_record_view t title Hc). cbn [mbind outcome_bind bind].
      rewrite <- delete_view. apply IH.
Qed.

(** X7. An open database refines a finite map under every sequence of
    [add_record] and [del_record] calls with text arguments: the calls
    succeed exactly when the corresponding insertions and deletions on
    the map do, a sequence that inserts a present title stops with
    IntegrityError, and after a successful sequence [fetch_record]
    returns for every title what the map holds. *)
Theorem database_refines_map (t : table) (cs : list db_call) :
  Forall text_call cs ->
  match map_calls (view t) cs with
  | Some m =>
    exists db', do_calls {| _cursor := Some (Records t) |} cs = Ok db' /\
      forall title, unicode_text title -> fetch_record db' title = Ok (m !! title)
  | None => do_calls {| _cursor := Some (Records t) |} cs = Raise IntegrityError
  end.
Proof.
  intros Hcs. pose proof (do_calls_view t cs Hcs) as H.
  destruct (map_calls (view t) cs) as [m|]; [|exact H].
  destruct H as (t' & Hdo & <-). eexists. split; [exact Hdo|].
  intros title Ht. now apply fetch_record_view.
Qed.

Lemma add_record_returns t title body db' :
  add_record {| _cursor := Some (Records t) |} title body = Ok db' ->
  view t !! title = None /\ db' = {| _cursor := Some (Records (t ++ [(title, body)])) |}.
Proof.
  unfold add_record, bind_param, str_encode. cbn [_cursor].
  destruct (utf8_encode title); [|discriminate].
  destruct (utf8_encode body); [|discriminate].
  cbn [mbind outcome_bind bind]. rewrite taken_view.
  destruct (view t !! title) as [old|].
  - rewrite bool_decide_eq_true_2 by eauto. discriminate.
  - rewrite bool_decide_eq_false_2 by (now intros [? [=]]). now intros [= <-].
Qed.

Lemma del_record_returns t title db' :
  del_record {| _cursor := Some (Records t) |} title = Ok db' ->
  db' = {| _cursor := Some (Records (List.filter (fun r => negb (bool_decide (fst r = title))) t)) |}.
Proof.
  unfold del_record, bind_param, str_encode. cbn [_cursor].
  destruct (utf8_encode title); [|discriminate]. now intros [= <-].
Qed.

Lemma filter_names (P : str * str -> bool) (t : table) :
  NoDup (t.*1) -> NoDup ((List.filter P t).*1).
Proof.
  induction t as [|r t IH]; [trivial|]. cbn [fmap list_fmap List.filter].
  intros [Hr Ht]%NoDup_cons. destruct (P r); [|now apply IH].
  cbn [fmap list_fmap]. apply NoDup_cons. split; [|now apply IH].
  intros (r' & Heq & Hin)%list_elem_of_fmap. apply Hr, list_elem_of_fmap.
  exists r'. split; [exact Heq|].
  apply list_elem_of_In in Hin. apply list_elem_of_In. now apply filter_In in Hin as [? _].
Qed.

(** X8. The calls keep the key of the table: from a table in which no
    two rows have the same name, every sequence of [add_record] and
    [del_record] calls that returns leaves such a table, so that each
    row it holds is the row [fetch_record] returns for its name: no row
    is shadowed by another. *)
Theorem names_stay_unique (t : table) (cs : list db_call) (db' : Database) :
  NoDup (t.*1) ->
  do_calls {| _cursor := Some (Records t) |} cs = Ok db' ->
  exists t', db' = {| _cursor := Some (Records t') |} /\ NoDup (t'.*1) /\
    forall title body, unicode_text title -> (title, body) ∈ t' ->
      fetch_record db' title = Ok (Some body).
Proof.
  intros Hnd Hdo.
  assert (H : exists t', db' = {| _cursor := Some (Records t') |} /\ NoDup (t'.*1)).
  { revert t Hnd Hdo. induction cs as [|c cs IH]; intros t Hnd; cbn [do_calls].
    - intros [= <-]. now exists t.
    - destruct (do_call _ c) as [db1| |] eqn:Hc; try discriminate.
      cbn [mbind outcome_bind bind]. destruct c as [title body|title]; cbn [do_call] in Hc.
      + apply add_record_returns in Hc as [Hnone ->]. apply IH.
        rewrite fmap_app. apply NoDup_app. split; [exact Hnd|]. split.
        * intros x Hx ->%list_elem_of_singleton.
          now apply not_elem_of_list_to_map_2 in Hnone.
        * apply NoDup_singleton.
      + apply del_record_returns in Hc as ->. apply IH. now apply filter_names. }
  destruct H as (t' & -> & Hnd'). exists t'. split; [reflexivity|]. split; [exact Hnd'|].
  intros title body Ht Hin. rewrite (fetch_record_view t' title Ht). f_equal.
  now apply elem_of_list_to_map_1.
Qed.

(** ** config.py: writing and reading the configuration *)

Section ConfigFacts.
Context {J : Json}.





End ConfigFacts.

(** ** main.py: the state machine as a whole *)

(** Frames in which the user clicks one widget and nothing else: the
    button of an error dialog, the buttons of the options menu, the items
    of the "Reset.." menu. *)
Definition click_confirm : Frame :=
  {| key_ctrl_q := false; clicked_quit := false; clicked_change_pwd := false;
     clicked_reset := false; typed := None; typed2 := None; confirm_clicked := true;
     add_btn := false; find_btn := false;
     draw1 := (1699999999, entropy); draw2 := (1699999999, entropy) |}.
Definition click_add : Frame :=
  {| key_ctrl_q := false; clicked_quit := false; clicked_change_pwd := false;
     clicked_reset := false; typed := None; typed2 := None; confirm_clicked := false;
     add_btn := true; find_btn := false;
     draw1 := (1699999999, entropy); draw2 := (1699999999, entropy) |}.
Definition click_find : Frame :=
  {| key_ctrl_q := false; clicked_quit := false; clicked_change_pwd := false;
     clicked_reset := false; typed := None; typed2 := None; confirm_clicked := false;
     add_btn := false; find_btn := true;
     draw1 := (1699999999, entropy); draw2 := (1699999999, entropy) |}.
Definition click_change_pwd : Frame :=
  {| key_ctrl_q := false; clicked_quit := false; clicked_change_pwd := true;
     clicked_reset := false; typed := None; typed2 := None; confirm_clicked := false;
     add_btn := false; find_btn := false;
     draw1 := (1699999999, entropy); draw2 := (1699999999, entropy) |}.
Definition click_reset : Frame :=
  {| key_ctrl_q := false; clicked_quit := false; clicked_change_pwd := false;
     clicked_reset := true; typed := None; typed2 := None; confirm_clicked := false;
     add_btn := false; find_btn := false;
     draw1 := (1699999999, entropy); draw2 := (1699999999, entropy) |}.

(** A storage directory with a configuration record and a verifier file
    of one octet, which no password matches. *)
Definition odd_verifier_world {J : Json} : World :=
  {| files := {[ join vault_dir CONFIGFILENAME := model_dump_json vault_dir salt0;
                 join vault_dir HASHFILENAME := [x00] ]};
     dirs := {[vault_dir]}; sqlite := ∅ |}.

(** Start-up on a storage directory that holds a configuration record
    and its verifier file. *)
Lemma App_init_loaded {J : Json} (w w' : World) (d home : Path) (tok : bytes)
    (dbh : Database) (content : bytes) (p : Path) (salt : str) (h : bytes) :
  path_exists w d = true -> is_dir w d = true ->
  Database_init w d = Ok (dbh, w') ->
  files w !! join d CONFIGFILENAME = Some content ->
  json_load content = Loaded p salt ->
  files w !! join p HASHFILENAME = Some h ->
  App_init w (Some d) home tok
  = Ok ({| encoder := None; user_input := []; user_input2 := [];
           config := {| storage_pth := p; password_salt := salt;
                        _password_hash := Some h |};
           state := LOGGEDOFF; db := dbh |}, w').
Proof.
  intros Hd1 Hd2 Hdb Hcfg Hload Hhash.
  rewrite (App_init_custom _ _ _ _ Hd1 Hd2). unfold App_init_at.
  replace (path_exists w (join d CONFIGFILENAME)) with true
    by (unfold path_exists; rewrite Hcfg;
        rewrite bool_decide_eq_true_2 by eauto; reflexivity).
  unfold from_json. rewrite Hcfg, Hload. unfold AppConfig_init.
  replace (path_exists w (join p HASHFILENAME)) with true
    by (unfold path_exists; rewrite Hhash;
        rewrite bool_decide_eq_true_2 by eauto; reflexivity).
  rewrite Hhash. cbn [mbind outcome_bind bind]. rewrite Hdb. reflexivity.
Qed.

Section StateMachineFacts.
Context {C : Crypto} {J : Json}.

(** The frame of state LoggedOff in which a non-empty password is
    confirmed against the verifier [h]. *)
Lemma frame_login fr a w h pb sb :
  state a = LOGGEDOFF ->
  key_ctrl_q fr = false -> clicked_quit fr = false -> confirm_clicked fr = true ->
  Config.password_hash (config a) = Ok h ->
  input_text (typed fr) (user_input a) <> [] ->
  str_encode (input_text (typed fr) (user_input a)) = Ok pb ->
  str_encode (password_salt (config a)) = Ok sb ->
  exists e,
    Encoder_init (input_text (typed fr) (user_input a)) (password_salt (config a)) = Ok e /\
    frame_commands fr a w =
      Ok (if bool_decide (scrypt pb sb (2 ^ 14) 8 1 32 = h)
          then {| encoder := Some e; user_input := []; user_input2 := user_input2 a;
                  config := config a; state := LOGGEDON; db := db a |}
          else {| encoder := encoder a; user_input := []; user_input2 := user_input2 a;
                  config := config a; state := INVALIDPASSWORD; db := db a |}, w).
Proof.
  intros Hs Hq1 Hq2 Hc Hh Hne Hpb Hsb.
  destruct (Encoder_init_encoded _ _ _ _ Hpb Hsb) as (e & He & _ & _).
  exists e. split; [exact He|].
  rewrite (frame_LOGGEDOFF fr a w Hq1 Hq2 Hs). cbv zeta. rewrite Hc. app_fields.
  destruct (input_text (typed fr) (user_input a)) as [|c0 pw] eqn:Hpw; [contradiction|].
  cbn [length Nat.eqb negb andb]. rewrite Hh. cbn [mbind outcome_bind bind].
  rewrite (verify_password_encoded _ _ _ _ h Hpb Hsb). cbn [mbind outcome_bind bind].
  destruct (bool_decide _); [|reflexivity].
  rewrite He. reflexivity.
Qed.

(** The frame of state Empty in which an acceptable password is
    confirmed. *)
Lemma frame_register fr a w :
  state a = EMPTY ->
  key_ctrl_q fr = false -> clicked_quit fr = false -> confirm_clicked fr = true ->
  unicode_text (password_salt (config a)) ->
  password_meets_requirements (input_text (typed fr) (user_input a)) = true ->
  exists e pb sb,
    str_encode (input_text (typed fr) (user_input a)) = Ok pb /\
    str_encode (password_salt (config a)) = Ok sb /\
    Encoder_init (input_text (typed fr) (user_input a)) (password_salt (config a)) = Ok e /\
    Password.password_hash e = scrypt pb sb (2 ^ 14) 8 1 32 /\
    frame_commands fr a w =
      Ok ({| encoder := Some e; user_input := []; user_input2 := user_input2 a;
             config := set_password_hash (Password.password_hash e) (config a);
             state := LOGGEDOFF; db := db a |},
          write_file (join (storage_pth (config a)) HASHFILENAME) (Password.password_hash e)
            (write_file (join (storage_pth (config a)) CONFIGFILENAME)
               (model_dump_json (storage_pth (config a)) (password_salt (config a))) w)).
Proof.
  intros Hs Hq1 Hq2 Hc Hsalt Hok.
  destruct (str_encode_text _ (password_meets_requirements_text _ Hok)) as [pb Hpb].
  destruct (str_encode_text _ Hsalt) as [sb Hsb].
  destruct (Encoder_init_encoded _ _ _ _ Hpb Hsb) as (e & He & _ & Hh).
  exists e, pb, sb. do 4 (split; [assumption|]).
  rewrite (frame_EMPTY fr a w Hq1 Hq2 Hs). cbv zeta. rewrite Hc. app_fields. rewrite Hok.
  assert (Hlen : negb (length (input_text (typed fr) (user_input a)) =? 0)%nat = true).
  { apply password_meets_requirements_spec in Hok as [Hlen _].
    destruct (input_text (typed fr) (user_input a)); [cbn in Hlen; lia|reflexivity]. }
  rewrite Hlen. cbn [andb]. rewrite He. cbn [mbind outcome_bind bind]. app_fields.
  unfold dump. cbn [_password_hash set_password_hash storage_pth password_salt].
  reflexivity.
Qed.

(** A key is never empty. *)
Lemma scrypt_nonempty pb sb : exists b k, scrypt pb sb (2 ^ 14) 8 1 32 = b :: k.
Proof.
  pose proof (scrypt_length pb sb (2 ^ 14) 8 1 32) as H.
  destruct (scrypt pb sb (2 ^ 14) 8 1 32) as [|b k]; [discriminate H|eauto].
Qed.

Lemma Encoder_init_returns password salt e :
  Encoder_init password salt = Ok e ->
  exists pb sb,
    str_encode password = Ok pb /\ str_encode salt = Ok sb /\
    Password.password_hash e = scrypt pb sb (2 ^ 14) 8 1 32.
Proof.
  intros H. pose proof H as H0. unfold Encoder_init, derive_key in H0.
  destruct (str_encode salt) as [sb| |] eqn:Hs; try discriminate.
  destruct (str_encode password) as [pb| |] eqn:Hp; try discriminate.
  destruct (Encoder_init_encoded _ _ _ _ Hp Hs) as (e' & He' & _ & Hh).
  rewrite H in He'. injection He' as <-. now exists pb, sb.
Qed.

(** Logging in with the password whose key is the stored verifier. *)
Lemma frame_login_same_key fr a w e :
  state a = LOGGEDOFF ->
  key_ctrl_q fr = false -> clicked_quit fr = false -> confirm_clicked fr = true ->
  input_text (typed fr) (user_input a) <> [] ->
  Encoder_init (input_text (typed fr) (user_input a)) (password_salt (config a)) = Ok e ->
  _password_hash (config a) = Some (Password.password_hash e) ->
  frame_commands fr a w
  = Ok ({| encoder := Some e; user_input := []; user_input2 := user_input2 a;
           config := config a; state := LOGGEDON; db := db a |}, w).
Proof.
  intros Hs Hq1 Hq2 Hc Hne He Hh.
  destruct (Encoder_init_returns _ _ _ He) as (pb & sb & Hpb & Hsb & Hkey).
  destruct (scrypt_nonempty pb sb) as (b & k & Hk).
  destruct (frame_login fr a w (b :: k) pb sb Hs Hq1 Hq2 Hc) as (e' & He' & Hstep);
    try assumption.
  - unfold Config.password_hash. now rewrite Hh, Hkey, Hk.
  - rewrite He in He'. injection He' as <-.
    now rewrite bool_decide_eq_true_2 in Hstep by exact Hk.
Qed.

(** Logging in on the example vault, and the states behind the login. *)
Lemma logged_on_reachable :
  exists a w, reachable (a, w) /\ state a = LOGGEDON.
Proof.
  destruct registered_reachable as (e & w1 & He & Hr).
  eexists _, w1. split.
  - refine (reach_frame (submit strong_password) _ w1 (_, w1) Hr _).
    apply (frame_login_same_key (submit strong_password) _ w1 e);
      try reflexivity; [discriminate|exact He].
  - reflexivity.
Qed.

Lemma invalid_password_reachable :
  exists a w, reachable (a, w) /\ state a = INVALIDPASSWORD.
Proof.
  assert (Htext : unicode_text salt0) by repeat constructor.
  assert (Hinit : App_init odd_verifier_world (Some vault_dir) home_dir entropy
                  = Ok ({| encoder := None; user_input := []; user_input2 := [];
                           config := {| storage_pth := vault_dir; password_salt := salt0;
                                        _password_hash := Some [x00] |};
                           state := LOGGEDOFF; db := {| _cursor := Some (Records []) |} |},
                        create_db (join vault_dir DBFILENAME) [] odd_verifier_world)).
  { exact (App_init_loaded odd_verifier_world _ vault_dir home_dir entropy _ _ vault_dir
             salt0 [x00] eq_refl eq_refl eq_refl eq_refl (json_load_dump _ _ Htext) eq_refl). }
  pose proof (reach_init _ _ _ _ _ Hinit) as Hr.
  match type of Hr with reachable (?a0, ?w0) =>
    destruct (frame_login (submit strong_password) a0 w0 [x00]
                (bytes_of_string "Str0ng!Pass") (bytes_of_string "AAAAAAAAAAAAAAAAAAAAAA")
                eq_refl eq_refl eq_refl eq_refl eq_refl ltac:(discriminate) eq_refl eq_refl)
      as (e2 & _ & Hstep)
  end.
  rewrite bool_decide_eq_false_2 in Hstep.
  - eexists _, _. split; [exact (reach_frame _ _ _ _ Hr Hstep)|reflexivity].
  - intros Heq. pose proof (scrypt_length (bytes_of_string "Str0ng!Pass")
                              (bytes_of_string "AAAAAAAAAAAAAAAAAAAAAA") (2 ^ 14) 8 1 32) as Hl.
    rewrite Heq in Hl. discriminate Hl.
Qed.

(** X11. The application only ever is in one of nine states: Empty,
    InvalidNewPassword, LoggedOff, InvalidPassword, LoggedOn, AddRecord,
    FindRecord, ChangePassword and ConfirmHardReset, and each of them is
    reached by some run. DeleteRecord, RecordFound, RecordNotFound,
    ChangePasswordFailed, ConfirmHardResetFailed and HardReset are never
    entered. *)
Theorem reachable_states :
  (forall a w, reachable (a, w) ->
     state a ∈ [EMPTY; INVALIDNEWPASSWORD; LOGGEDOFF; INVALIDPASSWORD; LOGGEDON;
                ADDRECORD; FINDRECORD; CHANGEPASSWORD; CONFIRMHARDRESET]) /\
  (forall s,
     s ∈ [EMPTY; INVALIDNEWPASSWORD; LOGGEDOFF; INVALIDPASSWORD; LOGGEDON;
          ADDRECORD; FINDRECORD; CHANGEPASSWORD; CONFIRMHARDRESET] ->
     exists a w, reachable (a, w) /\ state a = s).
Proof.
  split.
  - intros a w Hr. pose proof (reachable_inv _ Hr) as H. cbn [fst] in H.
    unfold app_inv in H. rewrite !elem_of_cons.
    destruct (state a); try contradiction; auto 12.
  - intros s Hs.
    destruct logged_on_reachable as (a & w & Hr & Hon).
    assert (Hstep : forall fr s', frame_commands fr a w = Ok (set_state s' a, w) ->
                      exists a' w', reachable (a', w') /\ state a' = s').
    { intros fr s' H. eexists _, w. split; [exact (reach_frame _ _ _ _ Hr H)|reflexivity]. }
    repeat (apply elem_of_cons in Hs as [->|Hs]).
    + eexists _, _. split; [exact fresh_reachable|reflexivity].
    + eexists _, _. split.
      * refine (reach_frame (submit (of_string "short")) _ _ (_, _) fresh_reachable _).
        reflexivity.
      * reflexivity.
    + destruct registered_reachable as (e & w1 & _ & Hr1).
      eexists _, _. split; [exact Hr1|reflexivity].
    + exact invalid_password_reachable.
    + now exists a, w.
    + apply (Hstep click_add). destruct a as [enc ui ui2 cfg st d]. cbn [state] in Hon.
      subst st. reflexivity.
    + apply (Hstep click_find). destruct a as [enc ui ui2 cfg st d]. cbn [state] in Hon.
      subst st. reflexivity.
    + apply (Hstep click_change_pwd). destruct a as [enc ui ui2 cfg st d]. cbn [state] in Hon.
      subst st. reflexivity.
    + apply (Hstep click_reset). destruct a as [enc ui ui2 cfg st d]. cbn [state] in Hon.
      subst st. reflexivity.
    + now apply elem_of_nil in Hs.
Qed.


Lemma frame_trap fr a w a' w' :
  state a = CHANGEPASSWORD \/ state a = CONFIRMHARDRESET ->
  frame_commands fr a w = Ok (a', w') ->
  w' = w /\ a' = set_state (state a') a /\
  (state a' = CHANGEPASSWORD \/ state a' = CONFIRMHARDRESET) /\
  (state a = CONFIRMHARDRESET -> state a' = CONFIRMHARDRESET).
Proof.
  intros Hs. destruct a as [enc ui ui2 cfg st d]. cbn [state] in Hs. unfold frame_commands.
  destruct Hs as [-> | ->];
    destruct (key_ctrl_q fr), (clicked_quit fr), (clicked_change_pwd fr), (clicked_reset fr);
    cbn; try discriminate; intros [= <- <-]; cbn; repeat split; auto; discriminate.
Qed.

(** X13. The "Reset.." menu leads to a dead end. Once the application is
    in ChangePassword or ConfirmHardReset, however many frames follow it
    stays in one of these two states (in ConfirmHardReset for good), and
    the files, the configuration, the session, the database and both
    input fields stay as they were: only quitting ends it. *)
Theorem reset_menu_is_a_dead_end (frs : list Frame) (a a' : App) (w w' : World) :
  state a = CHANGEPASSWORD \/ state a = CONFIRMHARDRESET ->
  render_frames frs a w = Ok (a', w') ->
  (state a' = CHANGEPASSWORD \/ state a' = CONFIRMHARDRESET) /\
  (state a = CONFIRMHARDRESET -> state a' = CONFIRMHARDRESET) /\
  w' = w /\ encoder a' = encoder a /\ config a' = config a /\ db a' = db a /\
  user_input a' = user_input a /\ user_input2 a' = user_input2 a.
Proof.
  revert a. induction frs as [|fr frs IH]; intros a Hs; cbn [render_frames].
  - intros [= <- <-]. auto 10.
  - destruct (frame_commands fr a w) as [[a1 w1]| |] eqn:Hstep; try discriminate.
    cbn [mbind outcome_bind bind].
    destruct (frame_trap _ _ _ _ _ Hs Hstep) as (-> & Ha1 & Hs1 & Hkeep).
    intros Hrest. destruct (IH a1 Hs1 Hrest) as (Hs' & Hkeep' & -> & He & Hc & Hd & Hu & Hu2).
    rewrite Ha1 in He, Hc, Hd, Hu, Hu2. app_fields. auto 10.
Qed.

(** One failed login and its acknowledgement: back in LoggedOff, the
    password field cleared, nothing else changed. *)
Lemma failed_round (a : App) (w : World) (h : bytes) (p : str) :
  state a = LOGGEDOFF -> Config.password_hash (config a) = Ok h ->
  p <> [] -> verify_password p (password_salt (config a)) h = Ok false ->
  exists a1,
    frame_commands (submit p) a w = Ok (a1, w) /\
    frame_commands click_confirm a1 w
    = Ok ({| encoder := encoder a; user_input := []; user_input2 := user_input2 a;
             config := config a; state := LOGGEDOFF; db := db a |}, w).
Proof.
  intros Hs Hh Hne Hv.
  destruct (verify_password_returns _ _ _ _ Hv) as (pb & sb & Hpb & Hsb).
  destruct (frame_login (submit p) a w h pb sb Hs eq_refl eq_refl eq_refl Hh Hne Hpb Hsb)
    as (e & _ & Hstep).
  rewrite (verify_password_encoded _ _ _ _ h Hpb Hsb) in Hv. injection Hv as Hv.
  change (input_text (typed (submit p)) (user_input a)) with p in Hstep.
  rewrite Hv in Hstep. eexists. split; [exact Hstep|].
  rewrite frame_INVALIDPASSWORD by reflexivity. reflexivity.
Qed.

(** X14. There is no lock-out. From LoggedOff with a stored verifier,
    after any number of failed logins, each acknowledged with "Try
    again", the password that verifies still logs in: the state becomes
    LoggedOn with the session of that password, and the files, the
    configuration and the database are as before the first attempt. *)
Theorem login_after_failed_attempts (a : App) (w : World) (h : bytes)
    (wrong : list str) (password : str) :
  state a = LOGGEDOFF -> Config.password_hash (config a) = Ok h ->
  Forall (fun p => p <> [] /\ verify_password p (password_salt (config a)) h = Ok false)
    wrong ->
  password <> [] -> verify_password password (password_salt (config a)) h = Ok true ->
  exists e a',
    Encoder_init password (password_salt (config a)) = Ok e /\
    render_frames (flat_map (fun p => [submit p; click_confirm]) wrong ++ [submit password])
      a w = Ok (a', w) /\
    state a' = LOGGEDON /\ encoder a' = Some e /\
    config a' = config a /\ db a' = db a.
Proof.
  intros Hs Hh Hwrong Hne Hv. revert a Hs Hh Hv Hwrong.
  induction wrong as [|p wrong IH]; intros a Hs Hh Hv Hwrong.
  - destruct (verify_password_returns _ _ _ _ Hv) as (pb & sb & Hpb & Hsb).
    destruct (frame_login (submit password) a w h pb sb Hs eq_refl eq_refl eq_refl Hh Hne
                Hpb Hsb) as (e & He & Hstep).
    rewrite (verify_password_encoded _ _ _ _ h Hpb Hsb) in Hv. injection Hv as Hv.
    change (input_text (typed (submit password)) (user_input a)) with password in *.
    rewrite Hv in Hstep. exists e. eexists. split; [exact He|].
    cbn [flat_map app render_frames]. rewrite Hstep. cbn [mbind outcome_bind bind].
    split; [reflexivity|]. now app_fields.
  - apply Forall_cons in Hwrong as [[Hp Hvp] Hwrong].
    destruct (failed_round a w h p Hs Hh Hp Hvp) as (a1 & E1 & E2).
    edestruct (IH {| encoder := encoder a; user_input := []; user_input2 := user_input2 a;
                     config := config a; state := LOGGEDOFF; db := db a |})
      as (e & a' & He & Hrun & Hst & Henc & Hcfg & Hdb);
      [reflexivity|exact Hh|exact Hv|exact Hwrong|].
    exists e, a'. split; [exact He|]. split; [|auto].
    cbn [flat_map app render_frames]. rewrite E1. cbn [mbind outcome_bind bind].
    rewrite E2. exact Hrun.
Qed.

Lemma App_init_fresh (w w0 : World) (d home : Path) (tok : bytes) (a : App) :
  App_init w (Some d) home tok = Ok (a, w0) -> state a = EMPTY ->
  is_dir w d = true /\
  exists salt h0 dbh,
    gen_salt tok = Ok salt /\ Database_init w d = Ok (dbh, w0) /\
    a = {| encoder := None; user_input := []; user_input2 := [];
           config := {| storage_pth := d; password_salt := salt; _password_hash := h0 |};
           state := EMPTY; db := dbh |}.
Proof.
  unfold App_init. intros H Hs.
  destruct (path_exists w d); [|discriminate H].
  destruct (is_dir w d); [|discriminate H]. cbn [negb orb mbind outcome_bind bind] in H.
  split; [reflexivity|].
  destruct (path_exists w (join d CONFIGFILENAME)).
  - destruct (from_json w _) as [cfg| |]; try discriminate H.
    cbn [mbind outcome_bind bind] in H.
    destruct (Database_init w d) as [[dbh w1]| |]; try discriminate H.
    injection H as <- <-. discriminate Hs.
  - destruct (gen_salt tok) as [salt| |]; try discriminate H.
    cbn [mbind outcome_bind bind] in H.
    assert (Hcfg : (exists h0, AppConfig_init w d salt
                      = Ok {| storage_pth := d; password_salt := salt;
                              _password_hash := h0 |})
                   \/ AppConfig_init w d salt = Exit 1).
    { unfold AppConfig_init. destruct (path_exists w _); [|left; eauto].
      destruct (files w !! _); [left; eauto|now right]. }
    destruct Hcfg as [[h0 Hcfg]|Hcfg]; rewrite Hcfg in H; [|discriminate H].
    cbn [mbind outcome_bind bind] in H.
    destruct (Database_init w d) as [[dbh w1]| |]; try discriminate H.
    injection H as <- <-. now exists salt, h0, dbh.
Qed.

(** The handle that [Database()] returns is open, no plain file or
    directory is touched, and opening the same file again gives the same
    handle. *)
Lemma Database_init_opens (w w0 : World) (d : Path) (dbh : Database) :
  Database_init w d = Ok (dbh, w0) ->
  (exists c, dbh = {| _cursor := Some c |}) /\ files w0 = files w /\ dirs w0 = dirs w /\
  forall w1,
    files w1 !! join d DBFILENAME = files w0 !! join d DBFILENAME ->
    dirs w1 = dirs w0 -> sqlite w1 = sqlite w0 ->
    Database_init w1 d = Ok (dbh, w1).
Proof.
  unfold Database_init.
  destruct (negb (is_dir w d) || is_dir w (join d DBFILENAME)) eqn:Hd; [discriminate|].
  assert (Hagain : forall w0 w1 : World, dirs w0 = dirs w -> dirs w1 = dirs w0 ->
            negb (is_dir w1 d) || is_dir w1 (join d DBFILENAME) = false).
  { intros v0 v1 H0 H1. unfold is_dir in *. now rewrite H1, H0. }
  destruct (path_exists w (join d DBFILENAME)) eqn:Hex.
  - destruct (sqlite w !! join d DBFILENAME) as [t|] eqn:Es.
    + intros [= <- <-]. split; [eauto|]. do 2 (split; [reflexivity|]).
      intros w1 Hf Hdirs Hs. rewrite (Hagain w w1 eq_refl Hdirs).
      unfold path_exists. rewrite Hs, Es.
      rewrite (bool_decide_eq_true_2 (is_Some (Some t))) by eauto.
      now rewrite orb_true_r.
    + destruct (files w !! join d DBFILENAME) as [[|b c]|] eqn:Ef; try discriminate;
        intros [= <- <-]; (split; [eauto|]); do 2 (split; [reflexivity|]);
        intros w1 Hf Hdirs Hs; rewrite (Hagain w w1 eq_refl Hdirs);
        unfold path_exists, bytes in *; rewrite Hs, Es, Hf, Ef;
        rewrite bool_decide_eq_true_2 by eauto; reflexivity.
  - intros [= <- <-]. split; [eauto|]. do 2 (split; [reflexivity|]).
    intros w1 Hf Hdirs Hs. rewrite (Hagain _ w1 eq_refl Hdirs).
    replace (path_exists w1 (join d DBFILENAME)) with true.
    + rewrite Hs. cbn [sqlite create_db]. now rewrite lookup_insert_eq.
    + symmetry. unfold path_exists. rewrite Hs. cbn [sqlite create_db].
      rewrite lookup_insert_eq. apply orb_true_iff. right. apply bool_decide_eq_true. eauto.
Qed.

(** X15. A vault survives a restart. Start the application on an
    existing directory without a configuration, register an acceptable
    password, and start it again on the directory as the first run left
    it: the second run loads the configuration that was written, with
    the same salt and verifier, starts in LoggedOff without a session,
    and the registered password logs in with the same session key. *)
Theorem vault_survives_restart (w w0 : World) (d home : Path) (tok tok' : bytes)
    (a : App) (password : str) :
  App_init w (Some d) home tok = Ok (a, w0) -> state a = EMPTY ->
  password_meets_requirements password = true ->
  exists e a1 w1 a2,
    frame_commands (submit password) a w0 = Ok (a1, w1) /\
    state a1 = LOGGEDOFF /\ encoder a1 = Some e /\
    App_init w1 (Some d) home tok' = Ok (a2, w1) /\
    state a2 = LOGGEDOFF /\ encoder a2 = None /\ config a2 = config a1 /\
    frame_commands (submit password) a2 w1
    = Ok ({| encoder := Some e; user_input := []; user_input2 := [];
             config := config a1; state := LOGGEDON; db := db a2 |}, w1).
Proof.
  intros Hinit Hs Hok.
  destruct (App_init_fresh _ _ _ _ _ _ Hinit Hs) as (Hdir & salt & h0 & dbh & Hsalt & Hdb & ->).
  destruct (Database_init_opens _ _ _ _ Hdb) as ([c ->] & Hfiles & Hdirs & Hagain).
  pose proof (gen_salt_text _ _ Hsalt) as Htext.
  match goal with |- context [frame_commands _ ?a0 w0] =>
    destruct (frame_register (submit password) a0 w0 eq_refl eq_refl eq_refl eq_refl
                Htext Hok) as (e & pb & sb & Hpb & Hsb & He & Hkey & Hstep)
  end.
  cbn [config storage_pth password_salt user_input2 db] in Hstep.
  change (input_text (typed (submit password)) _) with password in *.
  cbn [config password_salt] in He, Hsb.
  set (w1 := write_file (join d HASHFILENAME) (Password.password_hash e)
               (write_file (join d CONFIGFILENAME) (model_dump_json d salt) w0)) in *.
  assert (Hinit2 : App_init w1 (Some d) home tok'
                   = Ok ({| encoder := None; user_input := []; user_input2 := [];
                            config := {| storage_pth := d; password_salt := salt;
                                         _password_hash := Some (Password.password_hash e) |};
                            state := LOGGEDOFF; db := {| _cursor := Some c |} |}, w1)).
  { assert (Hd : is_dir w1 d = true) by (unfold is_dir in *; cbn [dirs w1 write_file];
                                          now rewrite Hdirs).
    apply (App_init_loaded w1 w1 d home tok' _ (model_dump_json d salt)).
    - unfold path_exists. unfold is_dir in Hd. rewrite Hd. now rewrite orb_true_r.
    - exact Hd.
    - apply Hagain; [|reflexivity..]. cbn [files w1 write_file].
      rewrite !lookup_insert_ne; [reflexivity|intros H; apply join_inj in H; discriminate H..].
    - cbn [files w1 write_file]. rewrite lookup_insert_ne by apply config_hash_paths.
      now rewrite lookup_insert_eq.
    - now apply json_load_dump.
    - cbn [files w1 write_file]. now rewrite lookup_insert_eq. }
  exists e,
    {| encoder := Some e; user_input := []; user_input2 := [];
       config := {| storage_pth := d; password_salt := salt;
                    _password_hash := Some (Password.password_hash e) |};
       state := LOGGEDOFF; db := {| _cursor := Some c |} |},
    w1,
    {| encoder := None; user_input := []; user_input2 := [];
       config := {| storage_pth := d; password_salt := salt;
                    _password_hash := Some (Password.password_hash e) |};
       state := LOGGEDOFF; db := {| _cursor := Some c |} |}.
  split; [exact Hstep|]. split; [reflexivity|].
  split; [reflexivity|]. split; [exact Hinit2|]. split; [reflexivity|].
  split; [reflexivity|]. split; [reflexivity|].
  refine (frame_login_same_key (submit password)
            {| encoder := None; user_input := []; user_input2 := [];
               config := {| storage_pth := d; password_salt := salt;
                            _password_hash := Some (Password.password_hash e) |};
               state := LOGGEDOFF; db := {| _cursor := Some c |} |} w1 e
            eq_refl eq_refl eq_refl eq_refl _ He eq_refl).
  change (input_text (typed (submit password)) _) with password.
  intros ->. discriminate Hok.
Qed.

(** X16. In state AddRecord nothing happens until "Confirm" is clicked
    with both fields filled: when it is not clicked, or the title or the
    body is empty, the frame only takes over what was typed. The state
    stays AddRecord, nothing is encrypted (no session is needed), and the
    configuration, the database and the files are unchanged. *)
Theorem add_record_needs_both_fields (fr : Frame) (a : App) (w : World) :
  state a = ADDRECORD ->
  key_ctrl_q fr = false -> clicked_quit fr = false ->
  clicked_change_pwd fr = false -> clicked_reset fr = false -> find_btn fr = false ->
  let title := input_text (typed fr) (user_input a) in
  let body := input_text (typed2 fr) (user_input2 a) in
  confirm_clicked fr = false \/ title = [] \/ body = [] ->
  frame_commands fr a w
  = Ok ({| encoder := encoder a; user_input := title; user_input2 := body;
           config := config a; state := ADDRECORD; db := db a |}, w).
Proof.
  intros Hs Hq1 Hq2 Hm1 Hm2 Hf. cbv zeta. intros Hcase.
  rewrite frame_logged_on by (try assumption; now rewrite Hs). cbv zeta.
  unfold reset_menu, draw_main_options_menu, add_record_window. rewrite Hm1, Hm2, Hf, Hs.
  change (main_branch ADDRECORD) with true. cbv iota.
  assert (Hst : state (if add_btn fr then set_state ADDRECORD a else a) = ADDRECORD)
    by (destruct (add_btn fr); [reflexivity|exact Hs]).
  destruct (decide _) as [_|Hn]; [|contradiction].
  assert (Hguard : confirm_clicked fr
                   && negb (length (input_text (typed fr) (user_input a)) =? 0)%nat
                   && negb (length (input_text (typed2 fr) (user_input2 a)) =? 0)%nat = false).
  { destruct Hcase as [-> |[-> | ->]]; [reflexivity| |].
    - now rewrite andb_false_r.
    - now rewrite andb_false_r. }
  destruct (add_btn fr); app_fields; rewrite Hguard; [reflexivity|].
  now rewrite <- Hs.
Qed.

(** The largest timestamp that fits 8 octets. *)
Lemma clock_bound : 256 ^ N.of_nat 8 = 2 ^ 64.
Proof. vm_compute. reflexivity. Qed.

Lemma encode_overflow (e : Encoder) (now : N) (iv : bytes) (x : str) (xb : bytes) :
  str_encode x = Ok xb -> length iv = 16%nat -> 2 ^ 64 <= now ->
  encode e now iv x = Raise OverflowError.
Proof.
  intros Hxb Hiv Hn. unfold encode. rewrite Hxb.
  cbn [mbind outcome_bind bind].
  unfold Fernet.encrypt_from_parts, Fernet.cbc_mode, int_to_bytes.
  destruct (decide (length iv = 16%nat)); [|contradiction].
  cbn [mbind outcome_bind bind]. rewrite clock_bound.
  destruct (N.ltb_spec now (2 ^ 64)) as [Hlt|_]; [|reflexivity].
  exfalso. eapply N.lt_irrefl, N.le_lt_trans; eassumption.
Qed.

Lemma encode_bad_iv (e : Encoder) (now : N) (iv : bytes) (x : str) (xb : bytes) :
  str_encode x = Ok xb -> length iv <> 16%nat ->
  encode e now iv x = Raise ValueError.
Proof.
  intros Hxb Hiv. unfold encode. rewrite Hxb.
  cbn [mbind outcome_bind bind]. unfold Fernet.encrypt_from_parts, Fernet.cbc_mode.
  destruct (decide (length iv = 16%nat)); [contradiction|reflexivity].
Qed.

Lemma encode_not_text (e : Encoder) (now : N) (iv : bytes) (x : str) :
  utf8_encode x = None -> encode e now iv x = Raise UnicodeEncodeError.
Proof. intros Ex. unfold encode, str_encode. rewrite Ex. reflexivity. Qed.

(** What [Encoder.encode] can raise, and why. *)
Lemma encode_outcome (e : Encoder) (now : N) (iv : bytes) (x : str) :
  (exists t, encode e now iv x = Ok t) \/
  (encode e now iv x = Raise UnicodeEncodeError /\ ~ unicode_text x) \/
  (encode e now iv x = Raise ValueError /\ length iv <> 16%nat) \/
  (encode e now iv x = Raise OverflowError /\ 2 ^ 64 <= now).
Proof.
  destruct (utf8_encode x) as [xb|] eqn:Ex.
  - assert (Hxb : str_encode x = Ok xb) by (unfold str_encode; now rewrite Ex).
    destruct (decide (length iv = 16%nat)) as [Hiv|Hiv].
    + destruct (N.lt_ge_cases now (2 ^ 64)) as [Hn|Hn].
      * left. eexists. apply (encode_token e now iv x xb Hxb Hiv Hn).
      * right; right; right. split; [|exact Hn]. exact (encode_overflow e _ _ _ _ Hxb Hiv Hn).
    + right; right; left. split; [|exact Hiv]. exact (encode_bad_iv e now _ _ _ Hxb Hiv).
  - right; left. split; [exact (encode_not_text e now iv _ Ex)|].
    intros Ht. destruct (utf8_encode_total x Ht) as [xb Hxb]. congruence.
Qed.

Lemma verify_password_raises (password salt : str) (key : bytes) (ex : exn) :
  verify_password password salt key = Raise ex ->
  ex = UnicodeEncodeError /\ (~ unicode_text password \/ ~ unicode_text salt).
Proof.
  intros H.
  destruct (utf8_encode salt) as [sb|] eqn:Es.
  - destruct (utf8_encode password) as [pb|] eqn:Ep.
    + rewrite (verify_password_encoded password salt pb sb key) in H
        by (unfold str_encode; now rewrite ?Es, ?Ep).
      discriminate H.
    + unfold verify_password, str_encode in H. rewrite Es, Ep in H. injection H as <-.
      split; [reflexivity|left]. intros Ht.
      destruct (utf8_encode_total _ Ht) as [pb Hpb]. congruence.
  - unfold verify_password, str_encode in H. rewrite Es in H. injection H as <-.
    split; [reflexivity|right]. intros Ht.
    destruct (utf8_encode_total _ Ht) as [sb Hsb]. congruence.
Qed.

Lemma menus_keep (fr : Frame) (a : App) :
  encoder (draw_main_options_menu fr (reset_menu fr a)) = encoder a /\
  user_input (draw_main_options_menu fr (reset_menu fr a)) = user_input a /\
  user_input2 (draw_main_options_menu fr (reset_menu fr a)) = user_input2 a.
Proof.
  unfold draw_main_options_menu, reset_menu.
  destruct (clicked_change_pwd fr), (clicked_reset fr), (add_btn fr), (find_btn fr);
    repeat split.
Qed.

(** X17. The exceptions that can leave a frame. In a state the
    application reaches, [frame_commands] raises only for what it is
    handed: UnicodeEncodeError when the typed text or the salt is not
    text (a lone surrogate), ValueError when the random source does not
    give 16 octets, OverflowError when the clock does not fit 8 octets.
    With text input, a text salt and a sane clock and random source no
    frame raises; in particular the session is there whenever a note is
    encrypted, and the verifier is there whenever the configuration is
    written. *)
Theorem frame_exceptions (fr : Frame) (a : App) (w : World) (ex : exn) :
  reachable (a, w) -> frame_commands fr a w = Raise ex ->
  (ex = UnicodeEncodeError /\
   (~ unicode_text (input_text (typed fr) (user_input a)) \/
    ~ unicode_text (input_text (typed2 fr) (user_input2 a)) \/
    ~ unicode_text (password_salt (config a)))) \/
  (ex = ValueError /\
   (length (snd (draw1 fr)) <> 16%nat \/ length (snd (draw2 fr)) <> 16%nat)) \/
  (ex = OverflowError /\ (2 ^ 64 <= fst (draw1 fr) \/ 2 ^ 64 <= fst (draw2 fr))).
Proof.
  intros Hr H. pose proof (reachable_inv _ Hr) as Hinv. cbn [fst] in Hinv.
  destruct (quit_cases fr) as [Hq|[Hq1 Hq2]]; [now rewrite (frame_quit _ _ _ Hq) in H|].
  destruct (reset_menu_allowed (state a)) eqn:Hg.
  { assert (Henc : is_Some (encoder a)).
    { unfold app_inv in Hinv. destruct (state a); try discriminate Hg; tauto. }
    rewrite frame_logged_on in H by assumption. cbv zeta in H.
    destruct (main_branch _); [|discriminate H].
    destruct (decide _); [|discriminate H].
    unfold add_record_window in H. cbv zeta in H.
    destruct (menus_keep fr a) as (He & Hu & Hu2).
    cbn [encoder user_input user_input2 set_user_input set_user_input2] in H.
    rewrite He, Hu, Hu2 in H.
    destruct (_ && _); [|discriminate H].
    destruct Henc as [sess Henc]. rewrite Henc in H.
    destruct (encode_outcome sess (fst (draw1 fr)) (snd (draw1 fr))
                (input_text (typed fr) (user_input a)))
      as [[t1 E1]|[[E1 Hc]|[[E1 Hc]|[E1 Hc]]]]; rewrite E1 in H;
      cbn [mbind outcome_bind bind] in H.
    - destruct (encode_outcome sess (fst (draw2 fr)) (snd (draw2 fr))
                  (input_text (typed2 fr) (user_input2 a)))
        as [[t2 E2]|[[E2 Hc]|[[E2 Hc]|[E2 Hc]]]]; rewrite E2 in H;
        cbn [mbind outcome_bind bind] in H.
      + discriminate H.
      + injection H as <-. left. split; [reflexivity|]. right. left. exact Hc.
      + injection H as <-. right. left. split; [reflexivity|]. right. exact Hc.
      + injection H as <-. right. right. split; [reflexivity|]. right. exact Hc.
    - injection H as <-. left. split; [reflexivity|]. left. exact Hc.
    - injection H as <-. right. left. split; [reflexivity|]. left. exact Hc.
    - injection H as <-. right. right. split; [reflexivity|]. left. exact Hc. }
  unfold app_inv in Hinv.
  destruct (state a) eqn:Hs; try contradiction; try discriminate Hg.
  - rewrite frame_idle in H by auto. discriminate H.
  - rewrite frame_INVALIDNEWPASSWORD in H by assumption.
    destruct (confirm_clicked fr); discriminate H.
  - destruct Hinv as [_ Hsalt].
    rewrite frame_EMPTY in H by assumption. cbv zeta in H. app_fields.
    destruct (_ && _); [|discriminate H].
    destruct (password_meets_requirements _) eqn:Hok; [|discriminate H].
    destruct (str_encode_text _ (password_meets_requirements_text _ Hok)) as [pb Hpb].
    destruct (str_encode_text _ Hsalt) as [sb Hsb].
    destruct (Encoder_init_encoded _ _ _ _ Hpb Hsb) as (e & He & _ & _).
    rewrite He in H. cbn [mbind outcome_bind bind] in H. discriminate H.
  - rewrite frame_LOGGEDOFF in H by assumption. cbv zeta in H. app_fields.
    destruct (_ && _); [|discriminate H].
    unfold Config.password_hash in H.
    destruct (_password_hash (config a)) as [[|b h]|]; try discriminate H.
    cbn [mbind outcome_bind bind] in H.
    destruct (verify_password _ _ _) as [[]|ex'|] eqn:Hv; cbn [mbind outcome_bind bind] in H;
      try discriminate H.
    + destruct (verify_password_returns _ _ _ _ Hv) as (pb & sb & Hpb & Hsb).
      destruct (Encoder_init_encoded _ _ _ _ Hpb Hsb) as (e & He & _ & _).
      rewrite He in H. discriminate H.
    + injection H as <-. left.
      destruct (verify_password_raises _ _ _ _ Hv) as [-> [Hc|Hc]];
        (split; [reflexivity|]); [left|right; right]; exact Hc.
  - rewrite frame_INVALIDPASSWORD in H by assumption.
    destruct (confirm_clicked fr); discriminate H.
Qed.

Lemma render_frames_app (frs1 frs2 : list Frame) (a : App) (w : World) :
  render_frames (frs1 ++ frs2) a w
  = '(a1, w1) ← render_frames frs1 a w; render_frames frs2 a1 w1.
Proof.
  revert a w. induction frs1 as [|fr frs1 IH]; intros a w; cbn [app render_frames].
  - reflexivity.
  - destruct (frame_commands fr a w) as [[a1 w1]| |]; cbn [mbind outcome_bind bind];
      [apply IH|reflexivity..].
Qed.

(** X18. How [App.run] ends. When the user presses Ctrl+Q or chooses
    File > Quit, in whatever state and whatever else is clicked or typed
    in that frame, the process ends with status 0 and no later frame is
    rendered. When the window is closed instead, [run] closes the
    database: the state, session and configuration are those of the last
    frame, and every later [fetch_record], [add_record] or [del_record]
    raises AttributeError. *)
Theorem run_ends (frs : list Frame) (a : App) (w : World) :
  (forall a1 w1 fr rest,
     render_frames frs a w = Ok (a1, w1) ->
     key_ctrl_q fr = true \/ clicked_quit fr = true ->
     run (frs ++ fr :: rest) a w = Exit 0) /\
  (forall a' w',
     run frs a w = Ok (a', w') ->
     exists a1,
       render_frames frs a w = Ok (a1, w') /\
       state a' = state a1 /\ encoder a' = encoder a1 /\ config a' = config a1 /\
       forall title body,
         fetch_record (db a') title = Raise AttributeError /\
         add_record (db a') title body = Raise AttributeError /\
         del_record (db a') title = Raise AttributeError).
Proof.
  split.
  - intros a1 w1 fr rest Hrun Hq. unfold run. rewrite render_frames_app, Hrun.
    cbn [mbind outcome_bind bind render_frames]. now rewrite (frame_quit _ _ _ Hq).
  - intros a' w'. unfold run.
    destruct (render_frames frs a w) as [[a1 w1]| |]; try discriminate.
    cbn [mbind outcome_bind bind]. intros [= <- <-]. exists a1. repeat split.
Qed.





(** X20. An empty verifier file counts as no verifier. On a storage
    directory with a configuration record and a [hash] file of no
    octets, the application starts in LoggedOff as usual, and the first
    attempt to log in, whatever the password, ends the process with
    status 1 before any password is checked. *)
Theorem empty_verifier_file (w w' : World) (d home : Path) (tok : bytes) (dbh : Database)
    (content : bytes) (p : Path) (salt : str) :
  path_exists w d = true -> is_dir w d = true ->
  Database_init w d = Ok (dbh, w') ->
  files w !! join d CONFIGFILENAME = Some content ->
  json_load content = Loaded p salt ->
  files w !! join p HASHFILENAME = Some [] ->
  exists a,
    App_init w (Some d) home tok = Ok (a, w') /\
    state a = LOGGEDOFF /\ _password_hash (config a) = Some [] /\
    forall fr, key_ctrl_q fr = false -> clicked_quit fr = false ->
      confirm_clicked fr = true -> input_text (typed fr) [] <> [] ->
      frame_commands fr a w' = Exit 1.
Proof.
  intros Hd1 Hd2 Hdb Hcfg Hload Hhash.
  eexists. split; [exact (App_init_loaded _ _ _ _ _ _ _ _ _ _ Hd1 Hd2 Hdb Hcfg Hload Hhash)|].
  split; [reflexivity|]. split; [reflexivity|].
  intros fr Hq1 Hq2 Hc Hne.
  rewrite frame_LOGGEDOFF by (try assumption; reflexivity). cbv zeta. rewrite Hc.
  app_fields. destruct (input_text (typed fr) []); [contradiction|]. reflexivity.
Qed.

End StateMachineFacts.

(** ** The further properties on concrete input *)

Lemma gen_salt_shape_witness :
  exists salt,
    gen_salt entropy = Ok salt /\ length salt = 22%nat /\
    Forall (fun c => urlsafe_char c = true) salt.
Proof. apply (gen_salt_shape entropy). reflexivity. Defined.

Lemma gen_salt_injective_witness : gen_salt (repeat x01 16) <> Ok salt0.
Proof.
  intros H.
  discriminate (gen_salt_injective (repeat x01 16) entropy salt0 eq_refl eq_refl H eq_refl).
Defined.

Lemma token_shape_witness :
  exists token,
    encode (C := ref_crypto) ref_session 1699999999 entropy note = Ok token /\
    length token = 100%nat /\
    Forall (fun c => urlsafe_char c = true \/ c = 61) token.
Proof.
  assert (He : Encoder_init (C := ref_crypto) strong_password salt0 = Ok ref_session)
    by (vm_compute; reflexivity).
  destruct (token_shape (C := ref_crypto) strong_password salt0 note ref_session
              1699999999 entropy _ He eq_refl eq_refl eq_refl) as (token & Henc & Hlen & Hall).
  exists token. split; [exact Henc|]. split; [exact Hlen|exact Hall].
Defined.

Lemma short_token_rejected_witness :
  decode (C := ref_crypto) ref_session (of_string "gAAAAAB") = Raise InvalidToken.
Proof.
  apply (short_token_rejected (C := ref_crypto) ref_session (of_string "gAAAAAB")
           (bytes_of_string "gAAAAAB") eq_refl).
  cbn. lia.
Defined.

Lemma database_refines_map_witness :
  exists db',
    do_calls {| _cursor := Some (Records []) |}
      [CallAdd (of_string "groceries") (of_string "gAAAAAB");
       CallDel (of_string "groceries");
       CallAdd (of_string "groceries") (of_string "gAAAAAC")] = Ok db' /\
    fetch_record db' (of_string "groceries") = Ok (Some (of_string "gAAAAAC")) /\
    fetch_record db' (of_string "errands") = Ok None.
Proof.
  pose proof (database_refines_map []
                [CallAdd (of_string "groceries") (of_string "gAAAAAB");
                 CallDel (of_string "groceries");
                 CallAdd (of_string "groceries") (of_string "gAAAAAC")]) as H.
  cbn [map_calls map_call] in H. unfold view in H. cbn [list_to_map foldr] in H.
  rewrite lookup_empty, delete_insert_eq, delete_empty, lookup_empty in H.
  destruct H as (db' & Hdo & Hfetch); [repeat constructor; text|].
  exists db'. split; [exact Hdo|]. split.
  - rewrite Hfetch by text. now rewrite lookup_insert_eq.
  - rewrite Hfetch by text. rewrite lookup_insert_ne by discriminate. now rewrite lookup_empty.
Defined.

Lemma names_stay_unique_witness :
  exists t',
    do_calls {| _cursor := Some (Records []) |}
      [CallAdd (of_string "groceries") (of_string "gAAAAAB");
       CallAdd (of_string "errands") (of_string "gAAAAAC")] = Ok {| _cursor := Some (Records t') |} /\
    NoDup (t'.*1) /\
    fetch_record {| _cursor := Some (Records t') |} (of_string "errands")
    = Ok (Some (of_string "gAAAAAC")).
Proof.
  destruct (names_stay_unique []
              [CallAdd (of_string "groceries") (of_string "gAAAAAB");
               CallAdd (of_string "errands") (of_string "gAAAAAC")]
              {| _cursor := Some (Records [(of_string "groceries", of_string "gAAAAAB");
                                  (of_string "errands", of_string "gAAAAAC")]) |}
              (NoDup_nil_2 : NoDup ([] : table).*1) eq_refl) as (t' & Heq & Hnd & Hrow).
  injection Heq as <-. eexists. split; [reflexivity|]. split; [exact Hnd|].
  apply Hrow; [text|]. apply list_elem_of_further, list_elem_of_here.
Defined.



(** The application in ChangePassword, logged on with [ref_session]. *)
Definition changing_app : App :=
  {| encoder := Some ref_session; user_input := []; user_input2 := [];
     config := set_password_hash (Password.password_hash ref_session) fresh_config;
     state := CHANGEPASSWORD; db := {| _cursor := Some (Records []) |} |}.

Lemma reset_menu_is_a_dead_end_witness :
  exists a',
    render_frames (C := ref_crypto) (J := ref_json)
      [click_add; submit strong_password; click_reset; click_change_pwd; click_confirm]
      changing_app fresh_world = Ok (a', fresh_world) /\
    (state a' = CHANGEPASSWORD \/ state a' = CONFIRMHARDRESET) /\
    encoder a' = encoder changing_app /\ config a' = config changing_app /\
    db a' = db changing_app.
Proof.
  eexists. split; [vm_compute; reflexivity|].
  match goal with |- context [state ?a'] =>
    destruct (reset_menu_is_a_dead_end (C := ref_crypto) (J := ref_json)
                [click_add; submit strong_password; click_reset; click_change_pwd;
                 click_confirm]
                changing_app a' fresh_world fresh_world (or_introl eq_refl)
                ltac:(vm_compute; reflexivity))
      as (Hs & _ & _ & He & Hc & Hd & _)
  end.
  split; [exact Hs|]. split; [exact He|]. split; [exact Hc|exact Hd].
Defined.

Lemma login_after_failed_attempts_witness :
  exists e a',
    Encoder_init (C := ref_crypto) strong_password salt0 = Ok e /\
    render_frames (C := ref_crypto) (J := ref_json)
      [submit (of_string "letmein1"); click_confirm;
       submit (of_string "hunter22"); click_confirm;
       submit strong_password]
      registered_app fresh_world = Ok (a', fresh_world) /\
    state a' = LOGGEDON /\ encoder a' = Some e /\
    config a' = config registered_app /\ db a' = db registered_app.
Proof.
  apply (login_after_failed_attempts (C := ref_crypto) (J := ref_json) registered_app
           fresh_world (Password.password_hash ref_session)
           [of_string "letmein1"; of_string "hunter22"] strong_password).
  - reflexivity.
  - reflexivity.
  - repeat constructor; try discriminate; vm_compute; reflexivity.
  - discriminate.
  - vm_compute. reflexivity.
Defined.

Lemma vault_survives_restart_witness :
  exists e a1 w1 a2,
    frame_commands (C := ref_crypto) (J := ref_json) (submit strong_password)
      fresh_app fresh_world = Ok (a1, w1) /\
    state a1 = LOGGEDOFF /\ encoder a1 = Some e /\
    App_init (J := ref_json) w1 (Some vault_dir) home_dir (repeat xff 16) = Ok (a2, w1) /\
    state a2 = LOGGEDOFF /\ encoder a2 = None /\ config a2 = config a1 /\
    frame_commands (C := ref_crypto) (J := ref_json) (submit strong_password) a2 w1
    = Ok ({| encoder := Some e; user_input := []; user_input2 := [];
             config := config a1; state := LOGGEDON; db := db a2 |}, w1).
Proof.
  exact (vault_survives_restart (C := ref_crypto) (J := ref_json) empty_world fresh_world
           vault_dir home_dir entropy (repeat xff 16) fresh_app strong_password
           eq_refl eq_refl eq_refl).
Defined.

Lemma add_record_needs_both_fields_witness :
  frame_commands (C := ref_crypto) (J := ref_json) (submit_note (of_string "groceries") [])
    (adding_app ref_session) fresh_world
  = Ok ({| encoder := Some ref_session; user_input := of_string "groceries";
           user_input2 := [];
           config := set_password_hash (Password.password_hash ref_session) fresh_config;
           state := ADDRECORD; db := {| _cursor := Some (Records []) |} |}, fresh_world).
Proof.
  apply (add_record_needs_both_fields (C := ref_crypto) (J := ref_json)
           (submit_note (of_string "groceries") []) (adding_app ref_session) fresh_world);
    try reflexivity.
  right. right. reflexivity.
Defined.

Lemma frame_exceptions_witness :
  exists a w,
    reachable (C := ref_crypto) (J := ref_json) (a, w) /\
    frame_commands (C := ref_crypto) (J := ref_json) (submit [0xD800]) a w
    = Raise UnicodeEncodeError /\
    ~ unicode_text [0xD800].
Proof.
  destruct (registered_reachable (C := ref_crypto) (J := ref_json)) as (e & w1 & He & Hr).
  vm_compute in He. injection He as <-.
  eexists _, w1. split; [exact Hr|].
  assert (Hstep : frame_commands (C := ref_crypto) (J := ref_json) (submit [0xD800])
                    {| encoder := Some ref_session; user_input := []; user_input2 := [];
                       config := set_password_hash (Password.password_hash ref_session)
                                   fresh_config;
                       state := LOGGEDOFF; db := {| _cursor := Some (Records []) |} |} w1
                  = Raise UnicodeEncodeError) by reflexivity.
  split; [exact Hstep|].
  destruct (frame_exceptions (C := ref_crypto) (J := ref_json) _ _ _ _ Hr Hstep)
    as [[_ [Hc|[Hc|Hc]]]|[[Hc _]|[Hc _]]]; try discriminate Hc; try exact Hc.
  - exfalso. apply Hc. constructor.
  - exfalso. apply Hc. text.
Defined.

(** A storage directory with a configuration record and an empty
    verifier file. *)
Definition empty_verifier_world : World :=
  {| files := {[ join vault_dir CONFIGFILENAME := model_dump_json (Json := ref_json)
                                                    vault_dir salt0;
                 join vault_dir HASHFILENAME := [] ]};
     dirs := {[vault_dir]}; sqlite := ∅ |}.

Lemma empty_verifier_file_witness :
  exists a,
    App_init (J := ref_json) empty_verifier_world (Some vault_dir) home_dir entropy
    = Ok (a, create_db (join vault_dir DBFILENAME) [] empty_verifier_world) /\
    state a = LOGGEDOFF /\
    frame_commands (C := ref_crypto) (J := ref_json) (submit strong_password) a
      (create_db (join vault_dir DBFILENAME) [] empty_verifier_world) = Exit 1.
Proof.
  destruct (empty_verifier_file (C := ref_crypto) (J := ref_json) empty_verifier_world
              (create_db (join vault_dir DBFILENAME) [] empty_verifier_world)
              vault_dir home_dir entropy {| _cursor := Some (Records []) |}
              (model_dump_json (Json := ref_json) vault_dir salt0) vault_dir salt0
              eq_refl eq_refl eq_refl eq_refl ltac:(vm_compute; reflexivity) eq_refl)
    as (a & Hinit & Hs & _ & Hexit).
  exists a. split; [exact Hinit|]. split; [exact Hs|].
  apply Hexit; [reflexivity..|discriminate].
Defined.

(** ** Start-up on damaged storage directories *)

(** [db.sqlite] is a plain file of one octet, which is no database. *)
Definition garbage_db_world : World :=
  {| files := {[ join vault_dir DBFILENAME := [x00] ]};
     dirs := {[vault_dir]}; sqlite := ∅ |}.

(** [db.sqlite] is an empty file. *)
Definition empty_db_world : World :=
  {| files := {[ join vault_dir DBFILENAME := [] ]};
     dirs := {[vault_dir]}; sqlite := ∅ |}.

(** The default storage path is taken by a plain file. *)
Definition file_for_dir_world : World :=
  {| files := {[ join (join home_dir ".config") APPNAME := [] ]};
     dirs := ∅; sqlite := ∅ |}.

(** [config.json] holds a record cut short of its path. *)
Definition invalid_record_world : World :=
  {| files := {[ join vault_dir CONFIGFILENAME := [x01; x00] ]};
     dirs := {[vault_dir]}; sqlite := ∅ |}.

(** Start-up does not refuse a [db.sqlite] that is no database: it
    returns, and the calls on the handle raise DatabaseError. *)
Example garbage_database_start :
  exists a,
    App_init (J := ref_json) garbage_db_world (Some vault_dir) home_dir entropy
    = Ok (a, garbage_db_world) /\
    state a = EMPTY /\
    fetch_record (db a) (of_string "groceries") = Raise DatabaseError /\
    add_record (db a) (of_string "groceries") note = Raise DatabaseError /\
    del_record (db a) (of_string "groceries") = Raise DatabaseError.
Proof. eexists. split; [vm_compute; reflexivity|]. repeat split. Qed.

(** An empty [db.sqlite] is opened without creating the table, and the
    calls on the handle raise OperationalError. *)
Example empty_database_start :
  exists a,
    App_init (J := ref_json) empty_db_world (Some vault_dir) home_dir entropy
    = Ok (a, empty_db_world) /\
    fetch_record (db a) (of_string "groceries") = Raise OperationalError /\
    add_record (db a) (of_string "groceries") note = Raise OperationalError.
Proof. eexists. split; [vm_compute; reflexivity|]. repeat split. Qed.

(** When the default storage path is a plain file, the database cannot
    be opened under it. *)
Example storage_path_is_a_file :
  App_init (J := ref_json) file_for_dir_world None home_dir entropy = Raise OperationalError.
Proof. vm_compute. reflexivity. Qed.

(** A configuration record that fails validation makes start-up raise
    AttributeError instead of ending the process with status 1. *)
Example invalid_record_start :
  json_load (Json := ref_json) [x01; x00] = Invalid /\
  App_init (J := ref_json) invalid_record_world (Some vault_dir) home_dir entropy
  = Raise AttributeError.
Proof. split; vm_compute; reflexivity. Qed.
